(** * pdf2video: the video compositor and the WAV wrapper

    A shallow embedding of [services/videoService.ts] (generateVideo) and of
    [services/audioUtils.ts] (pcmToWav, createWavHeader, writeString).

    Conventions of the embedding:
    - a JavaScript number that holds a time or a length in seconds is the
      rational ([Q]) it denotes: the clock of the audio context and the
      durations of the buffers are read from the browser, and the one sum
      the code makes of them, the end time of a slide (line 100), is taken
      as their exact sum;
    - the arithmetic on canvas coordinates (lines 116-120) is the arithmetic
      of IEEE doubles: every operation rounds its exact result to the
      nearest binary64 value ([Doubles]);
    - a JavaScript number that is used as an integer (a byte, a length, a
      sample rate, an image dimension) is a [Z]; the conversions of the typed
      arrays and of [DataView] (ToUint8, ToUint16, ToUint32) are written out
      as reductions modulo a power of two;
    - the browser is an explicit environment: every primitive the code calls
      is a field of a record, and every call is logged in an event trace. *)

From Stdlib Require Import List String Ascii Bool Arith ZArith QArith Qminmax
  Qround Qabs Qpower Lia Lqa DecimalString Permutation.
From Stdlib Require PrimFloat FloatOps SpecFloat Uint63 DecimalNat DecimalFacts.
Import ListNotations.

Local Open Scope string_scope.
Local Open Scope list_scope.
Local Open Scope Z_scope.

(** ** Values shared by the two services *)

(** A [Blob]: its bytes and its [type] string. *)
Record Blob : Type := mkBlob {
  blob_bytes : list Z;
  blob_type : string
}.

(** [blob.size] *)
Definition blob_size (b : Blob) : Z := Z.of_nat (List.length (blob_bytes b)).

(** [new Blob(parts, { type })]: the parts' bytes, one after the other. *)
Definition new_Blob (parts : list Blob) (type : string) : Blob :=
  mkBlob (List.concat (map blob_bytes parts)) type.

(** What a JavaScript call can throw. *)
Inductive Error : Type :=
| InvalidCharacterError            (* atob on a string that is not base64 *)
| RangeError                       (* DataView / typed array offset out of bounds *)
| TypeError (what : string)        (* calling or constructing [undefined] *)
| NotSupportedError                (* MediaRecorder refuses the options *)
| ErrorMsg (msg : string)          (* [throw new Error(msg)] *)
| ImageLoadError (src : string)    (* [img.onerror] *)
| EncodingError                    (* decodeAudioData rejects *)
| ResumeError.                     (* audioCtx.resume() rejects *)

(** ** services/audioUtils.ts *)

Module AudioUtils.

(** The result of a synchronous call: a value or a thrown error. *)
Inductive Result (A : Type) : Type :=
| Ok (a : A)
| Throw (e : Error).
Arguments Ok {A} a.
Arguments Throw {A} e.

Definition bind {A B : Type} (r : Result A) (k : A -> Result B) : Result B :=
  match r with
  | Ok a => k a
  | Throw e => Throw e
  end.

Notation "x <- c ;; k" := (bind c (fun x => k))
  (at level 61, c at next level, right associativity).

(** [s.charCodeAt(i)] for the characters of a binary string. *)
Definition charCode (c : ascii) : Z := Z.of_nat (nat_of_ascii c).

Definition charCodes (s : string) : list Z := map charCode (list_ascii_of_string s).

(** Byte [k] (0 is the least significant) of ToUint32/ToUint16/ToUint8 of
    [v], as [DataView] stores it. *)
Definition byte_of (k : Z) (v : Z) : Z := (v / 256 ^ k) mod 256.

Definition ToUint8 (v : Z) : Z := v mod 2 ^ 8.
Definition ToUint16 (v : Z) : Z := v mod 2 ^ 16.
Definition ToUint32 (v : Z) : Z := v mod 2 ^ 32.

(** [new Uint8Array(n)] and [new ArrayBuffer(n)]: [n] zero bytes. *)
Definition new_Uint8Array (n : nat) : list Z := repeat 0 n.

(** Overwrite the bytes of [buf] from [offset] on with [src]; a write that
    does not fit throws [RangeError], as [DataView.set*] and
    [TypedArray.set] do. *)
Definition write_bytes (buf : list Z) (offset : nat) (src : list Z) : Result (list Z) :=
  if (offset + List.length src <=? List.length buf)%nat
  then Ok (firstn offset buf ++ src ++ skipn (offset + List.length src) buf)
  else Throw RangeError.

(** [view.setUint8(offset, v)] *)
Definition setUint8 (view : list Z) (offset : nat) (v : Z) : Result (list Z) :=
  write_bytes view offset [byte_of 0 (ToUint8 v)].

(** [view.setUint16(offset, v, true)]: little endian. *)
Definition setUint16 (view : list Z) (offset : nat) (v : Z) : Result (list Z) :=
  write_bytes view offset [byte_of 0 (ToUint16 v); byte_of 1 (ToUint16 v)].

(** [view.setUint32(offset, v, true)]: little endian. *)
Definition setUint32 (view : list Z) (offset : nat) (v : Z) : Result (list Z) :=
  write_bytes view offset
    [byte_of 0 (ToUint32 v); byte_of 1 (ToUint32 v);
     byte_of 2 (ToUint32 v); byte_of 3 (ToUint32 v)].

(** [writeString(view, offset, string)]: one [setUint8] per character, in
    order, at [offset + i]. *)
Fixpoint writeString_from (view : list Z) (offset : nat) (cs : list ascii)
  : Result (list Z) :=
  match cs with
  | [] => Ok view
  | c :: rest =>
      view' <- setUint8 view offset (charCode c) ;;
      writeString_from view' (S offset) rest
  end.

Definition writeString (view : list Z) (offset : nat) (s : string) : Result (list Z) :=
  writeString_from view offset (list_ascii_of_string s).

(** [createWavHeader(dataLength, sampleRate)] *)
Definition createWavHeader (dataLength sampleRate : Z) : Result (list Z) :=
  let numChannels := 1 in
  let bitsPerSample := 16 in
  let byteRate := (sampleRate * numChannels * bitsPerSample) / 8 in
  let blockAlign := (numChannels * bitsPerSample) / 8 in
  let view := new_Uint8Array 44 in
  (* RIFF chunk descriptor *)
  view <- writeString view 0 "RIFF" ;;
  view <- setUint32 view 4 (36 + dataLength) ;;
  view <- writeString view 8 "WAVE" ;;
  (* fmt sub-chunk *)
  view <- writeString view 12 "fmt " ;;
  view <- setUint32 view 16 16 ;;
  view <- setUint16 view 20 1 ;;
  view <- setUint16 view 22 numChannels ;;
  view <- setUint32 view 24 sampleRate ;;
  view <- setUint32 view 28 byteRate ;;
  view <- setUint16 view 32 blockAlign ;;
  view <- setUint16 view 34 bitsPerSample ;;
  (* data sub-chunk *)
  view <- writeString view 36 "data" ;;
  view <- setUint32 view 40 dataLength ;;
  Ok view.

(** [pcmToWav(base64Pcm, sampleRate)].  [atob] is the browser's base64
    decoder: [None] when it throws, otherwise the binary string, one
    character per decoded byte. *)
Definition pcmToWav (atob : string -> option string)
    (base64Pcm : string) (sampleRate : Z) : Result Blob :=
  match atob base64Pcm with
  | None => Throw InvalidCharacterError
  | Some binaryString =>
      let len := String.length binaryString in
      (* bytes[i] = binaryString.charCodeAt(i), stored through ToUint8 *)
      let bytes := map ToUint8 (charCodes binaryString) in
      wavHeader <- createWavHeader (Z.of_nat (List.length bytes)) sampleRate ;;
      let wavBytes := new_Uint8Array (List.length wavHeader + List.length bytes) in
      wavBytes <- write_bytes wavBytes 0 wavHeader ;;
      wavBytes <- write_bytes wavBytes (List.length wavHeader) bytes ;;
      Ok (new_Blob [mkBlob wavBytes EmptyString] "audio/wav")
  end.

(** The default of the second parameter. *)
Definition default_sampleRate : Z := 24000.

(** Readers of the header fields (little endian), for the statements. *)
Definition read_u16 (bytes : list Z) (offset : nat) : Z :=
  nth offset bytes 0 + 256 * nth (offset + 1) bytes 0.

Definition read_u32 (bytes : list Z) (offset : nat) : Z :=
  nth offset bytes 0 + 256 * nth (offset + 1) bytes 0
  + 65536 * nth (offset + 2) bytes 0 + 16777216 * nth (offset + 3) bytes 0.

Definition read_tag (bytes : list Z) (offset : nat) : list Z :=
  firstn 4 (skipn offset bytes).

(** The 44 bytes that [createWavHeader] builds, field by field. *)
Definition wav_header (n sr : Z) : list Z :=
  [82; 73; 70; 70;
   byte_of 0 (ToUint32 (36 + n)); byte_of 1 (ToUint32 (36 + n));
   byte_of 2 (ToUint32 (36 + n)); byte_of 3 (ToUint32 (36 + n));
   87; 65; 86; 69;
   102; 109; 116; 32;
   16; 0; 0; 0;
   1; 0;
   1; 0;
   byte_of 0 (ToUint32 sr); byte_of 1 (ToUint32 sr);
   byte_of 2 (ToUint32 sr); byte_of 3 (ToUint32 sr);
   byte_of 0 (ToUint32 (sr * 2)); byte_of 1 (ToUint32 (sr * 2));
   byte_of 2 (ToUint32 (sr * 2)); byte_of 3 (ToUint32 (sr * 2));
   2; 0;
   16; 0;
   100; 97; 116; 97;
   byte_of 0 (ToUint32 n); byte_of 1 (ToUint32 n);
   byte_of 2 (ToUint32 n); byte_of 3 (ToUint32 n)].

(** A WAV blob of [n] data bytes at [sampleRate]: the type, the total
    length, ChunkSize, Subchunk2Size, AudioFormat (PCM), NumChannels (mono),
    BitsPerSample, ByteRate and BlockAlign. *)
Definition wav_blob_spec (blob : Blob) (n sampleRate : Z) : Prop :=
  blob_type blob = "audio/wav" /\
  blob_size blob = 44 + n /\
  read_u32 (blob_bytes blob) 4 = 36 + n /\
  read_u32 (blob_bytes blob) 40 = n /\
  read_u16 (blob_bytes blob) 20 = 1 /\
  read_u16 (blob_bytes blob) 22 = 1 /\
  read_u16 (blob_bytes blob) 34 = 16 /\
  read_u32 (blob_bytes blob) 28 = sampleRate * 2 /\
  read_u16 (blob_bytes blob) 32 = 2.

End AudioUtils.

(** ** JavaScript numbers in arithmetic *)

Module Doubles.

(** A JavaScript number: a finite binary64 value, held as the rational it
    denotes, an infinity or NaN. Zeros carry no sign. *)
Inductive Double : Type :=
| Finite (q : Q)
| PlusInfinity
| MinusInfinity
| NaN.

(** The integer nearest to [y], the even one of two that are equally near. *)
Definition round_half_even (y : Q) : Z :=
  let q := Qfloor y in
  match (y - inject_Z q ?= 1 # 2)%Q with
  | Lt => q
  | Gt => q + 1
  | Eq => if Z.even q then q else q + 1
  end.

(** The exponent [k] of the last place of the 53-bit significand of
    [x <> 0]: [2^(k+52) <= |x| < 2^(k+53)]. The difference of the two
    logarithms is the exponent of [|x|] or one more; the comparison tells
    which. *)
Definition ulp_exponent (x : Q) : Z :=
  let e := Z.log2 (Z.abs (Qnum x)) - Z.log2 (Z.pos (Qden x)) in
  if Qle_bool (2 ^ e) (Qabs x) then e - 52 else e - 53.

(** Rounding to the nearest binary64 value, ties to even: a multiple of
    [2^k], where [k] is the exponent of the last place, and not below
    [-1074] (gradual underflow). *)
Definition round_to_double (x : Q) : Q :=
  if Qeq_bool x 0 then 0%Q
  else
    let k := Z.max (ulp_exponent x) (-1074) in
    (inject_Z (round_half_even (x / 2 ^ k)) * 2 ^ k)%Q.

(** The result of an operation whose exact value is [x]: [x] rounded, or an
    infinity when the rounded value is out of range. *)
Definition fl (x : Q) : Double :=
  let r := round_to_double x in
  if Qle_bool (2 ^ 1024) (Qabs r)
  then if Qle_bool 0 r then PlusInfinity else MinusInfinity
  else Finite r.

(** An integer as a number. *)
Definition of_int (z : Z) : Double := fl (inject_Z z).

(** [a / b] *)
Definition div (a b : Double) : Double :=
  match a, b with
  | NaN, _ | _, NaN => NaN
  | Finite p, Finite q =>
      if Qeq_bool q 0 then
        match (p ?= 0)%Q with Eq => NaN | Gt => PlusInfinity | Lt => MinusInfinity end
      else fl (p / q)
  | Finite _, _ => Finite 0
  | PlusInfinity, Finite q => if Qle_bool 0 q then PlusInfinity else MinusInfinity
  | MinusInfinity, Finite q => if Qle_bool 0 q then MinusInfinity else PlusInfinity
  | _, _ => NaN
  end.

(** [a * b] *)
Definition mul (a b : Double) : Double :=
  match a, b with
  | NaN, _ | _, NaN => NaN
  | Finite p, Finite q => fl (p * q)
  | Finite p, PlusInfinity | PlusInfinity, Finite p =>
      match (p ?= 0)%Q with Eq => NaN | Gt => PlusInfinity | Lt => MinusInfinity end
  | Finite p, MinusInfinity | MinusInfinity, Finite p =>
      match (p ?= 0)%Q with Eq => NaN | Gt => MinusInfinity | Lt => PlusInfinity end
  | PlusInfinity, PlusInfinity | MinusInfinity, MinusInfinity => PlusInfinity
  | _, _ => MinusInfinity
  end.

(** [a - b] *)
Definition sub (a b : Double) : Double :=
  match a, b with
  | NaN, _ | _, NaN => NaN
  | Finite p, Finite q => fl (p - q)
  | PlusInfinity, PlusInfinity | MinusInfinity, MinusInfinity => NaN
  | PlusInfinity, _ | _, MinusInfinity => PlusInfinity
  | MinusInfinity, _ | _, PlusInfinity => MinusInfinity
  end.

(** [Math.min(a, b)] *)
Definition Math_min (a b : Double) : Double :=
  match a, b with
  | NaN, _ | _, NaN => NaN
  | MinusInfinity, _ | _, MinusInfinity => MinusInfinity
  | PlusInfinity, c | c, PlusInfinity => c
  | Finite p, Finite q => if Qle_bool p q then Finite p else Finite q
  end.

(** Equality of numbers as values. *)
Definition same (a b : Double) : bool :=
  match a, b with
  | Finite p, Finite q => Qeq_bool p q
  | PlusInfinity, PlusInfinity | MinusInfinity, MinusInfinity | NaN, NaN => true
  | _, _ => false
  end.

(** Half the distance between 1 and the next double, and half the smallest
    positive double. *)
Definition unit_roundoff : Q := 1 # 9007199254740992.      (* 2^-53 *)
Definition underflow : Q := 1 # 2 ^ 1075.

End Doubles.

(** ** types.ts and services/videoService.ts *)

Module VideoService.

Import Doubles.

(** *** types.ts *)

Inductive SlideStatus : Type := pending | ready | error.

(** [interface Slide] *)
Record Slide : Type := mkSlide {
  id : string;
  pageIndex : Z;
  imageBlob : Blob;
  imageUrl : string;
  script : string;
  audioBlob : option Blob;          (* Blob | null *)
  audioUrl : option string;         (* string | null *)
  duration : Q;                     (* in seconds *)
  isProcessing : bool;
  status : SlideStatus
}.

(** *** Browser objects *)

(** A loaded [HTMLImageElement]: its natural size. *)
Record Image : Type := mkImage {
  img_src : string;
  img_width : Z;
  img_height : Z
}.

(** A decoded [AudioBuffer]; its [duration] is [length / sampleRate]. *)
Record AudioBuffer : Type := mkAudioBuffer {
  buf_length : positive;
  buf_sampleRate : positive
}.

Definition buf_duration (b : AudioBuffer) : Q :=
  Z.pos (buf_length b) # buf_sampleRate b.

(** What the canvas shows. *)
Inductive Picture : Type :=
| Blank
| Black
| Drawn (img : Image) (x y w h : Double).   (* after drawImage(img, x, y, w, h)
                                                over black *)

(** A stretch of recorded video: what the canvas showed, and for how long
    (seconds). *)
Record Segment : Type := mkSegment {
  seg_picture : Picture;
  seg_seconds : Q
}.

(** [window.MediaRecorder] *)
Record MediaRecorderClass : Type := mkMediaRecorderClass {
  (* the static method; [None] when the property is undefined *)
  isTypeSupported : option (string -> bool);
  (* whether [new MediaRecorder(stream, { mimeType, .. })] accepts the type *)
  accepts : string -> bool;
  (* the [data] of the [dataavailable] events that [stop()] fires, for a
     recording of the given type *)
  encode : string -> list Segment -> list (option Blob)
}.

(** [window.AudioContext || window.webkitAudioContext] *)
Record AudioContextClass : Type := mkAudioContextClass {
  starts_suspended : bool;      (* [state === 'suspended'] after construction *)
  resume_succeeds : bool        (* whether [resume()] fulfils *)
}.

(** The runtime the function runs in. *)
Record Env : Type := mkEnv {
  canvas_2d : bool;                               (* getContext('2d') is not null *)
  window_MediaRecorder : option MediaRecorderClass;
  window_AudioContext : option AudioContextClass;
  canvas_captureStream : bool;                    (* canvas.captureStream is a function *)
  window_MediaStream : bool;                      (* MediaStream is a constructor *)
  image_at : string -> option Image;              (* [onload] with the image, or [onerror] *)
  image_delay : string -> Q;                      (* seconds until [onload]/[onerror] *)
  decodeAudioData : Blob -> option AudioBuffer;   (* fulfils with the buffer, or rejects *)
  decode_delay : Blob -> Q;                       (* seconds until it settles *)
  frame_delay : Q -> Q                            (* seconds from a requestAnimationFrame
                                                     at the given time to its callback *)
}.

(** *** The state of one run, the event trace and the monad *)

Inductive RecorderState : Type := inactive | recording.

Record State : Type := mkState {
  currentTime : Q;                  (* audioCtx.currentTime *)
  canvas : Picture;
  recorder_state : RecorderState;   (* recorder.state *)
  recorded : list Segment;          (* what the recorder has captured *)
  chunks : list Blob                (* const chunks: Blob[] *)
}.

Definition initial_state : State := mkState 0 Blank inactive [] [].

Inductive Stream : Type := canvasStream | combinedStream.

(** The calls made on the browser, in the order they are made. *)
Inductive Event : Type :=
| getContext (found : bool)
| probe (mime : string) (supported : bool)      (* MediaRecorder.isTypeSupported(mime) *)
| new_AudioContext
| audioCtx_resume
| createMediaStreamDestination
| captureStream (fps : Z)
| new_MediaStream
| new_MediaRecorder (mimeType : string) (videoBitsPerSecond : Z)
| recorder_start
| fillRect (x y w h : Z)                        (* with fillStyle 'black' *)
| onProgress (msg : string)
| image_load (src : string)
| decode (blob : Blob)
| source_start (when : Q) (buffer : AudioBuffer)
| drawImage (img : Image) (x y w h : Double)
| requestAnimationFrame
| setTimeout (ms : Z)
| recorder_stop
| audioCtx_close
| tracks_stop (s : Stream).

(** How a promise ends: fulfilled, rejected, or still pending when the fuel
    of the draw loop ran out. *)
Inductive Outcome (A : Type) : Type :=
| Resolved (a : A)
| Rejected (e : Error)
| Pending.
Arguments Resolved {A} a.
Arguments Rejected {A} e.
Arguments Pending {A}.

Definition M (A : Type) : Type := State -> Outcome A * State * list Event.

Definition ret {A : Type} (a : A) : M A := fun s => (Resolved a, s, []).

Definition bind {A B : Type} (m : M A) (k : A -> M B) : M B :=
  fun s =>
    match m s with
    | (Resolved a, s1, t1) =>
        match k a s1 with
        | (o, s2, t2) => (o, s2, t1 ++ t2)
        end
    | (Rejected e, s1, t1) => (Rejected e, s1, t1)
    | (Pending, s1, t1) => (Pending, s1, t1)
    end.

Notation "x <- c ;; k" := (bind c (fun x => k))
  (at level 61, c at next level, right associativity).
Notation "c ;; k" := (bind c (fun _ => k))
  (at level 61, right associativity).

Definition throw {A : Type} (e : Error) : M A := fun s => (Rejected e, s, []).
Definition never {A : Type} : M A := fun s => (Pending, s, []).
Definition emit (e : Event) : M unit := fun s => (Resolved tt, s, [e]).
Definition get : M State := fun s => (Resolved s, s, []).
Definition put (s : State) : M unit := fun _ => (Resolved tt, s, []).

(** Time passes: the audio clock advances and, while the recorder records,
    the recording grows by what the canvas shows. *)
Definition advance (dt : Q) (s : State) : State :=
  mkState (currentTime s + dt)%Q (canvas s) (recorder_state s)
    (match recorder_state s with
     | recording => recorded s ++ [mkSegment (canvas s) dt]
     | inactive => recorded s
     end)
    (chunks s).

Definition elapse (dt : Q) : M unit :=
  s <- get ;; put (advance dt s).

Definition show (p : Picture) (s : State) : State :=
  mkState (currentTime s) p (recorder_state s) (recorded s) (chunks s).

Definition set_canvas (p : Picture) : M unit :=
  s <- get ;; put (show p s).

Definition set_recorder_state (r : RecorderState) : M unit :=
  s <- get ;;
  put (mkState (currentTime s) (canvas s) r (recorded s) (chunks s)).

(** *** generateVideo *)

Definition WIDTH : Z := 1920.
Definition HEIGHT : Z := 1080.
Definition FPS : Z := 30.
Definition BITRATE : Z := 8000000.

Definition mime_mp4 : string := "video/mp4".
Definition mime_h264 : string := "video/webm; codecs=h264".
Definition mime_vp9 : string := "video/webm; codecs=vp9".

(** [AnyMediaRecorder?.isTypeSupported?.(mime)]: no call is made, and the
    value is undefined (falsy), when the class or the method is missing. *)
Definition isTypeSupported_opt (env : Env) (mime : string) : M bool :=
  match window_MediaRecorder env with
  | None => ret false
  | Some R =>
      match isTypeSupported R with
      | None => ret false
      | Some f => emit (probe mime (f mime)) ;; ret (f mime)
      end
  end.

(** Lines 21-28: MIME type detection. *)
Definition detect_mimeType (env : Env) : M string :=
  mp4 <- isTypeSupported_opt env mime_mp4 ;;
  if mp4 then ret mime_mp4
  else
    h264 <- isTypeSupported_opt env mime_h264 ;;
    if h264 then ret mime_h264 else ret mime_vp9.

(** [ctx.fillStyle = 'black'; ctx.fillRect(0, 0, WIDTH, HEIGHT)] *)
Definition fill_black : M unit :=
  emit (fillRect 0 0 WIDTH HEIGHT) ;; set_canvas Black.

(** [loadImage(src)] *)
Definition loadImage (env : Env) (src : string) : M Image :=
  emit (image_load src) ;;
  elapse (image_delay env src) ;;
  match image_at env src with
  | Some img => ret img
  | None => throw (ImageLoadError src)
  end.

(** [decodeAudio(blob)] *)
Definition decodeAudio (env : Env) (blob : Blob) : M AudioBuffer :=
  emit (decode blob) ;;
  elapse (decode_delay env blob) ;;
  match decodeAudioData env blob with
  | Some buffer => ret buffer
  | None => throw EncodingError
  end.

(** Lines 115-120: aspect ratio fit, in the arithmetic of doubles; the
    result is [(x, y, drawW, drawH)]. *)
Definition placement (img : Image) : Double * Double * Double * Double :=
  let scale := Math_min (div (of_int WIDTH) (of_int (img_width img)))
                        (div (of_int HEIGHT) (of_int (img_height img))) in
  let drawW := mul (of_int (img_width img)) scale in
  let drawH := mul (of_int (img_height img)) scale in
  let x := div (sub (of_int WIDTH) drawW) (of_int 2) in
  let y := div (sub (of_int HEIGHT) drawH) (of_int 2) in
  (x, y, drawW, drawH).

(** Lines 103-126: the draw callback, re-scheduled by
    requestAnimationFrame until the audio clock reaches [endTime]. *)
Fixpoint draw (fuel : nat) (env : Env) (img : Image) (endTime : Q) : M unit :=
  match fuel with
  | O => never
  | S fuel' =>
      s <- get ;;
      let now := currentTime s in
      if Qle_bool endTime now then ret tt
      else
        fill_black ;;
        let '(x, y, drawW, drawH) := placement img in
        emit (drawImage img x y drawW drawH) ;;
        set_canvas (Drawn img x y drawW drawH) ;;
        emit requestAnimationFrame ;;
        elapse (frame_delay env now) ;;
        draw fuel' env img endTime
  end.

(** The text handed to [onProgress] for slide [i] (0-based) of [total]. *)
Definition decimal (n : nat) : string := NilEmpty.string_of_uint (Nat.to_uint n).

Definition progress_prefix : string := "動画生成中... ".

Definition progress_message (i total : nat) : string :=
  (progress_prefix ++ decimal (i + 1) ++ "/" ++ decimal total)%string.

(** Lines 82-128: the loop over the slides, from index [i] on. *)
Fixpoint for_slides (fuel : nat) (env : Env) (total : nat) (i : nat)
    (rest : list Slide) : M unit :=
  match rest with
  | [] => ret tt
  | slide :: rest' =>
      emit (onProgress (progress_message i total)) ;;
      match audioBlob slide with
      | None => for_slides fuel env total (S i) rest'
      | Some blob =>
          img <- loadImage env (imageUrl slide) ;;
          audioBuffer <- decodeAudio env blob ;;
          let duration := buf_duration audioBuffer in
          (* Play audio *)
          s <- get ;;
          emit (source_start (currentTime s) audioBuffer) ;;
          (* Draw loop for the duration of the audio *)
          s <- get ;;
          let startTime := currentTime s in
          let endTime := (startTime + duration)%Q in
          draw fuel env img endTime ;;
          for_slides fuel env total (S i) rest'
      end
  end.

(** [recorder.ondataavailable] *)
Definition ondataavailable (data : option Blob) : M unit :=
  match data with
  | Some d =>
      if 0 <? blob_size d
      then s <- get ;;
           put (mkState (currentTime s) (canvas s) (recorder_state s)
                  (recorded s) (chunks s ++ [d]))
      else ret tt
  | None => ret tt
  end.

Fixpoint dispatch (events : list (option Blob)) : M unit :=
  match events with
  | [] => ret tt
  | data :: rest => ondataavailable data ;; dispatch rest
  end.

(** Lines 134-146: [recorder.stop()], the data it flushes, and [onstop]. *)
Definition stop_recording (R : MediaRecorderClass) (mimeType : string) : M Blob :=
  emit recorder_stop ;;
  s <- get ;;
  set_recorder_state inactive ;;
  dispatch (encode R mimeType (recorded s)) ;;
  s <- get ;;
  let blob := new_Blob (chunks s) mimeType in
  (* Cleanup *)
  emit audioCtx_close ;;
  emit (tracks_stop combinedStream) ;;
  emit (tracks_stop canvasStream) ;;
  ret blob.

(** Lines 9-57: the canvas and its context, the MIME type, the audio
    context, the captured streams and the recorder.  Nothing of this touches
    the clock, the canvas picture or the chunks. *)
Definition setup (env : Env) : M (MediaRecorderClass * string) :=
  emit (getContext (canvas_2d env)) ;;
  if negb (canvas_2d env) then throw (ErrorMsg "No canvas context")
  else
    (* MIME type detection *)
    mimeType <- detect_mimeType env ;;
    (* Audio Context *)
    match window_AudioContext env with
    | None => throw (TypeError "AudioContextClass is not a constructor")
    | Some A =>
        emit new_AudioContext ;;
        (if starts_suspended A
         then emit audioCtx_resume ;;
              if resume_succeeds A then ret tt else throw ResumeError
         else ret tt) ;;
        emit createMediaStreamDestination ;;
        (* Capture stream *)
        if negb (canvas_captureStream env)
        then throw (TypeError "canvas.captureStream is not a function")
        else
          emit (captureStream FPS) ;;
          if negb (window_MediaStream env)
          then throw (TypeError "MediaStream is not a constructor")
          else
            emit new_MediaStream ;;
            match window_MediaRecorder env with
            | None => throw (TypeError "AnyMediaRecorder is not a constructor")
            | Some R =>
                if negb (accepts R mimeType) then throw NotSupportedError
                else
                  emit (new_MediaRecorder mimeType BITRATE) ;;
                  ret (R, mimeType)
            end
    end.

(** Lines 130-146: the small buffer at the end, then the stop. *)
Definition finish (R : MediaRecorderClass) (mimeType : string) : M Blob :=
  (* Small buffer at end *)
  emit (setTimeout 500) ;;
  elapse (500 # 1000) ;;
  (* Stop recording *)
  stop_recording R mimeType.

Definition generateVideo_body (fuel : nat) (env : Env) (slides : list Slide) : M Blob :=
  rm <- setup env ;;
  let '(R, mimeType) := rm in
  (* Start recording *)
  emit recorder_start ;;
  set_recorder_state recording ;;
  (* Draw black initial frame *)
  fill_black ;;
  (* We process slides sequentially in real-time *)
  for_slides fuel env (List.length slides) 0 slides ;;
  finish R mimeType.

(** One invocation: a fresh canvas, a fresh audio context, no chunks. *)
Definition generateVideo (fuel : nat) (env : Env) (slides : list Slide)
  : Outcome Blob * State * list Event :=
  generateVideo_body fuel env slides initial_state.

(** *** Observations on a run *)

(** Total length of a recording, in seconds. *)
Definition video_duration (r : list Segment) : Q :=
  fold_right (fun seg acc => (seg_seconds seg + acc)%Q) 0%Q r.

(** The messages handed to [onProgress], in order. *)
Definition progress_of (t : list Event) : list string :=
  flat_map (fun e => match e with onProgress m => [m] | _ => [] end) t.

(** The audio buffers started on the recording sink, in order. *)
Definition sources_of (t : list Event) : list AudioBuffer :=
  flat_map (fun e => match e with source_start _ b => [b] | _ => [] end) t.

(** The capability probes made, in order. *)
Definition probes_of (t : list Event) : list (string * bool) :=
  flat_map (fun e => match e with probe m r => [(m, r)] | _ => [] end) t.

(** The recorders constructed, with their options. *)
Definition recorders_of (t : list Event) : list (string * Z) :=
  flat_map (fun e => match e with new_MediaRecorder m b => [(m, b)] | _ => [] end) t.

(** The events of the acquisition phase (up to the recorder's construction). *)
Definition acquire_event (e : Event) : bool :=
  match e with
  | getContext _ | probe _ _ | new_AudioContext | audioCtx_resume
  | createMediaStreamDestination | captureStream _ | new_MediaStream
  | new_MediaRecorder _ _ => true
  | _ => false
  end.

(** The events of the loop over the slides. *)
Definition loop_event (e : Event) : bool :=
  match e with
  | onProgress _ | image_load _ | decode _ | source_start _ _
  | fillRect _ _ _ _ | drawImage _ _ _ _ _ | requestAnimationFrame => true
  | _ => false
  end.

(** The release of what a run acquired. *)
Definition release_event (e : Event) : bool :=
  match e with
  | audioCtx_close | tracks_stop _ => true
  | _ => false
  end.

(** What the runtime reports for a type: the answer of
    [MediaRecorder.isTypeSupported], false when it cannot be asked. *)
Definition reports (env : Env) (mime : string) : bool :=
  match window_MediaRecorder env with
  | Some R =>
      match isTypeSupported R with
      | Some f => f mime
      | None => false
      end
  | None => false
  end.

(** The negotiation as the specification words it: MP4 if reported, else
    H.264 in WebM if reported, else VP9 in WebM. *)
Definition negotiated_mimeType (env : Env) : string :=
  if reports env "video/mp4" then "video/mp4"
  else if reports env "video/webm; codecs=h264" then "video/webm; codecs=h264"
  else "video/webm; codecs=vp9".

(** The probes of the negotiation in its priority order: MP4 first, and
    H.264 in WebM only when MP4 is not reported; none when
    [isTypeSupported] cannot be called. *)
Definition priority_probes (env : Env) : list (string * bool) :=
  match window_MediaRecorder env with
  | Some R =>
      match isTypeSupported R with
      | Some f =>
          ("video/mp4", f "video/mp4")
          :: (if f "video/mp4" then []
              else [("video/webm; codecs=h264", f "video/webm; codecs=h264")])
      | None => []
      end
  | None => []
  end.

(** Every primitive of lines 9-57 is there and accepts its arguments. *)
Definition setup_ready (env : Env) : bool :=
  canvas_2d env
  && match window_AudioContext env with
     | Some A => if starts_suspended A then resume_succeeds A else true
     | None => false
     end
  && canvas_captureStream env
  && window_MediaStream env
  && match window_MediaRecorder env with
     | Some R => accepts R (negotiated_mimeType env)
     | None => false
     end.

(** The state when the loop over the slides begins. *)
Definition recording_state : State := mkState 0 Black recording [] [].

(** The decoded audio of a slide, if it has audio and it decodes. *)
Definition decoded (env : Env) (slide : Slide) : list AudioBuffer :=
  match audioBlob slide with
  | Some blob =>
      match decodeAudioData env blob with
      | Some buffer => [buffer]
      | None => []
      end
  | None => []
  end.

(** The sum of the decoded audio durations of the slides that have audio. *)
Definition audio_seconds (env : Env) (slides : list Slide) : Q :=
  fold_right (fun b acc => (buf_duration b + acc)%Q) 0%Q (flat_map (decoded env) slides).

(** The image and the audio of every slide with audio load and decode. *)
Definition loads (env : Env) (slide : Slide) : bool :=
  match audioBlob slide with
  | Some blob =>
      match image_at env (imageUrl slide), decodeAudioData env blob with
      | Some _, Some _ => true
      | _, _ => false
      end
  | None => true
  end.

(** The draw loop's fuel covers every decoded audio when a frame takes at
    least [delta] seconds: [fuel] frames outlast each buffer. *)
Definition enough (fuel : nat) (delta : Q) (env : Env) (slides : list Slide) : Prop :=
  Forall (fun b => (buf_duration b <= inject_Z (Z.of_nat fuel) * delta)%Q)
         (flat_map (decoded env) slides).

(** The number of frames of at least [delta] seconds that outlast [d]
    seconds. *)
Definition frames_for (delta d : Q) : nat := Z.to_nat (Qceiling (d / delta)).

Definition fuel_for (delta : Q) (env : Env) (slides : list Slide) : nat :=
  list_max (map (fun b => frames_for delta (buf_duration b))
                (flat_map (decoded env) slides)).

(** Two slides that differ at most in their [duration] field. *)
Definition same_but_duration (a b : Slide) : Prop :=
  id a = id b /\ pageIndex a = pageIndex b /\ imageBlob a = imageBlob b /\
  imageUrl a = imageUrl b /\ script a = script b /\ audioBlob a = audioBlob b /\
  audioUrl a = audioUrl b /\ isProcessing a = isProcessing b /\ status a = status b.

(** The shape of the loop's trace over [k] slides from index [i]: for each
    slide its progress message first, then the slide's own work, which
    reports no progress. *)
Inductive slide_trace (total : nat) : nat -> nat -> list Event -> Prop :=
| slide_trace_nil (i : nat) : slide_trace total i 0 []
| slide_trace_cons (i k : nat) (work rest : list Event) :
    progress_of work = [] ->
    slide_trace total (S i) k rest ->
    slide_trace total i (S k) (onProgress (progress_message i total) :: work ++ rest).

(** The chunks that [ondataavailable] keeps of the events it is handed. *)
Definition kept (events : list (option Blob)) : list Blob :=
  flat_map (fun data =>
              match data with
              | Some d => if 0 <? blob_size d then [d] else []
              | None => []
              end) events.

(** The state after the finalisation begun in state [s]. *)
Definition finished (R : MediaRecorderClass) (mimeType : string) (s : State) : State :=
  let s1 := advance (500 # 1000) s in
  mkState (currentTime s1) (canvas s1) inactive (recorded s1)
    (chunks s1 ++ kept (encode R mimeType (recorded s1))).

(** The trace of the finalisation of a run that reaches it. *)
Definition finish_trace : list Event :=
  [setTimeout 500; recorder_stop; audioCtx_close;
   tracks_stop combinedStream; tracks_stop canvasStream].

(** The recorder state and the chunks are untouched, and while recording
    the recording grows exactly by the time that passes. *)
Definition keeps (s s' : State) : Prop :=
  recorder_state s' = recorder_state s /\
  chunks s' = chunks s /\
  (recorder_state s = recording ->
   video_duration (recorded s') - currentTime s'
   == video_duration (recorded s) - currentTime s)%Q.

(** A trace of loop events that reports no progress and starts no audio. *)
Definition quiet (t : list Event) : Prop :=
  forallb loop_event t = true /\ progress_of t = [] /\ sources_of t = [].

(** Lines 74-79: the start of the recording and the initial black frame. *)
Definition start_trace : list Event := [recorder_start; fillRect 0 0 WIDTH HEIGHT].

(** One frame of the draw callback (lines 110-124): the black clear, the
    image at its placement, the request for the next frame. *)
Definition paint (img : Image) : list Event :=
  let '(x, y, drawW, drawH) := placement img in
  [fillRect 0 0 WIDTH HEIGHT; drawImage img x y drawW drawH; requestAnimationFrame].

(** [k] frames, one after the other. *)
Definition frames (img : Image) (k : nat) : list Event :=
  List.concat (repeat (paint img) k).

(** [2^-42]: it bounds the rounding of one operation of a placement, on a
    value of magnitude up to 1921. *)
Definition rounding_step : Q := 1 # 4398046511104.

(** The work done for one slide after its progress message (lines 86-127),
    as far as it gets: nothing for a slide without audio; the image load
    alone when it fails; the load and the decoding when the decoding fails;
    else the load, the decoding, the start of the audio and the frames of
    the slide's own image. *)
Inductive slide_work (env : Env) (slide : Slide) : list Event -> Prop :=
| work_skipped :
    audioBlob slide = None ->
    slide_work env slide []
| work_image_failed (blob : Blob) :
    audioBlob slide = Some blob ->
    image_at env (imageUrl slide) = None ->
    slide_work env slide [image_load (imageUrl slide)]
| work_decode_failed (blob : Blob) (img : Image) :
    audioBlob slide = Some blob ->
    image_at env (imageUrl slide) = Some img ->
    decodeAudioData env blob = None ->
    slide_work env slide [image_load (imageUrl slide); decode blob]
| work_played (blob : Blob) (img : Image) (buffer : AudioBuffer) (when : Q) (k : nat) :
    audioBlob slide = Some blob ->
    image_at env (imageUrl slide) = Some img ->
    decodeAudioData env blob = Some buffer ->
    slide_work env slide
      (image_load (imageUrl slide) :: decode blob :: source_start when buffer
       :: frames img k).

(** The trace of the loop over the given slides, from index [i]: slide
    after slide, the progress message of the slide and then its work. *)
Inductive slide_blocks (env : Env) (total : nat) : nat -> list Slide -> list Event -> Prop :=
| blocks_nil (i : nat) : slide_blocks env total i [] []
| blocks_cons (i : nat) (slide : Slide) (rest : list Slide) (work t : list Event) :
    slide_work env slide work ->
    slide_blocks env total (S i) rest t ->
    slide_blocks env total i (slide :: rest)
      (onProgress (progress_message i total) :: work ++ t).

(** [s] is the decimal numeral of [n]: a non-empty string of digits, with no
    leading zero unless it is the one digit 0, that denotes [n]. *)
Definition numeral (s : string) (n : nat) : Prop :=
  exists d, NilZero.uint_of_string s = Some d /\ Decimal.unorm d = d /\ Nat.of_uint d = n.





End VideoService.

(** The binary64 numbers of the kernel, against which the rounding of
    [Doubles] is tested. *)
Module Binary64.

Import Doubles.

(** The value of a float. *)
Definition to_Double (f : PrimFloat.float) : Double :=
  match FloatOps.Prim2SF f with
  | SpecFloat.S754_zero _ => Finite 0
  | SpecFloat.S754_infinity false => PlusInfinity
  | SpecFloat.S754_infinity true => MinusInfinity
  | SpecFloat.S754_nan => NaN
  | SpecFloat.S754_finite s m e =>
      Finite ((if s then -1 else 1) * inject_Z (Z.pos m) * 2 ^ e)%Q
  end.

(** A non-negative integer below [2^63]. *)
Definition of_int (z : Z) : PrimFloat.float := PrimFloat.of_uint63 (Uint63.of_Z z).

Definition Math_min (a b : PrimFloat.float) : PrimFloat.float :=
  if PrimFloat.is_nan a then a
  else if PrimFloat.is_nan b then b
  else if PrimFloat.leb a b then a else b.

(** Lines 115-120 on the floats of the kernel. *)
Definition placement (img : VideoService.Image)
  : Double * Double * Double * Double :=
  let w := of_int (VideoService.img_width img) in
  let h := of_int (VideoService.img_height img) in
  let scale := Math_min (PrimFloat.div (of_int VideoService.WIDTH) w)
                        (PrimFloat.div (of_int VideoService.HEIGHT) h) in
  let drawW := PrimFloat.mul w scale in
  let drawH := PrimFloat.mul h scale in
  let x := PrimFloat.div (PrimFloat.sub (of_int VideoService.WIDTH) drawW) (of_int 2) in
  let y := PrimFloat.div (PrimFloat.sub (of_int VideoService.HEIGHT) drawH) (of_int 2) in
  (to_Double x, to_Double y, to_Double drawW, to_Double drawH).

(** The two computations give the same four numbers. *)
Definition agree (img : VideoService.Image) : bool :=
  let '(x, y, w, h) := VideoService.placement img in
  let '(x', y', w', h') := placement img in
  same x x' && same y y' && same w w' && same h h'.

(** Image sizes to compare on: every size up to 40 x 40, and some screen
    and page sizes. *)
Definition sizes : list (Z * Z) :=
  list_prod (map Z.of_nat (seq 0 41)) (map Z.of_nat (seq 0 41))
  ++ [(1000, 1064); (29, 7); (1920, 1080); (3840, 1080); (800, 600); (1280, 720);
      (1654, 2339); (2480, 3508); (595, 842); (1, 4294967295); (4294967295, 1);
      (4294967295, 4294967295); (1366, 768); (2560, 1440); (1080, 1920)].

End Binary64.

(** ** Sample runtimes and slide decks *)

Module Samples.
Import VideoService.

(** A recorder that supports H.264 in WebM only and emits one byte per
    recorded segment, followed by an event without data and an empty one. *)
Definition recorder_h264 : MediaRecorderClass :=
  mkMediaRecorderClass
    (Some (fun m => String.eqb m "video/webm; codecs=h264"))
    (fun _ => true)
    (fun m segs => [Some (mkBlob (map (fun _ => 1) segs) m); None; Some (mkBlob [] m)]).

(** A full runtime: every image is 800x600 except the one at "bad", which
    fails to load; every audio blob decodes to two seconds. *)
Definition browser : Env :=
  mkEnv true (Some recorder_h264) (Some (mkAudioContextClass true true)) true true
    (fun src => if String.eqb src "bad" then None else Some (mkImage src 800 600))
    (fun _ => 1 # 10)
    (fun _ => Some (mkAudioBuffer 48000 24000))
    (fun _ => 1 # 20)
    (fun _ => 1 # 2).


Definition slide_of (url : string) (audio : option Blob) (seconds : Q) : Slide :=
  mkSlide "slide" 0 (mkBlob [] "image/png") url "narration" audio None seconds false ready.

Definition wav : Blob := mkBlob [1] "audio/wav".

Definition deck : list Slide :=
  [slide_of "a" None 0; slide_of "b" (Some wav) 2].

Definition deck_other_durations : list Slide :=
  [slide_of "a" None 7; slide_of "b" (Some wav) (1 # 3)].

Definition deck_bad_image : list Slide :=
  [slide_of "a" (Some wav) 2; slide_of "bad" (Some wav) 2; slide_of "c" (Some wav) 2].

End Samples.

(** ** More observations on a run of the compositor *)

Module Timeline.
Import VideoService.



(** The bytes of all the data the recorder hands to [ondataavailable]. *)
Definition delivered (events : list (option Blob)) : list Z :=
  flat_map (fun data => match data with Some d => blob_bytes d | None => [] end) events.

(** The first slide that does not load, its position, and the error its
    failure raises: the image is loaded before the audio is decoded. *)
Fixpoint first_failure (env : Env) (i : nat) (slides : list Slide)
  : option (nat * Error) :=
  match slides with
  | [] => None
  | slide :: rest =>
      match audioBlob slide with
      | None => first_failure env (S i) rest
      | Some blob =>
          match image_at env (imageUrl slide) with
          | None => Some (i, ImageLoadError (imageUrl slide))
          | Some _ =>
              match decodeAudioData env blob with
              | None => Some (i, EncodingError)
              | Some _ => first_failure env (S i) rest
              end
          end
      end
  end.

End Timeline.

(** ** services/geminiService.ts: generateSpeech *)

Module GeminiService.
Import AudioUtils.

(** Lines 165-171 of [generateSpeech].  [data] is
    [response.candidates?.[0]?.content?.parts?.[0]?.inlineData?.data]:
    [None] when any link of the chain is undefined.  An undefined or empty
    string is falsy and throws; otherwise the data goes to [pcmToWav] with
    the default sample rate. *)
Definition generateSpeech_result (atob : string -> option string)
    (data : option string) : Result Blob :=
  match data with
  | None => Throw (ErrorMsg "No audio data returned")
  | Some base64Audio =>
      if String.eqb base64Audio EmptyString
      then Throw (ErrorMsg "No audio data returned")
      else pcmToWav atob base64Audio default_sampleRate
  end.

End GeminiService.

(** ** App.tsx: the slide list and the call of the compositor *)

Module App.
Import VideoService.

Definition status_eqb (a b : SlideStatus) : bool :=
  match a, b with
  | pending, pending | ready, ready | error, error => true
  | _, _ => false
  end.

(** [{ ...s, pageIndex: i }] *)
Definition set_pageIndex (i : Z) (s : Slide) : Slide :=
  mkSlide (id s) i (imageBlob s) (imageUrl s) (script s) (audioBlob s)
    (audioUrl s) (duration s) (isProcessing s) (status s).

(** [array.map((a, i) => f(a, i))], the index counted from [i]. *)
Fixpoint mapi_from {A B : Type} (f : A -> nat -> B) (i : nat) (l : list A) : list B :=
  match l with
  | [] => []
  | a :: rest => f a i :: mapi_from f (S i) rest
  end.

(** Lines 30-32. *)
Definition reindexSlides (currentSlides : list Slide) : list Slide :=
  mapi_from (fun s i => set_pageIndex (Z.of_nat i) s) 0 currentSlides.

(** [array.findIndex(p)]; [None] is the -1 of JavaScript. *)
Fixpoint findIndex {A : Type} (p : A -> bool) (l : list A) : option nat :=
  match l with
  | [] => None
  | a :: rest => if p a then Some 0%nat else option_map S (findIndex p rest)
  end.

Definition has_id (id0 : string) (s : Slide) : bool := String.eqb (id s) id0.

(** Lines 161-171, the updater of [handleDeleteSlide]: the object URLs it
    revokes, and the new slide list. *)
Definition handleDeleteSlide (id0 : string) (prev : list Slide)
  : list string * list Slide :=
  let revoked :=
    match find (has_id id0) prev with
    | Some slideToDelete =>
        imageUrl slideToDelete
        :: match audioUrl slideToDelete with
           | Some url => if String.eqb url EmptyString then [] else [url]
           | None => []
           end
    | None => []
    end in
  let filtered := filter (fun s => negb (has_id id0 s)) prev in
  (revoked, mapi_from (fun s i => set_pageIndex (Z.of_nat i) s) 0 filtered).

(** [l[i] = x] for an index within the array.  (An index beyond the end
    would grow a JavaScript array; the list is then left as it is.  The one
    caller below only writes within the array.) *)
Fixpoint set_nth {A : Type} (i : nat) (x : A) (l : list A) : list A :=
  match l, i with
  | [], _ => []
  | _ :: rest, O => x :: rest
  | a :: rest, S i' => a :: set_nth i' x rest
  end.

(** [[l[i], l[j]] = [l[j], l[i]]] *)
Definition swap {A : Type} (i j : nat) (l : list A) : list A :=
  match nth_error l i, nth_error l j with
  | Some a, Some b => set_nth j a (set_nth i b l)
  | _, _ => l
  end.

Inductive Direction : Type := up | down.

(** Lines 174-187, the updater of [handleMoveSlide].  [index - 1] is taken
    only when [index] is not 0, and [prev.length - 1] only when the id was
    found, so the subtractions on [nat] are exact. *)
Definition handleMoveSlide (id0 : string) (direction : Direction) (prev : list Slide)
  : list Slide :=
  match findIndex (has_id id0) prev with
  | None => prev
  | Some index =>
      match direction with
      | up =>
          if (index =? 0)%nat then prev
          else reindexSlides (swap index (index - 1) prev)
      | down =>
          if (index =? List.length prev - 1)%nat then prev
          else reindexSlides (swap index (index + 1) prev)
      end
  end.

(** [array.splice(index, 0, x)] on a copy: a negative index counts from the
    end, and the start is clamped to the array. *)
Definition splice_insert {A : Type} (index : Z) (x : A) (l : list A) : list A :=
  let len := Z.of_nat (List.length l) in
  let start := if index <? 0 then Z.max (len + index) 0 else Z.min index len in
  firstn (Z.to_nat start) l ++ x :: skipn (Z.to_nat start) l.

(** Lines 191-202: the slide made for an inserted image. *)
Definition inserted_slide (newId : string) (index : Z) (blob : Blob) (url : string) : Slide :=
  mkSlide newId index blob url EmptyString None None 0 false pending.

(** Lines 204-208, the updater of [handleInsertSlide]. *)
Definition handleInsertSlide (index : Z) (newSlide : Slide) (prev : list Slide)
  : list Slide :=
  reindexSlides (splice_insert index newSlide prev).

(** Lines 55-66: the slides made of the images of an uploaded PDF;
    [generateId] and [createObjectURL] are the runtime's. *)
Definition uploaded_slides (generateId : nat -> string) (createObjectURL : Blob -> string)
    (images : list Blob) : list Slide :=
  mapi_from (fun blob index =>
               mkSlide (generateId index) (Z.of_nat index) blob (createObjectURL blob)
                 EmptyString None None 0 false pending) 0%nat images.

(** Line 158, the updater of [handleUpdateScript]. *)
Definition handleUpdateScript (id0 newScript : string) (prev : list Slide) : list Slide :=
  map (fun s =>
         if has_id id0 s
         then mkSlide (id s) (pageIndex s) (imageBlob s) (imageUrl s) newScript
                (audioBlob s) (audioUrl s) (duration s) (isProcessing s) pending
         else s) prev.

(** Lines 121, 215, 229, 257: the slide is marked as being processed. *)
Definition mark_processing (id0 : string) (prev : list Slide) : list Slide :=
  map (fun s =>
         if has_id id0 s
         then mkSlide (id s) (pageIndex s) (imageBlob s) (imageUrl s) (script s)
                (audioBlob s) (audioUrl s) (duration s) true (status s)
         else s) prev.

(** Lines 128-141 and 233-246: the audio of a slide arrived. *)
Definition audio_ready (id0 : string) (blob : Blob) (url : string) (seconds : Q)
    (prev : list Slide) : list Slide :=
  map (fun s =>
         if has_id id0 s
         then mkSlide (id s) (pageIndex s) (imageBlob s) (imageUrl s) (script s)
                (Some blob) (Some url) seconds false ready
         else s) prev.

(** Line 144: the audio of a slide failed. *)
Definition audio_failed (id0 : string) (prev : list Slide) : list Slide :=
  map (fun s =>
         if has_id id0 s
         then mkSlide (id s) (pageIndex s) (imageBlob s) (imageUrl s) (script s)
                (audioBlob s) (audioUrl s) (duration s) false error
         else s) prev.

(** Line 88, the updater of the batch script generation: the scripts are
    taken by position; where there is none, or an empty one, the slide keeps
    its own. *)
Definition scripts_generated (scripts : list string) (prev : list Slide) : list Slide :=
  mapi_from (fun slide i =>
               mkSlide (id slide) (pageIndex slide) (imageBlob slide) (imageUrl slide)
                 (match nth_error scripts i with
                  | Some sc => if String.eqb sc EmptyString then script slide else sc
                  | None => script slide
                  end)
                 (audioBlob slide) (audioUrl slide) (duration slide)
                 (isProcessing slide) (status slide)) 0%nat prev.

(** Line 219: the regenerated script of a slide arrived. *)
Definition script_regenerated (id0 newScript : string) (prev : list Slide) : list Slide :=
  map (fun s =>
         if has_id id0 s
         then mkSlide (id s) (pageIndex s) (imageBlob s) (imageUrl s) newScript
                (audioBlob s) (audioUrl s) (duration s) false pending
         else s) prev.

(** Lines 222, 249, 280: a regeneration failed; the slide is no longer
    marked as being processed. *)
Definition processing_stopped (id0 : string) (prev : list Slide) : list Slide :=
  map (fun s =>
         if has_id id0 s
         then mkSlide (id s) (pageIndex s) (imageBlob s) (imageUrl s) (script s)
                (audioBlob s) (audioUrl s) (duration s) false (status s)
         else s) prev.

(** Lines 263-277: the regenerated script and audio of a slide arrived. *)
Definition both_regenerated (id0 newScript : string) (blob : Blob) (url : string)
    (seconds : Q) (prev : list Slide) : list Slide :=
  map (fun s =>
         if has_id id0 s
         then mkSlide (id s) (pageIndex s) (imageBlob s) (imageUrl s) newScript
                (Some blob) (Some url) seconds false ready
         else s) prev.

(** Lines 285-293 of [handleGenerateVideo]: the gate on the slides that are
    not ready and the call of the compositor; [None] when the handler
    returns after the alert.  What follows the call (the object URL, the
    metadata, the status) is not modelled. *)
Definition handleGenerateVideo (fuel : nat) (env : Env) (slides : list Slide)
  : option (Outcome Blob * State * list Event) :=
  let pendingSlides := filter (fun s => negb (status_eqb (status s) ready)) slides in
  if (0 <? List.length pendingSlides)%nat then None
  else Some (generateVideo fuel env slides).

(** Every slide's [pageIndex] is its position in the list. *)
Definition indexed (l : list Slide) : Prop :=
  forall i s, nth_error l i = Some s -> pageIndex s = Z.of_nat i.

(** A slide marked ready has its audio. *)
Definition ready_has_audio (l : list Slide) : Prop :=
  Forall (fun s => status s = ready -> audioBlob s <> None) l.

(** The same slide but for its [pageIndex]. *)
Definition same_but_pageIndex (a b : Slide) : Prop :=
  set_pageIndex 0 a = set_pageIndex 0 b.

End App.

(** ** More sample runtimes and decks *)

Module MoreSamples.
Import VideoService.

(** The sample runtime with an audio clock that never advances. *)
Definition browser_stuck : Env :=
  mkEnv true (Some Samples.recorder_h264) (Some (mkAudioContextClass true true)) true true
    (image_at Samples.browser) (image_delay Samples.browser)
    (decodeAudioData Samples.browser) (decode_delay Samples.browser)
    (fun _ => 0%Q).

(** Two slides numbered by position, neither with audio yet. *)
Definition two_pending : list Slide :=
  [mkSlide "slide-a" 0 Samples.wav "a" "one" None None 0 false pending;
   mkSlide "slide-b" 1 Samples.wav "b" "two" None None 0 false pending].

(** Three slides numbered by position; the second has its narration. *)
Definition narrated_deck : list Slide :=
  [mkSlide "slide-a" 0 Samples.wav "a" "one" None None 0 false pending;
   mkSlide "slide-b" 1 Samples.wav "b" "two" (Some Samples.wav) (Some "blob:b") 2 false ready;
   mkSlide "slide-c" 2 Samples.wav "c" "three" None (Some EmptyString) 0 false error].

End MoreSamples.

(** * Proofs *)

(** ** The WAV wrapper *)

Section WavProofs.
Import AudioUtils.

Lemma byte_of_le32 (v : Z) :
  0 <= v < 2 ^ 32 ->
  byte_of 0 v + 256 * byte_of 1 v + 65536 * byte_of 2 v + 16777216 * byte_of 3 v = v.
Proof.
  intros Hv. unfold byte_of.
  change (256 ^ 0) with 1; change (256 ^ 1) with 256;
    change (256 ^ 2) with 65536; change (256 ^ 3) with 16777216.
  change (2 ^ 32) with 4294967296 in Hv.
  Z.to_euclidean_division_equations. lia.
Qed.

Lemma ToUint32_range (v : Z) : 0 <= ToUint32 v < 2 ^ 32.
Proof. unfold ToUint32. apply Z.mod_pos_bound. reflexivity. Qed.

Lemma ToUint32_small (v : Z) : 0 <= v < 2 ^ 32 -> ToUint32 v = v.
Proof. intros H. unfold ToUint32. apply Z.mod_small. exact H. Qed.

Lemma createWavHeader_layout (n sr : Z) :
  createWavHeader n sr = Ok (wav_header n sr).
Proof.
  assert (Hbr : sr * 2 = sr * 1 * 16 / 8).
  { replace (sr * 1 * 16) with (sr * 2 * 8) by lia. symmetry. apply Z.div_mul. discriminate. }
  unfold wav_header. rewrite Hbr. reflexivity.
Qed.

Ltac field32 := unfold read_u32, wav_header; cbn [nth Nat.add app];
                apply byte_of_le32, ToUint32_range.

Lemma wav_header_fields (n sr : Z) (rest : list Z) :
  let h := wav_header n sr ++ rest in
  read_tag h 0 = [82; 73; 70; 70] /\
  read_u32 h 4 = ToUint32 (36 + n) /\
  read_tag h 8 = [87; 65; 86; 69] /\
  read_tag h 12 = [102; 109; 116; 32] /\
  read_u32 h 16 = 16 /\
  read_u16 h 20 = 1 /\
  read_u16 h 22 = 1 /\
  read_u32 h 24 = ToUint32 sr /\
  read_u32 h 28 = ToUint32 (sr * 2) /\
  read_u16 h 32 = 2 /\
  read_u16 h 34 = 16 /\
  read_tag h 36 = [100; 97; 116; 97] /\
  read_u32 h 40 = ToUint32 n.
Proof.
  cbv zeta.
  split; [reflexivity|]. split; [field32|]. split; [reflexivity|].
  split; [reflexivity|]. split; [reflexivity|]. split; [reflexivity|].
  split; [reflexivity|]. split; [field32|]. split; [field32|].
  split; [reflexivity|]. split; [reflexivity|]. split; [reflexivity|].
  field32.
Qed.

Lemma write_bytes_at_0 (src : list Z) (k : nat) :
  write_bytes (new_Uint8Array (List.length src + k)) 0 src = Ok (src ++ repeat 0 k).
Proof.
  unfold write_bytes, new_Uint8Array. rewrite repeat_length.
  replace (0 + List.length src <=? List.length src + k)%nat with true
    by (symmetry; apply Nat.leb_le; lia).
  cbn [firstn Nat.add app]. f_equal. f_equal.
  rewrite repeat_app, skipn_app, repeat_length, Nat.sub_diag.
  rewrite skipn_all2 by (rewrite repeat_length; lia). reflexivity.
Qed.

Lemma write_bytes_tail (pre src : list Z) :
  write_bytes (pre ++ repeat 0 (List.length src)) (List.length pre) src = Ok (pre ++ src).
Proof.
  unfold write_bytes. rewrite length_app, repeat_length, Nat.leb_refl.
  f_equal. rewrite firstn_app, Nat.sub_diag, firstn_all. cbn [firstn].
  rewrite app_nil_r. f_equal.
  rewrite skipn_all2 by (rewrite length_app, repeat_length; lia).
  apply app_nil_r.
Qed.

Lemma length_charCodes (s : string) :
  List.length (charCodes s) = String.length s.
Proof.
  unfold charCodes. rewrite length_map.
  induction s as [|c s IH]; cbn [list_ascii_of_string List.length String.length];
    [reflexivity | now rewrite IH].
Qed.

Lemma pcmToWav_bytes (atob : string -> option string) (base64Pcm bin : string) (sr : Z) :
  atob base64Pcm = Some bin ->
  pcmToWav atob base64Pcm sr
  = Ok (mkBlob (wav_header (Z.of_nat (String.length bin)) sr
                ++ map ToUint8 (charCodes bin)) "audio/wav").
Proof.
  intros Hatob.
  unfold pcmToWav. rewrite Hatob.
  assert (Hn : List.length (map ToUint8 (charCodes bin)) = String.length bin).
  { rewrite length_map. apply length_charCodes. }
  rewrite Hn, createWavHeader_layout. cbn [bind].
  rewrite <- Hn. rewrite write_bytes_at_0. cbn [bind].
  rewrite write_bytes_tail. cbn [bind].
  unfold new_Blob. cbn [map List.concat blob_bytes]. rewrite app_nil_r. reflexivity.
Qed.

(** Counterexample to C10 as stated ("for every sample rate"): for the empty
    PCM input and the sample rate 2^31 the call returns a blob whose ByteRate
    field holds 0, since [sampleRate * 2 = 2^32] does not fit the 32-bit
    field; the blob does not meet [wav_blob_spec]. *)
Lemma C10_byteRate_counterexample :
  exists blob,
    pcmToWav (fun _ => Some EmptyString) EmptyString 2147483648 = Ok blob /\
    read_u32 (blob_bytes blob) 28 = 0 /\
    ~ wav_blob_spec blob 0 2147483648.
Proof.
  eexists. split; [vm_compute; reflexivity|]. split; [reflexivity|].
  intros (_ & _ & _ & _ & _ & _ & _ & H & _). vm_compute in H. discriminate.
Qed.

(** C10 (amended): for every base64 input that [atob] decodes to [n] bytes
    with [n <= 2^32 - 37], and every integer sample rate with
    [0 <= sampleRate < 2^31], [pcmToWav] returns a blob of type 'audio/wav' of
    exactly [44 + n] bytes whose ChunkSize field is [36 + n], whose
    Subchunk2Size field is [n], and whose format fields declare PCM, mono,
    16 bits per sample, [ByteRate = sampleRate * 2] and [BlockAlign = 2]; the
    SampleRate field is [sampleRate], the four tags are RIFF, WAVE, fmt and
    data, and the decoded bytes follow the header. *)
Theorem C10_pcmToWav_header (atob : string -> option string)
    (base64Pcm binaryString : string) (sampleRate : Z) :
  atob base64Pcm = Some binaryString ->
  let n := Z.of_nat (String.length binaryString) in
  0 <= sampleRate < 2 ^ 31 ->
  n <= 2 ^ 32 - 37 ->
  exists blob,
    pcmToWav atob base64Pcm sampleRate = Ok blob /\
    wav_blob_spec blob n sampleRate /\
    read_u32 (blob_bytes blob) 24 = sampleRate /\
    read_tag (blob_bytes blob) 0 = charCodes "RIFF" /\
    read_tag (blob_bytes blob) 8 = charCodes "WAVE" /\
    read_tag (blob_bytes blob) 12 = charCodes "fmt " /\
    read_tag (blob_bytes blob) 36 = charCodes "data" /\
    read_u32 (blob_bytes blob) 16 = 16 /\
    skipn 44 (blob_bytes blob) = map ToUint8 (charCodes binaryString).
Proof.
  intros Hatob n Hsr Hn.
  exists (mkBlob (wav_header n sampleRate ++ map ToUint8 (charCodes binaryString)) "audio/wav").
  split; [apply pcmToWav_bytes, Hatob|].
  destruct (wav_header_fields n sampleRate (map ToUint8 (charCodes binaryString)))
    as (Hriff & Hsize & Hwave & Hfmt & H16 & Hpcm & Hmono & Hrate & Hbyte & Halign
        & Hbits & Hdata & Hlen).
  cbn [blob_bytes blob_type].
  assert (Hn0 : 0 <= n) by apply Nat2Z.is_nonneg.
  rewrite ToUint32_small in Hsize by (change (2 ^ 32) with 4294967296 in *; lia).
  rewrite ToUint32_small in Hlen by (change (2 ^ 32) with 4294967296 in *; lia).
  rewrite ToUint32_small in Hrate
    by (change (2 ^ 31) with 2147483648 in *; change (2 ^ 32) with 4294967296; lia).
  rewrite ToUint32_small in Hbyte
    by (change (2 ^ 31) with 2147483648 in *; change (2 ^ 32) with 4294967296; lia).
  split.
  { unfold wav_blob_spec. cbn [blob_bytes blob_type].
    split; [reflexivity|]. split.
    { unfold blob_size. cbn [blob_bytes].
      rewrite length_app, length_map, length_charCodes. unfold n.
      change (List.length (wav_header (Z.of_nat (String.length binaryString)) sampleRate))
        with 44%nat. lia. }
    repeat split; assumption. }
  split; [exact Hrate|]. split; [exact Hriff|]. split; [exact Hwave|].
  split; [exact Hfmt|]. split; [exact Hdata|]. split; [exact H16|].
  reflexivity.
Qed.

Lemma C10_pcmToWav_header_witness :
  exists blob,
    pcmToWav (fun _ => Some "abcd") "YWJjZA==" 24000 = Ok blob /\
    wav_blob_spec blob 4 24000.
Proof.
  destruct (C10_pcmToWav_header (fun _ => Some "abcd") "YWJjZA==" "abcd" 24000 eq_refl)
    as (blob & Hrun & Hspec & _).
  - split; [discriminate | reflexivity].
  - discriminate.
  - exists blob. split; [exact Hrun | exact Hspec].
Defined.

End WavProofs.

(** ** The rounding of doubles *)

Section RoundingProofs.

Import Doubles VideoService.
Local Open Scope Q_scope.

Lemma round_half_even_near (y : Q) :
  inject_Z (round_half_even y) - y <= 1 # 2 /\ y - inject_Z (round_half_even y) <= 1 # 2.
Proof.
  unfold round_half_even.
  pose proof (Qfloor_le y) as Hlo. pose proof (Qlt_floor y) as Hhi.
  rewrite inject_Z_plus in Hhi. change (inject_Z 1) with 1 in Hhi.
  destruct (Qcompare_spec (y - inject_Z (Qfloor y)) (1 # 2)) as [He | Hl | Hg].
  - destruct (Z.even (Qfloor y)).
    + split; lra.
    + rewrite inject_Z_plus. change (inject_Z 1) with 1. split; lra.
  - split; lra.
  - rewrite inject_Z_plus. change (inject_Z 1) with 1. split; lra.
Qed.

Lemma round_half_even_nonneg (y : Q) : 0 <= y -> (0 <= round_half_even y)%Z.
Proof.
  intros Hy. unfold round_half_even.
  assert (0 <= Qfloor y)%Z as Hf.
  { change 0%Z with (Qfloor 0). apply Qfloor_resp_le. exact Hy. }
  destruct (y - inject_Z (Qfloor y) ?= 1 # 2); [destruct (Z.even _) | | ]; lia.
Qed.

Lemma two_power_pos (k : Z) : 0 < 2 ^ k.
Proof. apply Qpower_0_lt. reflexivity. Qed.

Lemma two_power_succ (k : Z) : 2 ^ (k + 1) == 2 * 2 ^ k.
Proof. rewrite Qpower_plus by discriminate. change (2 ^ 1) with 2. ring. Qed.

Lemma two_power_sub (a b : Z) : 2 ^ (a - b) == 2 ^ a / 2 ^ b.
Proof. apply Qpower_minus. discriminate. Qed.

(** [2 ^ log2 n <= n] in Q *)
Lemma log2_lower (n : Z) : (0 < n)%Z -> 2 ^ Z.log2 n <= inject_Z n.
Proof.
  intros Hn. destruct (Z.log2_spec n Hn) as [Hlo _].
  rewrite <- (Zpower_Qpower 2) by apply Z.log2_nonneg.
  rewrite <- Zle_Qle. exact Hlo.
Qed.

Lemma log2_upper (n : Z) : (0 < n)%Z -> inject_Z n < 2 ^ (Z.log2 n + 1).
Proof.
  intros Hn. destruct (Z.log2_spec n Hn) as [_ Hhi].
  rewrite <- (Zpower_Qpower 2) by (pose proof (Z.log2_nonneg n); lia).
  rewrite <- Zlt_Qlt. replace (Z.log2 n + 1)%Z with (Z.succ (Z.log2 n)) by lia. exact Hhi.
Qed.

Lemma Qabs_num_den (x : Q) : Qabs x == inject_Z (Z.abs (Qnum x)) / inject_Z (Z.pos (Qden x)).
Proof.
  destruct x as [n d]. unfold Qabs. cbn [Qnum Qden].
  rewrite Qmake_Qdiv. reflexivity.
Qed.

(** The significand has at least 53 bits: [2 ^ (ulp_exponent x + 52) <= |x|]. *)
Lemma ulp_exponent_lower (x : Q) : ~ x == 0 -> 2 ^ (ulp_exponent x + 52) <= Qabs x.
Proof.
  intros Hx. unfold ulp_exponent.
  set (n := Z.abs (Qnum x)). set (d := Z.pos (Qden x)).
  set (e := (Z.log2 n - Z.log2 d)%Z).
  destruct (Qle_bool (2 ^ e) (Qabs x)) eqn:Hc.
  - apply Qle_bool_iff in Hc. replace (e - 52 + 52)%Z with e by lia. exact Hc.
  - replace (e - 53 + 52)%Z with (Z.log2 n - (Z.log2 d + 1))%Z by (unfold e; lia).
    assert (0 < n)%Z as Hn.
    { unfold n. destruct x as [xn xd]. cbn [Qnum].
      assert (xn <> 0)%Z; [ | lia ].
      intros ->. apply Hx. reflexivity. }
    assert (0 < d)%Z as Hd by (unfold d; lia).
    pose proof (log2_lower n Hn) as Hlo. pose proof (log2_upper d Hd) as Hhi.
    rewrite two_power_sub. rewrite Qabs_num_den. fold n d.
    pose proof (two_power_pos (Z.log2 n)) as P1.
    pose proof (two_power_pos (Z.log2 d + 1)) as P2.
    assert (0 < inject_Z d) as Hd' by (change 0 with (inject_Z 0); rewrite <- Zlt_Qlt; exact Hd).
    apply Qle_shift_div_l; [ exact Hd' | ].
    apply Qle_trans with (2 ^ Z.log2 n / 2 ^ (Z.log2 d + 1) * 2 ^ (Z.log2 d + 1)).
    + apply Qmult_le_l.
      * apply Qlt_shift_div_l; [ exact P2 | lra ].
      * lra.
    + field_simplify; [ lra | lra ].
Qed.

Lemma round_to_double_error (x : Q) :
  Qabs (round_to_double x - x) <= unit_roundoff * Qabs x + underflow.
Proof.
  unfold round_to_double.
  destruct (Qeq_bool x 0) eqn:Hz.
  - apply Qeq_bool_iff in Hz. rewrite Hz. vm_compute. discriminate.
  - assert (~ x == 0) as Hx.
    { intros H. apply Qeq_bool_iff in H. congruence. }
    set (k := Z.max (ulp_exponent x) (-1074)).
    pose proof (two_power_pos k) as Pk.
    set (y := x / 2 ^ k).
    assert (x == y * 2 ^ k) as Hy by (unfold y; field; lra).
    assert (inject_Z (round_half_even y) * 2 ^ k - x
            == (inject_Z (round_half_even y) - y) * 2 ^ k) as E by (rewrite Hy at 1; ring).
    rewrite E, Qabs_Qmult, (Qabs_pos (2 ^ k)) by lra.
    assert (Qabs (inject_Z (round_half_even y) - y) <= 1 # 2) as Hn.
    { apply Qabs_Qle_condition. destruct (round_half_even_near y). split; lra. }
    apply Qle_trans with ((1 # 2) * 2 ^ k).
    { apply Qmult_le_compat_r; [ exact Hn | lra ]. }
    pose proof (Qabs_nonneg x) as Hax.
    destruct (Z.max_spec (ulp_exponent x) (-1074)) as [[_ Hk] | [_ Hk]]; fold k in Hk; rewrite Hk.
    + assert ((1 # 2) * 2 ^ (-1074) == underflow) as -> by (vm_compute; reflexivity).
      assert (0 <= unit_roundoff * Qabs x); [ | lra ].
      apply Qmult_le_0_compat; [ discriminate | exact Hax ].
    + pose proof (ulp_exponent_lower x Hx) as Hlo.
      rewrite Qpower_plus in Hlo by discriminate.
      assert (2 ^ 52 == 4503599627370496) as E52 by (vm_compute; reflexivity).
      rewrite E52 in Hlo.
      assert (0 <= underflow) by discriminate.
      unfold unit_roundoff.
      generalize dependent (2 ^ ulp_exponent x). generalize dependent (Qabs x).
      intros a Ha p Hp. generalize dependent underflow. intros uf Huf. lra.
Qed.

Lemma round_to_double_nonneg (x : Q) : 0 <= x -> 0 <= round_to_double x.
Proof.
  intros Hx. unfold round_to_double.
  destruct (Qeq_bool x 0); [ lra | ].
  set (k := Z.max (ulp_exponent x) (-1074)).
  pose proof (two_power_pos k) as Pk.
  apply Qmult_le_0_compat; [ | lra ].
  change 0 with (inject_Z 0). rewrite <- Zle_Qle.
  apply round_half_even_nonneg.
  apply Qle_shift_div_l; [ exact Pk | lra ].
Qed.

Lemma round_half_even_comp (x y : Q) : x == y -> round_half_even x = round_half_even y.
Proof.
  intros E. unfold round_half_even. rewrite (Qfloor_comp _ _ E).
  assert (x - inject_Z (Qfloor y) == y - inject_Z (Qfloor y)) as E' by (rewrite E; reflexivity).
  rewrite (Qcompare_comp _ _ E' _ _ (Qeq_refl (1 # 2))). reflexivity.
Qed.

Lemma round_half_even_Z (m : Z) : round_half_even (inject_Z m) = m.
Proof.
  unfold round_half_even. rewrite Qfloor_Z.
  assert (inject_Z m - inject_Z m < 1 # 2) as H by lra.
  rewrite Qlt_alt in H. rewrite H. reflexivity.
Qed.

Lemma ulp_exponent_upper (x : Q) : ~ x == 0 -> Qabs x < 2 ^ (ulp_exponent x + 53).
Proof.
  intros Hx. unfold ulp_exponent.
  set (n := Z.abs (Qnum x)). set (d := Z.pos (Qden x)).
  set (e := (Z.log2 n - Z.log2 d)%Z).
  destruct (Qle_bool (2 ^ e) (Qabs x)) eqn:Hc.
  - replace (e - 52 + 53)%Z with (Z.log2 n + 1 - Z.log2 d)%Z by (unfold e; lia).
    assert (0 < n)%Z as Hn.
    { unfold n. destruct x as [xn xd]. cbn [Qnum].
      assert (xn <> 0)%Z; [ | lia ].
      intros ->. apply Hx. reflexivity. }
    assert (0 < d)%Z as Hd by (unfold d; lia).
    pose proof (log2_upper n Hn) as Hhi. pose proof (log2_lower d Hd) as Hlo.
    rewrite two_power_sub. rewrite Qabs_num_den. fold n d.
    pose proof (two_power_pos (Z.log2 n + 1)) as P1.
    pose proof (two_power_pos (Z.log2 d)) as P2.
    assert (0 < inject_Z d) as Hd' by (change 0 with (inject_Z 0); rewrite <- Zlt_Qlt; exact Hd).
    apply Qlt_shift_div_r; [ exact Hd' | ].
    apply Qlt_le_trans with (2 ^ (Z.log2 n + 1)); [ exact Hhi | ].
    apply Qle_trans with (2 ^ (Z.log2 n + 1) / 2 ^ Z.log2 d * 2 ^ Z.log2 d).
    + field_simplify; [ lra | lra ].
    + apply Qmult_le_l; [ | exact Hlo ].
      apply Qlt_shift_div_l; [ exact P2 | lra ].
  - replace (e - 53 + 53)%Z with e by lia.
    destruct (Qlt_le_dec (Qabs x) (2 ^ e)) as [Hlt | Hle]; [ exact Hlt | ].
    apply Qle_bool_iff in Hle. congruence.
Qed.

(** The exponent of the last place depends on the value only, not on the
    fraction that denotes it. *)
Lemma ulp_exponent_comp (x y : Q) : x == y -> ~ x == 0 -> ulp_exponent x = ulp_exponent y.
Proof.
  intros E Hx.
  assert (~ y == 0) as Hy by (rewrite <- E; exact Hx).
  pose proof (ulp_exponent_lower x Hx) as Lx. pose proof (ulp_exponent_upper x Hx) as Ux.
  pose proof (ulp_exponent_lower y Hy) as Ly. pose proof (ulp_exponent_upper y Hy) as Uy.
  assert (Qabs x == Qabs y) as Ea by (rewrite E; reflexivity).
  rewrite Ea in Lx, Ux.
  assert (ulp_exponent x + 52 < ulp_exponent y + 53)%Z as H1.
  { apply (Qpower_lt_compat_l_inv 2); [ | reflexivity ].
    apply Qle_lt_trans with (Qabs y); assumption. }
  assert (ulp_exponent y + 52 < ulp_exponent x + 53)%Z as H2.
  { apply (Qpower_lt_compat_l_inv 2); [ | reflexivity ].
    apply Qle_lt_trans with (Qabs y); assumption. }
  lia.
Qed.

Lemma round_to_double_comp (x y : Q) : x == y -> round_to_double x == round_to_double y.
Proof.
  intros E. unfold round_to_double.
  destruct (Qeq_bool x 0) eqn:Hx; destruct (Qeq_bool y 0) eqn:Hy.
  - reflexivity.
  - apply Qeq_bool_iff in Hx. rewrite E in Hx. apply Qeq_bool_iff in Hx. congruence.
  - apply Qeq_bool_iff in Hy. rewrite <- E in Hy. apply Qeq_bool_iff in Hy. congruence.
  - assert (~ x == 0) as Hx' by (intros H; apply Qeq_bool_iff in H; congruence).
    rewrite <- (ulp_exponent_comp x y E Hx').
    set (k := Z.max (ulp_exponent x) (-1074)).
    assert (x / 2 ^ k == y / 2 ^ k) as E' by (rewrite E; reflexivity).
    rewrite (round_half_even_comp _ _ E'). reflexivity.
Qed.

(** An integer below [2^53] in magnitude is a double. *)
Lemma round_to_double_int (z : Z) :
  (Z.abs z < 2 ^ 53)%Z -> round_to_double (inject_Z z) == inject_Z z.
Proof.
  intros Hz. unfold round_to_double.
  destruct (Qeq_bool (inject_Z z) 0) eqn:H0.
  - apply Qeq_bool_iff in H0. rewrite H0. reflexivity.
  - assert (~ inject_Z z == 0) as Hx.
    { intros H. apply Qeq_bool_iff in H. congruence. }
    set (k := Z.max (ulp_exponent (inject_Z z)) (-1074)).
    assert (k <= 0)%Z as Hk.
    { assert (ulp_exponent (inject_Z z) + 52 < 53)%Z; [ | lia ].
      apply (Qpower_lt_compat_l_inv 2); [ | reflexivity ].
      apply Qle_lt_trans with (Qabs (inject_Z z)).
      - apply ulp_exponent_lower. exact Hx.
      - rewrite <- (Zpower_Qpower 2) by lia.
        change (Qabs (inject_Z z)) with (inject_Z (Z.abs z)).
        rewrite <- Zlt_Qlt. exact Hz. }
    pose proof (two_power_pos k) as Pk.
    assert (inject_Z (z * 2 ^ (- k)) == inject_Z z / 2 ^ k) as E.
    { rewrite inject_Z_mult, (Zpower_Qpower 2) by lia.
      change (inject_Z 2) with 2. rewrite Qpower_opp. reflexivity. }
    rewrite <- (round_half_even_comp _ _ E), round_half_even_Z, E.
    field. lra.
Qed.

Lemma fl_error (x : Q) :
  Qabs x <= 4096 ->
  exists r, fl x = Finite r /\
    Qabs (r - x) <= unit_roundoff * Qabs x + underflow /\ (0 <= x -> 0 <= r).
Proof.
  intros Hx. exists (round_to_double x).
  pose proof (round_to_double_error x) as He.
  split; [ | split; [ exact He | apply round_to_double_nonneg ] ].
  unfold fl. cbv zeta.
  destruct (Qle_bool (2 ^ 1024) (Qabs (round_to_double x))) eqn:Hc; [ | reflexivity ].
  exfalso. apply Qle_bool_iff in Hc.
  assert (Qabs (round_to_double x) <= Qabs (round_to_double x - x) + Qabs x) as Ht.
  { setoid_replace (round_to_double x) with ((round_to_double x - x) + x) at 1 by ring.
    apply Qabs_triangle. }
  assert (unit_roundoff * Qabs x <= Qabs x) as Hu.
  { pose proof (Qabs_nonneg x). unfold unit_roundoff. 
    generalize dependent (Qabs x). intros; lra. }
  assert (underflow <= 1) as Huf by (vm_compute; discriminate).
  assert (8193 < 2 ^ 1024) as Hbig by (vm_compute; reflexivity).
  generalize dependent (2 ^ 1024). generalize dependent underflow.
  generalize dependent (Qabs (round_to_double x - x)).
  generalize dependent (Qabs (round_to_double x)). generalize dependent (Qabs x).
  intros. lra.
Qed.

Lemma of_int_exact (z : Z) :
  (0 <= z < 2 ^ 32)%Z -> exists r, of_int z = Finite r /\ r == inject_Z z.
Proof.
  intros Hz. exists (round_to_double (inject_Z z)).
  assert (round_to_double (inject_Z z) == inject_Z z) as E by (apply round_to_double_int; lia).
  split; [ | exact E ].
  unfold of_int, fl. cbv zeta.
  destruct (Qle_bool (2 ^ 1024) (Qabs (round_to_double (inject_Z z)))) eqn:Hc; [ | reflexivity ].
  exfalso. apply Qle_bool_iff in Hc. rewrite E in Hc.
  change (Qabs (inject_Z z)) with (inject_Z (Z.abs z)) in Hc.
  assert (inject_Z (Z.abs z) < 2 ^ 1024); [ | lra ].
  rewrite <- (Zpower_Qpower 2) by lia. rewrite <- Zlt_Qlt.
  apply Z.lt_trans with (2 ^ 32)%Z; [ lia | reflexivity ].
Qed.

Lemma rounding_step_budget : unit_roundoff * 1921 + 4294967296 * underflow <= rounding_step.
Proof. vm_compute. discriminate. Qed.

Lemma underflow_pos : 0 < underflow.
Proof. reflexivity. Qed.

(** A result of magnitude at most 1921 is within [rounding_step] of the exact value. *)
Lemma fl_near (x : Q) :
  -1921 <= x <= 1921 ->
  exists r, fl x = Finite r /\ - rounding_step <= r - x <= rounding_step /\ (0 <= x -> 0 <= r).
Proof.
  intros Hx.
  assert (Qabs x <= 1921) as Ha by (apply Qabs_Qle_condition; lra).
  destruct (fl_error x) as (r & Hr & He & Hn); [ lra | ].
  exists r. split; [ exact Hr | ]. split; [ | exact Hn ].
  pose proof rounding_step_budget as Hb. pose proof underflow_pos as Hu.
  assert (Qabs (r - x) <= rounding_step) as Hq.
  { unfold unit_roundoff in *. generalize dependent underflow. generalize dependent rounding_step.
    generalize dependent (Qabs (r - x)). generalize dependent (Qabs x). intros. lra. }
  apply Qabs_Qle_condition in Hq. lra.
Qed.

(** The quotient [F / W] of a frame side by an image side. *)
Lemma quotient_near (p q F W : Q) :
  p == F -> q == W -> 0 < F <= 1920 -> 1 <= W <= 4294967296 ->
  exists r, div (Finite p) (Finite q) = Finite r /\ 0 <= r /\
            - rounding_step <= W * r - F <= rounding_step /\
            - rounding_step <= r - F / W <= rounding_step.
Proof.
  intros Ep Eq HF HW. unfold div.
  destruct (Qeq_bool q 0) eqn:Hz.
  { apply Qeq_bool_iff in Hz. lra. }
  assert (0 < p / q /\ p / q <= 1920 /\ W * (p / q) == F) as (Hc0 & Hc1 & Hc2).
  { rewrite Ep, Eq. split; [ | split ].
    - apply Qlt_shift_div_l; lra.
    - apply Qle_shift_div_r; nra.
    - field. lra. }
  destruct (fl_error (p / q)) as (r & Hr & He & Hn).
  { apply Qabs_Qle_condition. lra. }
  exists r. split; [ exact Hr | ]. split; [ apply Hn; lra | ].
  rewrite (Qabs_pos (p / q)) in He by lra.
  apply Qabs_Qle_condition in He.
  assert (F / W == p / q) as Ec by (rewrite Ep, Eq; reflexivity).
  rewrite Ec.
  pose proof rounding_step_budget as Hb. pose proof underflow_pos as Hu.
  unfold unit_roundoff in *.
  generalize dependent underflow. generalize dependent rounding_step. generalize dependent (p / q).
  intros c Hc0 Hc1 Hc2 _ _ _ e uf Hle Hb Hu. split; nra.
Qed.

(** The product of an image side by the scale. *)
Lemma product_near (q W s : Q) :
  q == W -> 0 <= W * s <= 1921 ->
  exists r, mul (Finite q) (Finite s) = Finite r /\ 0 <= r /\ - rounding_step <= r - W * s <= rounding_step.
Proof.
  intros Eq Ht. unfold mul.
  destruct (fl_near (q * s)) as (r & Hr & He & Hn).
  { rewrite Eq. lra. }
  exists r. split; [ exact Hr | ]. rewrite Eq in He, Hn. split; [ apply Hn; lra | exact He ].
Qed.

(** The offset [(F - d) / 2] of a drawn side [d] in a frame side [F]. *)
Lemma offset_near (p two F d : Q) :
  p == F -> two == 2 -> 0 < F <= 1920 -> 0 <= d <= 1921 ->
  exists x, div (sub (Finite p) (Finite d)) (Finite two) = Finite x /\
            - (3 * rounding_step) <= 2 * x - (F - d) <= 3 * rounding_step.
Proof.
  intros Ep E2 HF Hd. unfold sub.
  destruct (fl_near (p - d)) as (v & Hv & Hev & _).
  { rewrite Ep. lra. }
  rewrite Hv. unfold div.
  destruct (Qeq_bool two 0) eqn:Hz.
  { apply Qeq_bool_iff in Hz. lra. }
  rewrite Ep in Hev.
  assert (0 < rounding_step <= 1) as Hrounding_step by (split; [ reflexivity | discriminate ]).
  assert (v / two == v * (1 # 2)) as Eh by (rewrite E2; field).
  destruct (fl_near (v / two)) as (x & Hx & Hex & _).
  { rewrite Eh. lra. }
  exists x. split; [ exact Hx | ]. rewrite Eh in Hex. lra.
Qed.

Lemma placement_geometry (w h : Z) :
  (0 < w < 2 ^ 32)%Z -> (0 < h < 2 ^ 32)%Z ->
  let W := inject_Z w in
  let H := inject_Z h in
  exists scale x y drawW drawH,
    Math_min (div (of_int 1920) (of_int w)) (div (of_int 1080) (of_int h)) = Finite scale /\
    mul (of_int w) (Finite scale) = Finite drawW /\
    mul (of_int h) (Finite scale) = Finite drawH /\
    div (sub (of_int 1920) (Finite drawW)) (of_int 2) = Finite x /\
    div (sub (of_int 1080) (Finite drawH)) (of_int 2) = Finite y /\
    0 <= scale /\ 0 <= drawW /\ 0 <= drawH /\
    - rounding_step <= scale - Qmin (1920 / W) (1080 / H) <= rounding_step /\
    - rounding_step <= drawW - W * scale <= rounding_step /\
    - rounding_step <= drawH - H * scale <= rounding_step /\
    - (3 * rounding_step) <= 2 * x - (1920 - drawW) <= 3 * rounding_step /\
    - (3 * rounding_step) <= 2 * y - (1080 - drawH) <= 3 * rounding_step /\
    drawW <= 1920 + 2 * rounding_step /\ drawH <= 1080 + 2 * rounding_step /\
    (1920 - 2 * rounding_step <= drawW \/ 1080 - 2 * rounding_step <= drawH).
Proof.
  intros Hw Hh W H.
  destruct (of_int_exact 1920) as (p1 & E1 & Q1); [ lia | ].
  destruct (of_int_exact 1080) as (p2 & E2 & Q2); [ lia | ].
  destruct (of_int_exact 2) as (p3 & E3 & Q3); [ lia | ].
  destruct (of_int_exact w) as (qw & Ew & Qw); [ lia | ].
  destruct (of_int_exact h) as (qh & Eh & Qh); [ lia | ].
  fold W in Qw. fold H in Qh.
  change (inject_Z 1920) with 1920 in Q1. change (inject_Z 1080) with 1080 in Q2.
  change (inject_Z 2) with 2 in Q3.
  rewrite E1, E2, E3, Ew, Eh.
  assert (1 <= W <= 4294967296) as HW.
  { unfold W. change 1 with (inject_Z 1). change 4294967296 with (inject_Z (2 ^ 32)).
    rewrite <- !Zle_Qle. lia. }
  assert (1 <= H <= 4294967296) as HH.
  { unfold H. change 1 with (inject_Z 1). change 4294967296 with (inject_Z (2 ^ 32)).
    rewrite <- !Zle_Qle. lia. }
  destruct (quotient_near p1 qw 1920 W Q1 Qw) as (a & Ea & Ha0 & Ha & Ha'); [ lra | exact HW | ].
  destruct (quotient_near p2 qh 1080 H Q2 Qh) as (b & Eb & Hb0 & Hb & Hb'); [ lra | exact HH | ].
  rewrite Ea, Eb.
  assert (0 < rounding_step <= 1 # 4) as Hrounding_step by (split; [ reflexivity | discriminate ]).
  assert (exists s, Math_min (Finite a) (Finite b) = Finite s /\ 0 <= s /\
            W * s <= 1920 + rounding_step /\ H * s <= 1080 + rounding_step /\
            (1920 - rounding_step <= W * s \/ 1080 - rounding_step <= H * s) /\
            - rounding_step <= s - Qmin (1920 / W) (1080 / H) <= rounding_step)
    as (s & Es & Hs0 & HsW & HsH & Hfill & Hmin).
  { unfold Math_min. destruct (Qle_bool a b) eqn:Hab.
    - apply Qle_bool_iff in Hab. exists a. split; [ reflexivity | ].
      split; [ exact Ha0 | ]. split; [ lra | ]. split; [ nra | ]. split; [ left; lra | ].
      destruct (Q.min_spec (1920 / W) (1080 / H)) as [[Hlt Hm] | [Hle Hm]]; rewrite Hm;
        generalize dependent (1920 / W); generalize dependent (1080 / H); intros; lra.
    - assert (b <= a) as Hba.
      { destruct (Qlt_le_dec b a) as [Hlt | Hle]; [ lra | ].
        apply Qle_bool_iff in Hle. congruence. }
      exists b. split; [ reflexivity | ].
      split; [ exact Hb0 | ]. split; [ nra | ]. split; [ lra | ]. split; [ right; lra | ].
      destruct (Q.min_spec (1920 / W) (1080 / H)) as [[Hlt Hm] | [Hle Hm]]; rewrite Hm;
        generalize dependent (1920 / W); generalize dependent (1080 / H); intros; lra. }
  rewrite Es.
  assert (0 <= W * s) as HWs by nra. assert (0 <= H * s) as HHs by nra.
  destruct (product_near qw W s Qw) as (dW & EW & HW0 & HdW); [ lra | ].
  destruct (product_near qh H s Qh) as (dH & EH & HH0 & HdH); [ lra | ].
  destruct (offset_near p1 p3 1920 dW Q1 Q3) as (x & Ex & Hx); [ lra | lra | ].
  destruct (offset_near p2 p3 1080 dH Q2 Q3) as (y & Ey & Hy); [ lra | lra | ].
  exists s, x, y, dW, dH.
  repeat split; try assumption; try lra.
Qed.

(** On every sample size the rounding above computes the four numbers that
    the binary64 arithmetic of the kernel computes: the sizes up to 40 x 40,
    zero sides included (an infinite scale, NaN for the empty image), and
    the listed screen and page sizes. *)
Lemma placement_agrees_with_binary64 :
  forallb (fun size => Binary64.agree (mkImage EmptyString (fst size) (snd size)))
          Binary64.sizes = true.
Proof. vm_compute. reflexivity. Qed.

End RoundingProofs.

(** ** The compositor *)

Section CompositorProofs.
Import VideoService.

(** *** The monad *)

Lemma run_emit {A : Type} (e : Event) (k : unit -> M A) (s : State) :
  bind (emit e) k s = let '(o, s', t) := k tt s in (o, s', e :: t).
Proof. unfold bind, emit. destruct (k tt s) as [[o s'] t]. reflexivity. Qed.

Lemma run_get {A : Type} (k : State -> M A) (s : State) :
  bind get k s = k s s.
Proof. unfold bind, get. destruct (k s s) as [[o s'] t]. reflexivity. Qed.

Lemma run_put {A : Type} (s' : State) (k : unit -> M A) (s : State) :
  bind (put s') k s = k tt s'.
Proof. unfold bind, put. destruct (k tt s') as [[o s2] t]. reflexivity. Qed.

Lemma run_ret {A B : Type} (a : A) (k : A -> M B) (s : State) :
  bind (ret a) k s = k a s.
Proof. unfold bind, ret. destruct (k a s) as [[o s2] t]. reflexivity. Qed.

Lemma run_throw {A B : Type} (e : Error) (k : A -> M B) (s : State) :
  bind (throw e) k s = (Rejected e, s, []).
Proof. reflexivity. Qed.

Lemma run_bind {A B C : Type} (m : M A) (f : A -> M B) (g : B -> M C) (s : State) :
  bind (bind m f) g s = bind m (fun a => bind (f a) g) s.
Proof.
  unfold bind. destruct (m s) as [[[a | e |] s1] t1]; try reflexivity.
  destruct (f a s1) as [[[b | e |] s2] t2]; try reflexivity.
  destruct (g b s2) as [[o s3] t3]. now rewrite app_assoc.
Qed.

Lemma run_elapse {A : Type} (dt : Q) (k : unit -> M A) (s : State) :
  bind (elapse dt) k s = k tt (advance dt s).
Proof. unfold elapse. rewrite run_bind, run_get, run_put. reflexivity. Qed.

Lemma run_set_canvas {A : Type} (p : Picture) (k : unit -> M A) (s : State) :
  bind (set_canvas p) k s = k tt (show p s).
Proof. unfold set_canvas. rewrite run_bind, run_get, run_put. reflexivity. Qed.

Lemma run_fill_black {A : Type} (k : unit -> M A) (s : State) :
  bind fill_black k s
  = let '(o, s', t) := k tt (show Black s) in
    (o, s', fillRect 0 0 WIDTH HEIGHT :: t).
Proof. unfold fill_black. rewrite run_bind, run_emit, run_set_canvas. reflexivity. Qed.

Ltac run :=
  repeat (cbv beta;
          first [ rewrite run_emit | rewrite run_get | rewrite run_put
                | rewrite run_ret | rewrite run_throw | rewrite run_elapse
                | rewrite run_set_canvas | rewrite run_fill_black
                | rewrite run_bind ]).

(** One turn of the draw callback. *)
Lemma draw_step (fuel : nat) (env : Env) (img : Image) (endTime : Q) (s : State) :
  draw (S fuel) env img endTime s
  = if Qle_bool endTime (currentTime s) then (Resolved tt, s, [])
    else
      let '(x, y, w, h) := placement img in
      let '(o, s', t) :=
        draw fuel env img endTime
          (advance (frame_delay env (currentTime s)) (show (Drawn img x y w h) s)) in
      (o, s', fillRect 0 0 WIDTH HEIGHT :: drawImage img x y w h
              :: requestAnimationFrame :: t).
Proof.
  cbn [draw]. rewrite run_get.
  destruct (Qle_bool endTime (currentTime s)); [reflexivity|].
  rewrite run_fill_black.
  destruct (placement img) as [[[x y] w] h].
  rewrite run_emit, run_set_canvas, run_emit, run_elapse.
  change (show (Drawn img x y w h) (show Black s)) with (show (Drawn img x y w h) s).
  destruct (draw fuel env img endTime _) as [[o s'] t]. reflexivity.
Qed.

(** One turn of the loop over the slides. *)
Lemma for_slides_step (fuel : nat) (env : Env) (total i : nat)
    (slide : Slide) (rest : list Slide) (s : State) :
  for_slides fuel env total i (slide :: rest) s
  = let msg := onProgress (progress_message i total) in
    match audioBlob slide with
    | None =>
        let '(o, s', t) := for_slides fuel env total (S i) rest s in
        (o, s', msg :: t)
    | Some blob =>
        let s1 := advance (image_delay env (imageUrl slide)) s in
        match image_at env (imageUrl slide) with
        | None =>
            (Rejected (ImageLoadError (imageUrl slide)), s1,
             [msg; image_load (imageUrl slide)])
        | Some img =>
            let s2 := advance (decode_delay env blob) s1 in
            match decodeAudioData env blob with
            | None =>
                (Rejected EncodingError, s2,
                 [msg; image_load (imageUrl slide); decode blob])
            | Some buffer =>
                let head := [msg; image_load (imageUrl slide); decode blob;
                             source_start (currentTime s2) buffer] in
                match draw fuel env img (currentTime s2 + buf_duration buffer)%Q s2 with
                | (Resolved _, s3, t3) =>
                    let '(o, s', t) := for_slides fuel env total (S i) rest s3 in
                    (o, s', head ++ t3 ++ t)
                | (Rejected e, s3, t3) => (Rejected e, s3, head ++ t3)
                | (Pending, s3, t3) => (Pending, s3, head ++ t3)
                end
            end
        end
    end.
Proof.
  cbn [for_slides]. rewrite run_emit. cbv zeta.
  destruct (audioBlob slide) as [blob|]; [|reflexivity].
  unfold loadImage. run.
  destruct (image_at env (imageUrl slide)) as [img|]; [|reflexivity].
  unfold decodeAudio. run.
  destruct (decodeAudioData env blob) as [buffer|]; [|reflexivity].
  run. unfold bind at 1.
  destruct (draw fuel env img _ _) as [[[[] | e |] s3] t3]; try reflexivity.
  destruct (for_slides fuel env total (S i) rest s3) as [[o s'] t]. reflexivity.
Qed.

(** *** What the draw loop and the slide loop keep *)

Lemma video_duration_app (r : list Segment) (seg : Segment) :
  (video_duration (r ++ [seg]) == video_duration r + seg_seconds seg)%Q.
Proof.
  induction r as [|a r IH]; cbn [app video_duration fold_right].
  - ring.
  - fold (video_duration (r ++ [seg])). fold (video_duration r). rewrite IH. ring.
Qed.

Lemma keeps_refl (s : State) : keeps s s.
Proof. repeat split; reflexivity. Qed.

Lemma keeps_trans (a b c : State) : keeps a b -> keeps b c -> keeps a c.
Proof.
  intros (R1 & C1 & D1) (R2 & C2 & D2). repeat split; try congruence.
  intros Hr. rewrite D2 by congruence. apply D1, Hr.
Qed.

Lemma keeps_advance (dt : Q) (s : State) : keeps s (advance dt s).
Proof.
  repeat split. intros Hr. unfold advance. cbn [recorded currentTime]. rewrite Hr.
  rewrite video_duration_app. cbn [seg_seconds]. ring.
Qed.

Lemma keeps_show (p : Picture) (s : State) : keeps s (show p s).
Proof. repeat split; reflexivity. Qed.

Lemma draw_facts (env : Env) (img : Image) (endTime : Q) (fuel : nat) :
  forall s o s' t,
    draw fuel env img endTime s = (o, s', t) ->
    quiet t /\ keeps s s' /\
    (o = Resolved tt -> (endTime <= currentTime s')%Q) /\
    (forall e, o <> Rejected e).
Proof.
  induction fuel as [|fuel IH]; intros s o s' t H.
  - inversion H; subst. repeat split; try reflexivity; discriminate.
  - rewrite draw_step in H.
    destruct (Qle_bool endTime (currentTime s)) eqn:Hle.
    + inversion H; subst. repeat split; try reflexivity; try discriminate.
      intros _. apply Qle_bool_iff, Hle.
    + destruct (placement img) as [[[x y] w] h].
      destruct (draw fuel env img endTime _) as [[o1 s1] t1] eqn:Hd.
      inversion H; subst. apply IH in Hd. destruct Hd as ((E & P & S) & K & T & NR).
      split; [|split; [|split]]; try assumption.
      * repeat split; cbn; assumption.
      * eapply keeps_trans; [|exact K].
        eapply keeps_trans; [apply keeps_show | apply keeps_advance].
Qed.

Lemma progress_of_app (a b : list Event) :
  progress_of (a ++ b) = progress_of a ++ progress_of b.
Proof. apply flat_map_app. Qed.

Lemma sources_of_app (a b : list Event) :
  sources_of (a ++ b) = sources_of a ++ sources_of b.
Proof. apply flat_map_app. Qed.

Lemma quiet_app (a b : list Event) : quiet a -> quiet b -> quiet (a ++ b).
Proof.
  intros (E1 & P1 & S1) (E2 & P2 & S2). repeat split.
  - rewrite forallb_app, E1, E2. reflexivity.
  - rewrite progress_of_app, P1, P2. reflexivity.
  - rewrite sources_of_app, S1, S2. reflexivity.
Qed.

(** Case analysis on one turn of the slide loop. *)
Ltac slide_turn H :=
  rewrite for_slides_step in H; cbv zeta in H;
  match type of H with
  | context [audioBlob ?slide] =>
      destruct (audioBlob slide) as [?blob|] eqn:?Haudio;
      [ destruct (image_at _ _) as [?img|] eqn:?Himg;
        [ destruct (decodeAudioData _ _) as [?buffer|] eqn:?Hdec;
          [ match type of H with
            | context [draw ?f ?e ?i ?t ?s] =>
                destruct (draw f e i t s) as [[[[] | ?e |] ?s3] ?t3] eqn:?Hdraw;
                [ match type of H with
                  | context [for_slides ?a ?b ?c ?d ?r ?st] =>
                      destruct (for_slides a b c d r st) as [[?o1 ?s4] ?t4] eqn:?Hrest
                  end | | ]
            end | ] | ]
      | match type of H with
        | context [for_slides ?a ?b ?c ?d ?r ?st] =>
            destruct (for_slides a b c d r st) as [[?o1 ?s4] ?t4] eqn:?Hrest
        end ]
  end;
  inversion H; subst; clear H.

Lemma for_slides_keeps (env : Env) (fuel total : nat) (rest : list Slide) :
  forall i s o s' t,
    for_slides fuel env total i rest s = (o, s', t) ->
    forallb loop_event t = true /\ keeps s s'.
Proof.
  induction rest as [|slide rest IH]; intros i s o s' t H.
  - inversion H; subst. split; [reflexivity | apply keeps_refl].
  - slide_turn H.
    + apply draw_facts in Hdraw. destruct Hdraw as ((E & _) & K & _).
      apply IH in Hrest. destruct Hrest as (E' & K').
      split.
      * cbn [app forallb loop_event andb]. rewrite forallb_app, E, E'. reflexivity.
      * eapply keeps_trans; [|exact K'].
        eapply keeps_trans; [|exact K].
        eapply keeps_trans; apply keeps_advance.
    + apply draw_facts in Hdraw. destruct Hdraw as ((E & _) & K & _).
      split.
      * cbn [app forallb loop_event andb]. exact E.
      * eapply keeps_trans; [|exact K]. eapply keeps_trans; apply keeps_advance.
    + apply draw_facts in Hdraw. destruct Hdraw as ((E & _) & K & _).
      split.
      * cbn [app forallb loop_event andb]. exact E.
      * eapply keeps_trans; [|exact K]. eapply keeps_trans; apply keeps_advance.
    + split; [reflexivity|]. eapply keeps_trans; apply keeps_advance.
    + split; [reflexivity|]. apply keeps_advance.
    + apply IH in Hrest. destruct Hrest as (E' & K'). split; [exact E' | exact K'].
Qed.

Lemma slide_trace_progress (total : nat) (i k : nat) (t : list Event) :
  slide_trace total i k t ->
  progress_of t = map (fun j => progress_message j total) (seq i k).
Proof.
  induction 1 as [i | i k work rest Hw _ IH]; [reflexivity|].
  cbn [progress_of flat_map app seq map].
  fold (progress_of (work ++ rest)). rewrite progress_of_app, Hw, IH. reflexivity.
Qed.

Lemma slide_trace_last (total i : nat) (work : list Event) :
  progress_of work = [] ->
  slide_trace total i 1 (onProgress (progress_message i total) :: work).
Proof.
  intros Hw. rewrite <- (app_nil_r work). constructor; [exact Hw | constructor].
Qed.

(** The loop reports slide after slide, each before its own work, and
    all of them when it runs to its end. *)
Lemma for_slides_progress (env : Env) (fuel total : nat) (rest : list Slide) :
  forall i s o s' t,
    for_slides fuel env total i rest s = (o, s', t) ->
    exists k, (k <= List.length rest)%nat /\ slide_trace total i k t /\
              (o = Resolved tt -> k = List.length rest) /\
              (o <> Resolved tt -> (0 < k)%nat).
Proof.
  induction rest as [|slide rest IH]; intros i s o s' t H.
  - inversion H; subst. exists 0%nat.
    split; [reflexivity|]. split; [constructor|]. split; [reflexivity|].
    intros C. now elim C.
  - slide_turn H.
    + apply draw_facts in Hdraw. destruct Hdraw as ((_ & P & _) & _).
      apply IH in Hrest. destruct Hrest as (k & Hk & Ht & Hres & _).
      exists (S k). split; [cbn [List.length]; lia|]. split; [|split].
      * refine (slide_trace_cons total i k (_ :: _ :: _ :: t3) t4 _ Ht). exact P.
      * intros Ho. cbn [List.length]. f_equal. apply Hres, Ho.
      * intros _. lia.
    + apply draw_facts in Hdraw. destruct Hdraw as ((_ & P & _) & _).
      exists 1%nat. split; [cbn [List.length]; lia|]. split; [|split].
      * apply slide_trace_last. exact P.
      * discriminate.
      * intros _. lia.
    + apply draw_facts in Hdraw. destruct Hdraw as ((_ & P & _) & _).
      exists 1%nat. split; [cbn [List.length]; lia|]. split; [|split].
      * apply slide_trace_last. exact P.
      * discriminate.
      * intros _. lia.
    + exists 1%nat. split; [cbn [List.length]; lia|]. split; [|split].
      * apply slide_trace_last. reflexivity.
      * discriminate.
      * intros _. lia.
    + exists 1%nat. split; [cbn [List.length]; lia|]. split; [|split].
      * apply slide_trace_last. reflexivity.
      * discriminate.
      * intros _. lia.
    + apply IH in Hrest. destruct Hrest as (k & Hk & Ht & Hres & _).
      exists (S k). split; [cbn [List.length]; lia|]. split; [|split].
      * apply (slide_trace_cons total i k [] t4); [reflexivity | exact Ht].
      * intros Ho. cbn [List.length]. f_equal. apply Hres, Ho.
      * intros _. lia.
Qed.

(** A loop that runs to its end has started the decoded audio of exactly
    the slides that have audio, in order, and every such slide loaded. *)
Lemma for_slides_sources (env : Env) (fuel total : nat) (rest : list Slide) :
  forall i s s' t,
    for_slides fuel env total i rest s = (Resolved tt, s', t) ->
    sources_of t = flat_map (decoded env) rest /\
    forallb (loads env) rest = true.
Proof.
  induction rest as [|slide rest IH]; intros i s s' t H.
  - inversion H; subst. split; reflexivity.
  - slide_turn H.
    + apply draw_facts in Hdraw. destruct Hdraw as ((_ & _ & S) & _).
      apply IH in Hrest. destruct Hrest as (Hs & Hl).
      split.
      * cbn [app sources_of flat_map]. fold (sources_of (t3 ++ t4)).
        rewrite sources_of_app, S, Hs. unfold decoded at 2.
        rewrite Haudio, Hdec. reflexivity.
      * cbn [forallb]. unfold loads at 1. rewrite Haudio, Himg, Hdec. exact Hl.
    + apply IH in Hrest. destruct Hrest as (Hs & Hl).
      split.
      * cbn [sources_of flat_map]. fold (sources_of t4).
        rewrite Hs. unfold decoded at 2. rewrite Haudio. reflexivity.
      * cbn [forallb]. unfold loads at 1. rewrite Haudio. exact Hl.
Qed.

(** *** The acquisition phase *)

Lemma detect_mimeType_run (env : Env) (s : State) :
  exists t,
    detect_mimeType env s = (Resolved (negotiated_mimeType env), s, t) /\
    probes_of t = priority_probes env /\
    forallb acquire_event t = true /\ recorders_of t = [].
Proof.
  unfold detect_mimeType, isTypeSupported_opt, negotiated_mimeType, reports,
    priority_probes, mime_mp4, mime_h264, mime_vp9.
  destruct (window_MediaRecorder env) as [R|]; [|eexists; repeat split; reflexivity].
  destruct (isTypeSupported R) as [f|]; [|eexists; repeat split; reflexivity].
  run. destruct (f "video/mp4"); run.
  - eexists; repeat split; reflexivity.
  - destruct (f "video/webm; codecs=h264"); eexists; repeat split; reflexivity.
Qed.

Lemma setup_facts (env : Env) (s : State) :
  exists o t,
    setup env s = (o, s, t) /\
    forallb acquire_event t = true /\
    probes_of t = (if canvas_2d env then priority_probes env else []) /\
    match o with
    | Resolved (R, mimeType) =>
        setup_ready env = true /\ window_MediaRecorder env = Some R /\
        mimeType = negotiated_mimeType env /\
        recorders_of t = [(negotiated_mimeType env, BITRATE)]
    | Rejected e => setup_ready env = false /\ recorders_of t = []
    | Pending => False
    end.
Proof.
  unfold setup, setup_ready. run.
  destruct (canvas_2d env); cbn [negb andb];
    [|eexists _, _; repeat split; reflexivity].
  destruct (detect_mimeType_run env s) as (t0 & Hrun & Hp & Ha & Hr).
  unfold bind at 1. rewrite Hrun.
  assert (Hp' : forall rest, probes_of rest = [] ->
                probes_of (getContext true :: t0 ++ rest) = priority_probes env).
  { intros rest Hrest. cbn [probes_of flat_map app].
    fold (probes_of (t0 ++ rest)). unfold probes_of in *.
    rewrite flat_map_app, Hp, Hrest. apply app_nil_r. }
  assert (Ha' : forall rest, forallb acquire_event rest = true ->
                forallb acquire_event (getContext true :: t0 ++ rest) = true).
  { intros rest Hrest. cbn [forallb acquire_event andb].
    rewrite forallb_app, Ha, Hrest. reflexivity. }
  assert (Hr' : forall rest,
                recorders_of (getContext true :: t0 ++ rest) = recorders_of rest).
  { intros rest. cbn [recorders_of flat_map app].
    fold (recorders_of (t0 ++ rest)). unfold recorders_of in *.
    rewrite flat_map_app, Hr. reflexivity. }
  destruct (window_AudioContext env) as [[susp res]|]; cbn [starts_suspended resume_succeeds];
    [|eexists _, _; split; [reflexivity|]; rewrite Ha', Hp', Hr' by reflexivity;
      repeat split; reflexivity].
  destruct susp, res, (canvas_captureStream env), (window_MediaStream env),
    (window_MediaRecorder env) as [R|];
    try destruct (accepts R (negotiated_mimeType env)) eqn:Hacc;
    run; cbn [negb andb]; try rewrite Hacc; cbn [negb];
    eexists _, _; (split; [reflexivity|]); rewrite Ha', Hp', Hr' by reflexivity;
    repeat split; reflexivity.
Qed.

(** *** The finalisation *)

Lemma dispatch_run (events : list (option Blob)) :
  forall s,
    dispatch events s
    = (Resolved tt,
       mkState (currentTime s) (canvas s) (recorder_state s) (recorded s)
         (chunks s ++ kept events), []).
Proof.
  induction events as [|data events IH]; intros s.
  - cbn [dispatch kept flat_map]. rewrite app_nil_r. destruct s; reflexivity.
  - cbn [dispatch kept flat_map]. fold (kept events).
    destruct data as [d|]; cbn [ondataavailable].
    + destruct (0 <? blob_size d); run; rewrite IH.
      * cbn [currentTime canvas recorder_state recorded chunks app].
        rewrite <- app_assoc. reflexivity.
      * reflexivity.
    + run. rewrite IH. reflexivity.
Qed.

Lemma finish_run (R : MediaRecorderClass) (mimeType : string) (s : State) :
  finish R mimeType s
  = (Resolved (new_Blob (chunks (finished R mimeType s)) mimeType),
     finished R mimeType s, finish_trace).
Proof.
  unfold finish, stop_recording, set_recorder_state. run.
  unfold bind at 1. rewrite dispatch_run. run. reflexivity.
Qed.

(** *** The anatomy of a run: acquisition, then start, loop and finalisation *)

Lemma generateVideo_anatomy (fuel : nat) (env : Env) (slides : list Slide) :
  exists t0,
    forallb acquire_event t0 = true /\
    probes_of t0 = (if canvas_2d env then priority_probes env else []) /\
    ((setup_ready env = false /\ recorders_of t0 = [] /\
      exists e, generateVideo fuel env slides = (Rejected e, initial_state, t0))
     \/
     (setup_ready env = true /\
      recorders_of t0 = [(negotiated_mimeType env, BITRATE)] /\
      exists R, window_MediaRecorder env = Some R /\
        generateVideo fuel env slides
        = match for_slides fuel env (List.length slides) 0 slides recording_state with
          | (Resolved _, s1, t1) =>
              (Resolved (new_Blob (chunks (finished R (negotiated_mimeType env) s1))
                           (negotiated_mimeType env)),
               finished R (negotiated_mimeType env) s1,
               t0 ++ start_trace ++ t1 ++ finish_trace)
          | (Rejected e, s1, t1) => (Rejected e, s1, t0 ++ start_trace ++ t1)
          | (Pending, s1, t1) => (Pending, s1, t0 ++ start_trace ++ t1)
          end)).
Proof.
  destruct (setup_facts env initial_state) as (o & t0 & Hs & Ha & Hp & Ho).
  exists t0. split; [exact Ha|]. split; [exact Hp|].
  destruct o as [[R mimeType] | e |]; [| |contradiction].
  - right. destruct Ho as (Hready & HR & -> & Hrec).
    split; [exact Hready|]. split; [exact Hrec|]. exists R. split; [exact HR|].
    unfold generateVideo, generateVideo_body. unfold bind at 1. rewrite Hs.
    unfold set_recorder_state. run.
    change (show Black _) with recording_state.
    unfold bind at 1.
    destruct (for_slides fuel env (List.length slides) 0 slides recording_state)
      as [[[[] | e |] s1] t1]; try reflexivity.
    rewrite finish_run. reflexivity.
  - left. destruct Ho as (Hready & Hrec). split; [exact Hready|]. split; [exact Hrec|].
    exists e. unfold generateVideo, generateVideo_body. unfold bind at 1.
    rewrite Hs. reflexivity.
Qed.

(** *** Time *)

Lemma audio_seconds_cons (env : Env) (slide : Slide) (rest : list Slide) :
  (audio_seconds env (slide :: rest)
   == audio_seconds env [slide] + audio_seconds env rest)%Q.
Proof.
  unfold audio_seconds. cbn [flat_map]. rewrite app_nil_r.
  induction (decoded env slide) as [|b l IH]; cbn [app fold_right].
  - ring.
  - rewrite IH. ring.
Qed.

Lemma audio_seconds_nonneg (env : Env) (slides : list Slide) :
  (0 <= audio_seconds env slides)%Q.
Proof.
  unfold audio_seconds.
  induction (flat_map (decoded env) slides) as [|b l IH]; cbn [fold_right].
  - apply Qle_refl.
  - assert (0 < buf_duration b)%Q by reflexivity. lra.
Qed.

(** Each slide with audio holds the clock for at least its audio's
    duration: a loop that runs to its end ends no earlier than the sum of
    the durations after its start. *)
Lemma for_slides_time (env : Env) (fuel total : nat) (rest : list Slide) :
  (forall src, 0 <= image_delay env src)%Q ->
  (forall blob, 0 <= decode_delay env blob)%Q ->
  forall i s s' t,
    for_slides fuel env total i rest s = (Resolved tt, s', t) ->
    (currentTime s + audio_seconds env rest <= currentTime s')%Q.
Proof.
  intros Himgd Hdecd.
  induction rest as [|slide rest IH]; intros i s s' t H.
  - inversion H; subst. unfold audio_seconds. cbn. lra.
  - rewrite audio_seconds_cons. slide_turn H.
    + apply draw_facts in Hdraw. destruct Hdraw as (_ & _ & T & _).
      specialize (T eq_refl). apply IH in Hrest.
      unfold audio_seconds at 1, decoded. cbn [flat_map]. rewrite Haudio, Hdec.
      cbn [app fold_right]. cbn [advance currentTime] in T.
      specialize (Himgd (imageUrl slide)). specialize (Hdecd blob). lra.
    + apply IH in Hrest.
      unfold audio_seconds at 1, decoded. cbn [flat_map]. rewrite Haudio.
      cbn [app fold_right]. lra.
Qed.

(** *** The stored duration is never read *)

Lemma for_slides_same (env : Env) (fuel total : nat) (a b : list Slide) :
  Forall2 same_but_duration a b ->
  forall i s, for_slides fuel env total i a s = for_slides fuel env total i b s.
Proof.
  induction 1 as [|x y a b Hxy _ IH]; intros i s; [reflexivity|].
  destruct Hxy as (_ & _ & _ & Hurl & _ & Haud & _).
  rewrite !for_slides_step. cbv zeta. rewrite Hurl, Haud.
  destruct (audioBlob y) as [blob|]; [|now rewrite IH].
  destruct (image_at env (imageUrl y)) as [img|]; [|reflexivity].
  destruct (decodeAudioData env blob) as [buffer|]; [|reflexivity].
  destruct (draw fuel env img _ _) as [[[[] | e |] s3] t3]; try reflexivity.
  now rewrite IH.
Qed.

(** *** Enough fuel *)

Lemma inject_Z_succ (n : nat) :
  (inject_Z (Z.of_nat (S n)) == inject_Z (Z.of_nat n) + 1)%Q.
Proof. rewrite Nat2Z.inj_succ. unfold Z.succ. rewrite inject_Z_plus. reflexivity. Qed.

(** With frames of at least [delta] seconds, [fuel] frames end a draw loop
    that has at most [fuel * delta] seconds to go. *)
Lemma draw_resolves (env : Env) (img : Image) (endTime delta : Q) :
  (0 < delta)%Q ->
  (forall now, delta <= frame_delay env now)%Q ->
  forall fuel s,
    (endTime - currentTime s <= inject_Z (Z.of_nat fuel) * delta)%Q ->
    exists s' t, draw (S fuel) env img endTime s = (Resolved tt, s', t).
Proof.
  intros Hdelta Hframe.
  induction fuel as [|fuel IH]; intros s Hgap; rewrite draw_step.
  - replace (Qle_bool endTime (currentTime s)) with true.
    + eexists _, _. reflexivity.
    + symmetry. apply Qle_bool_iff.
      change (inject_Z (Z.of_nat 0)) with 0%Q in Hgap. lra.
  - destruct (Qle_bool endTime (currentTime s)); [eexists _, _; reflexivity|].
    destruct (placement img) as [[[x y] w] h].
    edestruct (IH (advance (frame_delay env (currentTime s)) (show (Drawn img x y w h) s)))
      as (s' & t & Hrun).
    + cbn [advance show currentTime]. rewrite inject_Z_succ in Hgap.
      specialize (Hframe (currentTime s)). lra.
    + rewrite Hrun. eexists _, _. reflexivity.
Qed.

Lemma enough_cons (fuel : nat) (delta : Q) (env : Env) (slide : Slide) (rest : list Slide) :
  enough fuel delta env (slide :: rest) ->
  enough fuel delta env [slide] /\ enough fuel delta env rest.
Proof.
  unfold enough. cbn [flat_map]. rewrite app_nil_r. apply Forall_app.
Qed.

(** When every slide loads and the fuel is enough, the loop runs to its end. *)
Lemma for_slides_resolves (env : Env) (delta : Q) (fuel total : nat) (rest : list Slide) :
  (0 < delta)%Q ->
  (forall now, delta <= frame_delay env now)%Q ->
  forallb (loads env) rest = true ->
  enough fuel delta env rest ->
  forall i s, exists s' t,
    for_slides (S fuel) env total i rest s = (Resolved tt, s', t).
Proof.
  intros Hdelta Hframe.
  induction rest as [|slide rest IH]; intros Hloads Hfuel i s.
  - eexists _, _. reflexivity.
  - cbn [forallb] in Hloads. apply andb_prop in Hloads. destruct Hloads as (Hl & Hls).
    apply enough_cons in Hfuel. destruct Hfuel as (Hf & Hfs).
    specialize (IH Hls Hfs).
    rewrite for_slides_step. cbv zeta.
    unfold loads in Hl. unfold enough, decoded in Hf. cbn [flat_map] in Hf.
    destruct (audioBlob slide) as [blob|].
    + destruct (image_at env (imageUrl slide)) as [img|]; [|discriminate].
      destruct (decodeAudioData env blob) as [buffer|]; [|discriminate].
      cbn [app] in Hf. apply Forall_inv in Hf.
      set (s2 := advance (decode_delay env blob) (advance (image_delay env (imageUrl slide)) s)).
      destruct (draw_resolves env img (currentTime s2 + buf_duration buffer)%Q delta
                  Hdelta Hframe fuel s2) as (s3 & t3 & Hrun).
      { lra. }
      rewrite Hrun. destruct (IH (S i) s3) as (s' & t & Hrest). rewrite Hrest.
      eexists _, _. reflexivity.
    + destruct (IH (S i) s) as (s' & t & Hrest). rewrite Hrest.
      eexists _, _. reflexivity.
Qed.

Lemma frames_for_covers (delta d : Q) :
  (0 < delta)%Q -> (d <= inject_Z (Z.of_nat (frames_for delta d)) * delta)%Q.
Proof.
  intros Hdelta. unfold frames_for.
  assert (H1 : (d / delta <= inject_Z (Qceiling (d / delta)))%Q) by apply Qle_ceiling.
  assert (H2 : (inject_Z (Qceiling (d / delta))
                <= inject_Z (Z.of_nat (Z.to_nat (Qceiling (d / delta)))))%Q).
  { rewrite <- Zle_Qle. lia. }
  assert (H3 : (d == d / delta * delta)%Q) by (field; lra).
  rewrite H3 at 1. apply Qmult_le_compat_r; lra.
Qed.

Lemma enough_more (fuel fuel' : nat) (delta : Q) (env : Env) (slides : list Slide) :
  (0 < delta)%Q -> (fuel <= fuel')%nat ->
  enough fuel delta env slides -> enough fuel' delta env slides.
Proof.
  intros Hdelta Hle. unfold enough. apply Forall_impl. intros b Hb.
  assert (inject_Z (Z.of_nat fuel) <= inject_Z (Z.of_nat fuel'))%Q
    by (rewrite <- Zle_Qle; lia).
  nra.
Qed.

(** Some fuel is always enough. *)
Lemma fuel_for_enough (delta : Q) (env : Env) (slides : list Slide) :
  (0 < delta)%Q -> enough (fuel_for delta env slides) delta env slides.
Proof.
  intros Hdelta. unfold enough, fuel_for.
  induction (flat_map (decoded env) slides) as [|b l IH]; [constructor|].
  cbn [map list_max fold_right]. constructor.
  - pose proof (frames_for_covers delta (buf_duration b) Hdelta) as Hc.
    assert (inject_Z (Z.of_nat (frames_for delta (buf_duration b)))
            <= inject_Z (Z.of_nat (Nat.max (frames_for delta (buf_duration b))
                                     (fold_right Nat.max 0%nat
                                        (map (fun b0 => frames_for delta (buf_duration b0)) l)))))%Q
      by (rewrite <- Zle_Qle; lia).
    nra.
  - revert IH. apply Forall_impl. intros a Ha.
    assert (inject_Z (Z.of_nat (list_max (map (fun b0 => frames_for delta (buf_duration b0)) l)))
            <= inject_Z (Z.of_nat (Nat.max (frames_for delta (buf_duration b))
                                     (fold_right Nat.max 0%nat
                                        (map (fun b0 => frames_for delta (buf_duration b0)) l)))))%Q
      by (rewrite <- Zle_Qle; unfold list_max; lia).
    nra.
Qed.

(** Whatever its outcome, a draw loop paints frame after frame of the
    same picture and nothing else, at least once when it starts before its
    end time. *)
Lemma draw_frames (env : Env) (img : Image) (endTime : Q) (fuel : nat) :
  forall s o s' t,
    draw fuel env img endTime s = (o, s', t) ->
    exists k, t = frames img k /\
              (Qle_bool endTime (currentTime s) = false -> fuel <> 0%nat -> (1 <= k)%nat).
Proof.
  induction fuel as [|fuel IH]; intros s o s' t H.
  - inversion H; subst. exists 0%nat. split; [reflexivity|]. intros _ C. now elim C.
  - rewrite draw_step in H.
    destruct (Qle_bool endTime (currentTime s)) eqn:Hle.
    + inversion H; subst. exists 0%nat. split; [reflexivity | discriminate].
    + destruct (placement img) as [[[x y] w] h] eqn:Hp.
      destruct (draw fuel env img endTime _) as [[o1 s1] t1] eqn:Hd.
      inversion H; subst. apply IH in Hd. destruct Hd as (k & -> & _).
      exists (S k). split; [|intros; lia].
      unfold frames, paint. rewrite Hp. reflexivity.
Qed.

(** The image of 1000 x 1064 pixels is drawn 2^-43 pixel above the frame,
    2^-42 pixel taller than the frame, and with sides that are not in the
    ratio 1000 : 1064. *)
Lemma C4_frame_fit_counterexample :
  exists x y drawW drawH : Q,
    placement (mkImage "page" 1000 1064)
    = (Doubles.Finite x, Doubles.Finite y, Doubles.Finite drawW, Doubles.Finite drawH) /\
    (y == - (1 # 8796093022208) /\ drawH == 1080 + (1 # 4398046511104) /\
     y < 0 /\ 1080 < drawH /\ 1080 < y + drawH /\
     ~ drawW * 1064 == drawH * 1000)%Q.
Proof.
  eexists _, _, _, _. split; [vm_compute; reflexivity|].
  repeat split; try (vm_compute; reflexivity).
  vm_compute. discriminate.
Qed.

(** C4: for every image of positive width [w] and height [h] (32-bit
    sizes), the placement drawn is [scale = min(1920/w, 1080/h)], size
    [(w*scale, h*scale)], offsets [x = (1920 - drawW)/2] and
    [y = (1080 - drawH)/2], each operation being the one of doubles: the
    five results are finite and each is within [2^-40] of the exact value of
    its formula.  Up to this rounding the drawn region keeps the image's
    aspect ratio, lies within the 1920x1080 frame, is centred (equal margins
    left and right, top and bottom) and fills the frame in one direction;
    and every frame a draw loop paints clears the 1920x1080 surface to black
    and then draws the image at exactly this placement. *)
Theorem C4_placement_letterbox (img : Image) :
  0 < img_width img < 2 ^ 32 -> 0 < img_height img < 2 ^ 32 ->
  let w := inject_Z (img_width img) in
  let h := inject_Z (img_height img) in
  let tol := (1 # 1099511627776)%Q in
  exists scale x y drawW drawH : Q,
    Doubles.Math_min (Doubles.div (Doubles.of_int 1920) (Doubles.of_int (img_width img)))
                     (Doubles.div (Doubles.of_int 1080) (Doubles.of_int (img_height img)))
    = Doubles.Finite scale /\
    Doubles.mul (Doubles.of_int (img_width img)) (Doubles.Finite scale)
    = Doubles.Finite drawW /\
    Doubles.mul (Doubles.of_int (img_height img)) (Doubles.Finite scale)
    = Doubles.Finite drawH /\
    Doubles.div (Doubles.sub (Doubles.of_int 1920) (Doubles.Finite drawW)) (Doubles.of_int 2)
    = Doubles.Finite x /\
    Doubles.div (Doubles.sub (Doubles.of_int 1080) (Doubles.Finite drawH)) (Doubles.of_int 2)
    = Doubles.Finite y /\
    placement img
    = (Doubles.Finite x, Doubles.Finite y, Doubles.Finite drawW, Doubles.Finite drawH) /\
    (Qabs (scale - Qmin (1920 / w) (1080 / h)) <= tol /\
     Qabs (drawW - w * scale) <= tol /\
     Qabs (drawH - h * scale) <= tol /\
     Qabs (x - (1920 - drawW) / 2) <= tol /\
     Qabs (y - (1080 - drawH) / 2) <= tol /\
     Qabs (drawW * h - drawH * w) <= (w + h) * tol /\
     - tol <= x /\ - tol <= y /\
     x + drawW <= 1920 + tol /\ y + drawH <= 1080 + tol /\
     0 <= drawW /\ 0 <= drawH /\
     Qabs (x - (1920 - (x + drawW))) <= tol /\
     Qabs (y - (1080 - (y + drawH))) <= tol /\
     (Qabs (drawW - 1920) <= tol \/ Qabs (drawH - 1080) <= tol))%Q /\
    forall fuel env endTime s o s' t,
      draw fuel env img endTime s = (o, s', t) ->
      exists k,
        t = List.concat
              (repeat [fillRect 0 0 1920 1080;
                       drawImage img (Doubles.Finite x) (Doubles.Finite y)
                         (Doubles.Finite drawW) (Doubles.Finite drawH);
                       requestAnimationFrame] k) /\
        (Qle_bool endTime (currentTime s) = false -> fuel <> 0%nat -> (1 <= k)%nat).
Proof.
  intros Hw Hh. cbv zeta.
  destruct (placement_geometry (img_width img) (img_height img) Hw Hh)
    as (scale & x & y & drawW & drawH & E1 & E2 & E3 & E4 & E5
        & Hs0 & HW0 & HH0 & Hmin & HdW & HdH & Hx & Hy & HWf & HHf & Hfill).
  cbv zeta in *.
  assert (Hp : placement img
               = (Doubles.Finite x, Doubles.Finite y,
                  Doubles.Finite drawW, Doubles.Finite drawH)).
  { unfold placement. change WIDTH with 1920. change HEIGHT with 1080.
    rewrite E1, E2, E3, E4, E5. reflexivity. }
  exists scale, x, y, drawW, drawH.
  do 5 (split; [assumption|]). split; [exact Hp|].
  assert (HWp : (1 <= inject_Z (img_width img))%Q)
    by (change 1%Q with (inject_Z 1); rewrite <- Zle_Qle; lia).
  assert (HHp : (1 <= inject_Z (img_height img))%Q)
    by (change 1%Q with (inject_Z 1); rewrite <- Zle_Qle; lia).
  set (W := inject_Z (img_width img)) in *. set (H := inject_Z (img_height img)) in *.
  split.
  - assert (Ex : ((1920 - drawW) / 2 == (1920 - drawW) * (1 # 2))%Q) by field.
    assert (Ey : ((1080 - drawH) / 2 == (1080 - drawH) * (1 # 2))%Q) by field.
    rewrite Ex, Ey.
    unfold rounding_step in *.
    generalize dependent (Qmin (1920 / W) (1080 / H)). intros m Hmin.
    assert (Haspect : (drawW * H - drawH * W
                       == (drawW - W * scale) * H - (drawH - H * scale) * W)%Q) by ring.
    repeat split; try (apply Qabs_Qle_condition; split); try lra.
    + rewrite Haspect. nra.
    + rewrite Haspect. nra.
    + destruct Hfill as [Hf | Hf]; [left | right]; apply Qabs_Qle_condition; split; lra.
  - intros fuel env endTime s o s' t Hrun.
    destruct (draw_frames env img endTime fuel s o s' t Hrun) as (k & Ht & Hk).
    exists k. split; [|exact Hk].
    rewrite Ht. unfold frames, paint. rewrite Hp. reflexivity.
Qed.

Lemma C4_placement_letterbox_witness :
  exists scale x y drawW drawH : Q,
    placement (mkImage "page" 1000 1064)
    = (Doubles.Finite x, Doubles.Finite y, Doubles.Finite drawW, Doubles.Finite drawH) /\
    (Qabs (scale - Qmin (1920 / 1000) (1080 / 1064)) <= (1 # 1099511627776) /\
     - (1 # 1099511627776) <= y /\ y + drawH <= 1080 + (1 # 1099511627776) /\
     Qabs (drawH - 1080) <= (1 # 1099511627776))%Q.
Proof.
  destruct (C4_placement_letterbox (mkImage "page" 1000 1064)) as
    (scale & x & y & drawW & drawH & _ & _ & _ & _ & _ & Hp & Hg & _);
    [split; reflexivity | split; reflexivity |].
  exists scale, x, y, drawW, drawH. split; [exact Hp|].
  destruct Hg as (Hs & _ & _ & _ & _ & _ & _ & Hy & _ & Hyh & _ & _ & _ & _ & Hfill).
  cbn [img_width img_height] in *.
  change (inject_Z 1000) with 1000%Q in *. change (inject_Z 1064) with 1064%Q in *.
  split; [exact Hs|]. split; [exact Hy|]. split; [exact Hyh|].
  vm_compute in Hp. injection Hp as _ _ _ <-. vm_compute. discriminate.
Defined.

(** *** Phases keep to their events *)

Lemma forallb_not_In (p : Event -> bool) (t : list Event) (e : Event) :
  forallb p t = true -> p e = false -> ~ In e t.
Proof.
  intros Hall He Hin. rewrite forallb_forall in Hall. apply Hall in Hin. congruence.
Qed.

Lemma acquire_quiet (t : list Event) :
  forallb acquire_event t = true -> progress_of t = [] /\ sources_of t = [].
Proof.
  induction t as [|e t IH]; [split; reflexivity|].
  cbn [forallb]. intros H. apply andb_prop in H. destruct H as (He & Ht).
  destruct (IH Ht) as (P & S).
  destruct e; try discriminate; cbn [progress_of sources_of flat_map app];
    split; assumption.
Qed.

Lemma loop_no_setup (t : list Event) :
  forallb loop_event t = true -> probes_of t = [] /\ recorders_of t = [].
Proof.
  induction t as [|e t IH]; [split; reflexivity|].
  cbn [forallb]. intros H. apply andb_prop in H. destruct H as (He & Ht).
  destruct (IH Ht) as (P & S).
  destruct e; try discriminate; cbn [probes_of recorders_of flat_map app];
    split; assumption.
Qed.

Lemma In_recorders_of (m : string) (b : Z) (t : list Event) :
  In (new_MediaRecorder m b) t -> In (m, b) (recorders_of t).
Proof.
  intros Hin. unfold recorders_of. apply in_flat_map.
  exists (new_MediaRecorder m b). split; [exact Hin | left; reflexivity].
Qed.

Lemma probes_of_app (a b : list Event) : probes_of (a ++ b) = probes_of a ++ probes_of b.
Proof. apply flat_map_app. Qed.

Lemma recorders_of_app (a b : list Event) :
  recorders_of (a ++ b) = recorders_of a ++ recorders_of b.
Proof. apply flat_map_app. Qed.

(** The outcome, final state and trace of a run, by cases on the acquisition
    and on the loop. *)
Lemma generateVideo_cases (fuel : nat) (env : Env) (slides : list Slide) :
  exists t0,
    forallb acquire_event t0 = true /\
    probes_of t0 = (if canvas_2d env then priority_probes env else []) /\
    ((setup_ready env = false /\ recorders_of t0 = [] /\
      exists e, generateVideo fuel env slides = (Rejected e, initial_state, t0))
     \/
     (setup_ready env = true /\
      recorders_of t0 = [(negotiated_mimeType env, BITRATE)] /\
      exists R o1 s1 t1,
        window_MediaRecorder env = Some R /\
        for_slides fuel env (List.length slides) 0 slides recording_state = (o1, s1, t1) /\
        forallb loop_event t1 = true /\ keeps recording_state s1 /\
        generateVideo fuel env slides
        = match o1 with
          | Resolved _ =>
              (Resolved (new_Blob (chunks (finished R (negotiated_mimeType env) s1))
                           (negotiated_mimeType env)),
               finished R (negotiated_mimeType env) s1,
               t0 ++ start_trace ++ t1 ++ finish_trace)
          | Rejected e => (Rejected e, s1, t0 ++ start_trace ++ t1)
          | Pending => (Pending, s1, t0 ++ start_trace ++ t1)
          end)).
Proof.
  destruct (generateVideo_anatomy fuel env slides) as (t0 & Ha & Hp & Hcases).
  exists t0. split; [exact Ha|]. split; [exact Hp|].
  destruct Hcases as [Hfail | (Hready & Hrec & R & HR & Hrun)]; [left; exact Hfail|].
  right. split; [exact Hready|]. split; [exact Hrec|].
  destruct (for_slides fuel env (List.length slides) 0 slides recording_state)
    as [[o1 s1] t1] eqn:Hloop.
  exists R, o1, s1, t1. split; [exact HR|]. split; [reflexivity|].
  destruct (for_slides_keeps _ _ _ _ _ _ _ _ _ Hloop) as (He & Hk).
  split; [exact He|]. split; [exact Hk|].
  rewrite Hrun. destruct o1 as [[]| |]; reflexivity.
Qed.

(** C3: for every runtime, the MIME type the code selects is 'video/mp4' if
    the runtime reports it, otherwise 'video/webm; codecs=h264' if the
    runtime reports that, otherwise 'video/webm; codecs=vp9'; the probes are
    made in that priority order (H.264 is asked only after MP4 was refused);
    every recorder constructed in a run is configured with the selected type
    (and 8,000,000 bits per second), and the blob of a run that resolves has
    the selected type. *)
Theorem C3_mime_negotiation (fuel : nat) (env : Env) (slides : list Slide) :
  (negotiated_mimeType env
   = if reports env "video/mp4" then "video/mp4"
     else if reports env "video/webm; codecs=h264" then "video/webm; codecs=h264"
     else "video/webm; codecs=vp9") /\
  (forall s, exists t,
      detect_mimeType env s = (Resolved (negotiated_mimeType env), s, t) /\
      probes_of t = priority_probes env) /\
  forall o s t,
    generateVideo fuel env slides = (o, s, t) ->
    probes_of t = (if canvas_2d env then priority_probes env else []) /\
    (forall m b, In (new_MediaRecorder m b) t ->
                 m = negotiated_mimeType env /\ b = 8000000) /\
    (forall blob, o = Resolved blob ->
                  blob_type blob = negotiated_mimeType env /\
                  recorders_of t = [(negotiated_mimeType env, 8000000)]).
Proof.
  split; [reflexivity|]. split.
  { intros s. destruct (detect_mimeType_run env s) as (t & Hrun & Hp & _).
    exists t. split; assumption. }
  intros o s t Hrun.
  destruct (generateVideo_cases fuel env slides)
    as (t0 & Ha & Hp & [(Hready & Hrec & e & Hfail)
                       | (Hready & Hrec & R & o1 & s1 & t1 & HR & Hloop & He & Hk & Hok)]).
  - rewrite Hfail in Hrun. inversion Hrun; subst. split; [exact Hp|]. split.
    + intros m b Hin. apply In_recorders_of in Hin. rewrite Hrec in Hin. destruct Hin.
    + discriminate.
  - destruct (loop_no_setup t1 He) as (Hp1 & Hr1).
    assert (Hprobes : forall post, probes_of post = [] ->
              probes_of (t0 ++ start_trace ++ t1 ++ post)
              = (if canvas_2d env then priority_probes env else [])).
    { intros post Hpost. rewrite !probes_of_app, Hp, Hp1, Hpost. cbn. apply app_nil_r. }
    assert (Hrecs : forall post, recorders_of post = [] ->
              recorders_of (t0 ++ start_trace ++ t1 ++ post)
              = [(negotiated_mimeType env, 8000000)]).
    { intros post Hpost. rewrite !recorders_of_app, Hrec, Hr1, Hpost. reflexivity. }
    rewrite Hok in Hrun.
    destruct o1 as [[] | e |];
      match type of Hrun with
      | (?o', ?s', ?t') = _ =>
          assert (Ho : o = o') by congruence;
          assert (Ht : t = t') by congruence;
          clear Hrun; subst o t
      end.
    + split; [apply Hprobes; reflexivity|]. split.
      * intros m b Hin. apply In_recorders_of in Hin.
        rewrite (Hrecs finish_trace eq_refl) in Hin.
        destruct Hin as [Heq | []]. inversion Heq. split; reflexivity.
      * intros blob Hb. injection Hb as <-. split; [reflexivity|].
        apply Hrecs. reflexivity.
    + rewrite <- (app_nil_r t1). split; [apply Hprobes; reflexivity|]. split.
      * intros m b Hin. apply In_recorders_of in Hin.
        rewrite (Hrecs [] eq_refl) in Hin.
        destruct Hin as [Heq | []]. inversion Heq. split; reflexivity.
      * discriminate.
    + rewrite <- (app_nil_r t1). split; [apply Hprobes; reflexivity|]. split.
      * intros m b Hin. apply In_recorders_of in Hin.
        rewrite (Hrecs [] eq_refl) in Hin.
        destruct Hin as [Heq | []]. inversion Heq. split; reflexivity.
      * discriminate.
Qed.

Lemma C3_mime_negotiation_witness :
  exists blob s t,
    generateVideo 10 Samples.browser Samples.deck = (Resolved blob, s, t) /\
    blob_type blob = "video/webm; codecs=h264" /\
    probes_of t = [("video/mp4", false); ("video/webm; codecs=h264", true)].
Proof.
  destruct (generateVideo 10 Samples.browser Samples.deck) as [[o s] t] eqn:Hrun.
  destruct (C3_mime_negotiation 10 Samples.browser Samples.deck) as (_ & _ & H).
  destruct (H o s t Hrun) as (Hp & _ & Hb).
  vm_compute in Hrun. inversion Hrun; subst.
  eexists _, _, _. split; [reflexivity|]. split.
  - apply (Hb _ eq_refl).
  - exact Hp.
Defined.

Lemma bind_ext {A B : Type} (m : M A) (f g : A -> M B) (s : State) :
  (forall a s', f a s' = g a s') -> bind m f s = bind m g s.
Proof.
  intros H. unfold bind. destruct (m s) as [[[a | e |] s1] t1]; try reflexivity.
  rewrite H. reflexivity.
Qed.

(** C5: the compositor never reads the slides' stored [duration]: two
    invocations on slide sequences that differ only in the [duration] fields
    have the same outcome, the same final state and the same trace (each
    slide's display time comes from the audio buffer decoded during the
    run). *)
Theorem C5_stored_duration_unread (fuel : nat) (env : Env) (a b : list Slide) :
  Forall2 same_but_duration a b ->
  generateVideo fuel env a = generateVideo fuel env b.
Proof.
  intros Hab. unfold generateVideo, generateVideo_body.
  rewrite (Forall2_length Hab).
  apply bind_ext. intros [R mimeType] s0.
  do 3 (apply bind_ext; intros _ ?s).
  unfold bind. rewrite (for_slides_same env fuel (List.length b) a b Hab). reflexivity.
Qed.

Lemma C5_stored_duration_unread_witness :
  generateVideo 10 Samples.browser Samples.deck
  = generateVideo 10 Samples.browser Samples.deck_other_durations.
Proof.
  apply C5_stored_duration_unread.
  repeat constructor.
Defined.



Lemma split_at_first (x : Event) (l1 l2 a b : list Event) :
  ~ In x l1 -> ~ In x l2 ->
  l1 ++ x :: l2 = a ++ x :: b -> a = l1.
Proof.
  revert a. induction l1 as [|y l1 IH]; intros a H1 H2 Heq.
  - destruct a as [|z a]; [reflexivity|].
    cbn in Heq. injection Heq as <- Heq. elim H2. rewrite Heq.
    apply in_or_app. right. left. reflexivity.
  - destruct a as [|z a].
    + cbn in Heq. injection Heq as -> _. elim H1. left. reflexivity.
    + cbn in Heq. injection Heq as <- Heq. f_equal. apply IH.
      * intros Hin. apply H1. right. exact Hin.
      * exact H2.
      * exact Heq.
Qed.

(** C7: in a run that resolves, the loop over the slides is followed by the
    500 ms timeout, then by the recorder's stop, then by the release of the
    resources; the clock advances by half a second between the end of the
    loop and the stop, and the recording ends with that half second of the
    last picture.  In every run, whatever its outcome, a [recorder.stop()]
    is directly preceded by the 500 ms timeout, and it happens only in runs
    that resolve. *)
Theorem C7_trailing_interval_before_stop (fuel : nat) (env : Env) (slides : list Slide) :
  forall o s t,
    generateVideo fuel env slides = (o, s, t) ->
    (forall blob, o = Resolved blob ->
       exists t0 s1 loop,
         for_slides fuel env (List.length slides) 0 slides recording_state
         = (Resolved tt, s1, loop) /\
         t = t0 ++ start_trace ++ loop
             ++ [setTimeout 500; recorder_stop; audioCtx_close;
                 tracks_stop combinedStream; tracks_stop canvasStream] /\
         ~ In recorder_stop (t0 ++ start_trace ++ loop) /\
         (currentTime s == currentTime s1 + (500 # 1000))%Q /\
         recorded s = recorded s1 ++ [mkSegment (canvas s1) (500 # 1000)] /\
         recorder_state s = inactive) /\
    (forall a b, t = a ++ recorder_stop :: b ->
       exists a', a = a' ++ [setTimeout 500]) /\
    (In recorder_stop t -> exists blob, o = Resolved blob).
Proof.
  intros o s t Hrun.
  destruct (generateVideo_cases fuel env slides)
    as (t0 & Ha & _ & [(_ & _ & e & Hfail)
                      | (_ & _ & R & o1 & s1 & t1 & _ & Hloop & He & Hk & Hok)]).
  - rewrite Hfail in Hrun. injection Hrun as <- <- <-.
    assert (Hno : ~ In recorder_stop t0) by (apply (forallb_not_In _ _ _ Ha); reflexivity).
    split; [discriminate|]. split.
    + intros a b Heq. elim Hno. rewrite Heq. apply in_or_app. right. left. reflexivity.
    + intros Hin. elim (Hno Hin).
  - assert (Hno : ~ In recorder_stop (t0 ++ start_trace ++ t1)).
    { intros Hin. apply in_app_or in Hin. destruct Hin as [Hin | Hin].
      - revert Hin. apply (forallb_not_In _ _ _ Ha). reflexivity.
      - apply in_app_or in Hin. destruct Hin as [[Hin | [Hin | []]] | Hin];
          try discriminate.
        revert Hin. apply (forallb_not_In _ _ _ He). reflexivity. }
    rewrite Hok in Hrun.
    destruct o1 as [[] | e |];
      match type of Hrun with
      | (?o', ?s', ?t') = _ =>
          assert (Ho : o = o') by congruence;
          assert (Hs : s = s') by congruence;
          assert (Ht : t = t') by congruence;
          clear Hrun; subst o s t
      end.
    + destruct Hk as (Hrs & _ & _).
      split; [|split].
      * intros blob _. exists t0, s1, t1. split; [exact Hloop|].
        split; [reflexivity|]. split; [exact Hno|].
        split; [reflexivity|]. split; [|reflexivity].
        unfold finished, advance. cbn [recorded recorder_state canvas].
        rewrite Hrs. reflexivity.
      * intros a b Heq. exists (t0 ++ start_trace ++ t1).
        apply (split_at_first recorder_stop
                 ((t0 ++ start_trace ++ t1) ++ [setTimeout 500])
                 [audioCtx_close; tracks_stop combinedStream; tracks_stop canvasStream]
                 a b).
        -- intros Hin. apply in_app_or in Hin. destruct Hin as [Hin | [Hin | []]];
             [exact (Hno Hin) | discriminate].
        -- intros [Hin | [Hin | [Hin | []]]]; discriminate.
        -- rewrite <- Heq. unfold finish_trace. rewrite <- !app_assoc. reflexivity.
      * intros _. eexists. reflexivity.
    + split; [discriminate|]. split.
      * intros a b Heq. elim Hno. rewrite Heq. apply in_or_app. right. left. reflexivity.
      * intros Hin. elim (Hno Hin).
    + split; [discriminate|]. split.
      * intros a b Heq. elim Hno. rewrite Heq. apply in_or_app. right. left. reflexivity.
      * intros Hin. elim (Hno Hin).
Qed.

Lemma C7_trailing_interval_before_stop_witness :
  exists blob s t a b,
    generateVideo 10 Samples.browser Samples.deck = (Resolved blob, s, t) /\
    t = (a ++ [setTimeout 500]) ++ recorder_stop :: b.
Proof.
  destruct (generateVideo 10 Samples.browser Samples.deck) as [[o s] t] eqn:Hrun.
  destruct (C7_trailing_interval_before_stop 10 Samples.browser Samples.deck o s t Hrun)
    as (Hres & _ & _).
  vm_compute in Hrun. injection Hrun as Ho Hs Ht.
  destruct (Hres _ (eq_sym Ho)) as (t0 & s1 & loop & _ & Hshape & _).
  exists (new_Blob (chunks s) "video/webm; codecs=h264"), s, t, (t0 ++ start_trace ++ loop),
    [audioCtx_close; tracks_stop combinedStream; tracks_stop canvasStream].
  split.
  - rewrite <- Ho. f_equal. f_equal. f_equal. rewrite <- Hs. reflexivity.
  - rewrite Hshape. rewrite <- !app_assoc. reflexivity.
Defined.

(** The progress messages of any run: those of the first [k] slides, each
    ahead of its slide's work; all of them when the run resolves, none when
    the acquisition fails. *)
Lemma progress_of_run (fuel : nat) (env : Env) (slides : list Slide) :
  forall o s t,
    generateVideo fuel env slides = (o, s, t) ->
    exists k pre loop post,
      (k <= List.length slides)%nat /\
      t = pre ++ loop ++ post /\
      progress_of pre = [] /\ progress_of post = [] /\
      slide_trace (List.length slides) 0 k loop /\
      progress_of t
      = map (fun i => progress_message i (List.length slides)) (seq 0 k) /\
      (forall blob, o = Resolved blob -> k = List.length slides).
Proof.
  intros o s t Hrun.
  destruct (generateVideo_cases fuel env slides)
    as (t0 & Ha & _ & [(_ & _ & e & Hfail)
                      | (_ & _ & R & o1 & s1 & t1 & _ & Hloop & He & Hk & Hok)]).
  - rewrite Hfail in Hrun. injection Hrun as <- <- <-.
    destruct (acquire_quiet t0 Ha) as (P & _).
    exists 0%nat, t0, [], []. split; [lia|]. rewrite !app_nil_r.
    split; [reflexivity|]. split; [exact P|]. split; [reflexivity|].
    split; [constructor|]. split; [exact P | discriminate].
  - destruct (acquire_quiet t0 Ha) as (P & _).
    destruct (for_slides_progress _ _ _ _ _ _ _ _ _ Hloop) as (k & Hle & Hst & Hall & _).
    assert (Hpre : progress_of (t0 ++ start_trace) = [])
      by (rewrite progress_of_app, P; reflexivity).
    assert (Hshape : forall post, progress_of post = [] ->
              progress_of ((t0 ++ start_trace) ++ t1 ++ post)
              = map (fun i => progress_message i (List.length slides)) (seq 0 k)).
    { intros post Hpost.
      rewrite !progress_of_app, P, Hpost, (slide_trace_progress _ _ _ _ Hst).
      cbn. apply app_nil_r. }
    rewrite Hok in Hrun.
    destruct o1 as [[] | e |];
      match type of Hrun with
      | (?o', ?s', ?t') = _ =>
          assert (Ho : o = o') by congruence;
          assert (Ht : t = t') by congruence;
          clear Hrun; subst o t
      end.
    + exists k, (t0 ++ start_trace), t1, finish_trace. split; [exact Hle|].
      split; [now rewrite <- !app_assoc|]. split; [exact Hpre|]. split; [reflexivity|].
      split; [exact Hst|]. split.
      * replace (t0 ++ start_trace ++ t1 ++ finish_trace)
          with ((t0 ++ start_trace) ++ t1 ++ finish_trace) by now rewrite <- !app_assoc.
        apply Hshape. reflexivity.
      * intros _ _. apply Hall. reflexivity.
    + exists k, (t0 ++ start_trace), t1, []. split; [exact Hle|].
      split; [now rewrite app_nil_r, <- !app_assoc|]. split; [exact Hpre|].
      split; [reflexivity|]. split; [exact Hst|]. split; [|discriminate].
      replace (t0 ++ start_trace ++ t1)
        with ((t0 ++ start_trace) ++ t1 ++ []) by now rewrite app_nil_r, <- !app_assoc.
      apply Hshape. reflexivity.
    + exists k, (t0 ++ start_trace), t1, []. split; [exact Hle|].
      split; [now rewrite app_nil_r, <- !app_assoc|]. split; [exact Hpre|].
      split; [reflexivity|]. split; [exact Hst|]. split; [|discriminate].
      replace (t0 ++ start_trace ++ t1)
        with ((t0 ++ start_trace) ++ t1 ++ []) by now rewrite app_nil_r, <- !app_assoc.
      apply Hshape. reflexivity.
Qed.

(** The text of a message: the decimal numerals of the index and of the
    total. *)
Lemma decimal_numeral (n : nat) : numeral (decimal n) n.
Proof.
  assert (Hn : Decimal.unorm (Nat.to_uint n) = Nat.to_uint n).
  { rewrite <- (DecimalNat.Unsigned.to_of (Nat.to_uint n)).
    rewrite DecimalNat.Unsigned.of_to. reflexivity. }
  exists (Nat.to_uint n). split; [|split; [exact Hn | apply DecimalNat.Unsigned.of_to]].
  assert (Hnil : Nat.to_uint n <> Decimal.Nil).
  { rewrite <- Hn. apply DecimalFacts.unorm_nonnil. }
  rewrite <- (NilZero.usu (Nat.to_uint n) Hnil). unfold decimal, NilZero.string_of_uint.
  destruct (Nat.to_uint n); [now elim Hnil | reflexivity ..].
Qed.

(** The loop's trace, slide by slide: the message of a slide, then the work
    for that slide, then the next slide. *)
Lemma for_slides_blocks (env : Env) (fuel total : nat) (rest : list Slide) :
  forall i s o s' t,
    for_slides fuel env total i rest s = (o, s', t) ->
    exists k, (k <= List.length rest)%nat /\
              slide_blocks env total i (firstn k rest) t /\
              (o = Resolved tt -> k = List.length rest) /\
              (o <> Resolved tt -> (0 < k)%nat).
Proof.
  induction rest as [|slide rest IH]; intros i s o s' t H.
  - inversion H; subst. exists 0%nat.
    split; [reflexivity|]. split; [constructor|]. split; [reflexivity|].
    intros C. now elim C.
  - slide_turn H.
    + destruct (draw_frames _ _ _ _ _ _ _ _ Hdraw) as (k3 & -> & _).
      apply IH in Hrest. destruct Hrest as (k & Hk & Hb & Hres & _).
      exists (S k). split; [cbn [List.length]; lia|]. split.
      * cbn [firstn].
        refine (blocks_cons env total i slide _ (_ :: _ :: _ :: frames img k3) t4 _ Hb).
        eapply work_played; eassumption.
      * split; [intros Ho; cbn [List.length]; f_equal; apply Hres, Ho | intros _; lia].
    + destruct (draw_frames _ _ _ _ _ _ _ _ Hdraw) as (k3 & -> & _).
      exists 1%nat. split; [cbn [List.length]; lia|]. split; [|split; [discriminate | intros _; lia]].
      cbn [firstn]. rewrite <- (app_nil_r (frames img k3)).
      refine (blocks_cons env total i slide [] (_ :: _ :: _ :: frames img k3) [] _ _);
        [eapply work_played; eassumption | constructor].
    + destruct (draw_frames _ _ _ _ _ _ _ _ Hdraw) as (k3 & -> & _).
      exists 1%nat. split; [cbn [List.length]; lia|]. split; [|split; [discriminate | intros _; lia]].
      cbn [firstn]. rewrite <- (app_nil_r (frames img k3)).
      refine (blocks_cons env total i slide [] (_ :: _ :: _ :: frames img k3) [] _ _);
        [eapply work_played; eassumption | constructor].
    + exists 1%nat. split; [cbn [List.length]; lia|]. split; [|split; [discriminate | intros _; lia]].
      cbn [firstn].
      refine (blocks_cons env total i slide [] [_; _] [] _ _);
        [eapply work_decode_failed; eassumption | constructor].
    + exists 1%nat. split; [cbn [List.length]; lia|]. split; [|split; [discriminate | intros _; lia]].
      cbn [firstn].
      refine (blocks_cons env total i slide [] [_] [] _ _);
        [eapply work_image_failed; eassumption | constructor].
    + apply IH in Hrest. destruct Hrest as (k & Hk & Hb & Hres & _).
      exists (S k). split; [cbn [List.length]; lia|]. split.
      * cbn [firstn].
        refine (blocks_cons env total i slide _ [] t4 _ Hb).
        apply work_skipped. exact Haudio.
      * split; [intros Ho; cbn [List.length]; f_equal; apply Hres, Ho | intros _; lia].
Qed.

Lemma slide_work_progress (env : Env) (slide : Slide) (work : list Event) :
  slide_work env slide work -> progress_of work = [].
Proof.
  intros [Ha | blob Ha Hi | blob img Ha Hi Hd | blob img buffer w k Ha Hi Hd];
    try reflexivity.
  cbn [progress_of flat_map app]. unfold frames, paint.
  destruct (placement img) as [[[x y] dw] dh].
  induction k as [|k IHk]; [reflexivity | exact IHk].
Qed.

Lemma slide_blocks_progress (env : Env) (total : nat) (l : list Slide) :
  forall i t,
    slide_blocks env total i l t ->
    progress_of t = map (fun j => progress_message j total) (seq i (List.length l)).
Proof.
  induction l as [|slide l IH]; intros i t Hb; inversion Hb; subst; [reflexivity|].
  cbn [progress_of flat_map app List.length seq map].
  fold (progress_of (work ++ t0)).
  rewrite progress_of_app, (slide_work_progress _ _ _ H2), (IH _ _ H4). reflexivity.
Qed.

(** A run aborted by its second slide has made two callbacks for three
    slides. *)
Lemma C8_aborted_run_counterexample :
  exists e s t,
    generateVideo 10 Samples.browser Samples.deck_bad_image = (Rejected e, s, t) /\
    List.length Samples.deck_bad_image = 3%nat /\
    List.length (progress_of t) = 2%nat.
Proof.
  eexists _, _, _. split; [vm_compute; reflexivity|]. split; reflexivity.
Qed.

(** C8: in every run, [onProgress] is invoked exactly once per slide that
    the run reaches (the first [k] slides of the input), in input order, each
    invocation ahead of any work for its slide and after the work for the
    slide before; nothing is done for a slide and no callback is made before
    the acquisition is over and the recorder started.  The message is the
    prefix followed by the decimal numerals of the 1-based index and of the
    total input count, separated by a slash.  Slides without audio get their
    message like the others.  A run that resolves reaches every slide, so
    the number of invocations is the length of the input; a run that rejects
    or does not settle has made the callbacks of the slides up to the one
    it stopped at, and none when the acquisition failed. *)
Theorem C8_progress_once_per_slide (fuel : nat) (env : Env) (slides : list Slide)
    (o : Outcome Blob) (s : State) (t : list Event) :
  generateVideo fuel env slides = (o, s, t) ->
  let n := List.length slides in
  exists k acquisition loop finish,
    (k <= n)%nat /\
    t = acquisition ++ loop ++ finish /\
    (exists t0, forallb acquire_event t0 = true /\
                (acquisition = t0 ++ start_trace \/
                 acquisition = t0 /\ loop = [] /\ finish = [])) /\
    (finish = [] \/ finish = finish_trace) /\
    slide_blocks env n 0 (firstn k slides) loop /\
    progress_of t = map (fun i => progress_message i n) (seq 0 k) /\
    List.length (progress_of t) = k /\
    (forall blob, o = Resolved blob -> k = n) /\
    (setup_ready env = false -> k = 0%nat) /\
    (setup_ready env = true -> (forall blob, o <> Resolved blob) -> (0 < k)%nat) /\
    (forall i, exists index total,
        progress_message i n = ("動画生成中... " ++ index ++ "/" ++ total)%string /\
        numeral index (i + 1) /\ numeral total n).
Proof.
  intros Hrun n.
  assert (Htext : forall i, exists index total,
             progress_message i n = ("動画生成中... " ++ index ++ "/" ++ total)%string /\
             numeral index (i + 1) /\ numeral total n).
  { intros i. exists (decimal (i + 1)), (decimal n).
    split; [reflexivity|]. split; apply decimal_numeral. }
  destruct (generateVideo_cases fuel env slides)
    as (t0 & Ha & _ & [(Hno & _ & e & Hfail)
                      | (Hyes & _ & R & o1 & s1 & t1 & _ & Hloop & He & Hk & Hok)]).
  - rewrite Hfail in Hrun. injection Hrun as <- <- <-.
    destruct (acquire_quiet t0 Ha) as (P & _).
    exists 0%nat, t0, [], []. split; [lia|]. rewrite !app_nil_r.
    split; [reflexivity|]. split; [exists t0; split; [exact Ha | right; auto]|].
    split; [left; reflexivity|]. split; [constructor|].
    split; [exact P|]. split; [rewrite P; reflexivity|]. split; [discriminate|].
    split; [reflexivity|]. split; [congruence | exact Htext].
  - destruct (acquire_quiet t0 Ha) as (P & _).
    destruct (for_slides_blocks _ _ _ _ _ _ _ _ _ Hloop) as (k & Hle & Hb & Hall & Hsome).
    fold n in Hle, Hb.
    assert (Hlen : List.length (firstn k slides) = k) by (apply firstn_length_le; exact Hle).
    pose proof (slide_blocks_progress _ _ _ _ _ Hb) as Hp. rewrite Hlen in Hp.
    assert (Hshape : forall post, progress_of post = [] ->
              progress_of ((t0 ++ start_trace) ++ t1 ++ post)
              = map (fun i => progress_message i n) (seq 0 k)).
    { intros post Hpost. rewrite !progress_of_app, P, Hpost, Hp. cbn. apply app_nil_r. }
    assert (Hcount : List.length (map (fun i => progress_message i n) (seq 0 k)) = k)
      by (rewrite length_map, length_seq; reflexivity).
    rewrite Hok in Hrun.
    destruct o1 as [[] | e |];
      match type of Hrun with
      | (?o', ?s', ?t') = _ =>
          assert (Ho : o = o') by congruence;
          assert (Ht : t = t') by congruence;
          clear Hrun; subst o t
      end.
    + exists k, (t0 ++ start_trace), t1, finish_trace. split; [exact Hle|].
      replace (t0 ++ start_trace ++ t1 ++ finish_trace)
        with ((t0 ++ start_trace) ++ t1 ++ finish_trace) by now rewrite <- !app_assoc.
      split; [reflexivity|]. split; [exists t0; split; [exact Ha | left; reflexivity]|].
      split; [right; reflexivity|]. split; [exact Hb|].
      rewrite (Hshape finish_trace eq_refl).
      split; [reflexivity|]. split; [exact Hcount|].
      split; [intros _ _; apply Hall; reflexivity|].
      split; [congruence|]. split; [|exact Htext].
      intros _ Hnot. now elim (Hnot _ eq_refl).
    + exists k, (t0 ++ start_trace), t1, []. split; [exact Hle|].
      replace (t0 ++ start_trace ++ t1)
        with ((t0 ++ start_trace) ++ t1 ++ []) by now rewrite app_nil_r, <- !app_assoc.
      split; [reflexivity|]. split; [exists t0; split; [exact Ha | left; reflexivity]|].
      split; [left; reflexivity|]. split; [exact Hb|].
      rewrite (Hshape [] eq_refl).
      split; [reflexivity|]. split; [exact Hcount|]. split; [discriminate|].
      split; [congruence|]. split; [|exact Htext].
      intros _ _. apply Hsome. discriminate.
    + exists k, (t0 ++ start_trace), t1, []. split; [exact Hle|].
      replace (t0 ++ start_trace ++ t1)
        with ((t0 ++ start_trace) ++ t1 ++ []) by now rewrite app_nil_r, <- !app_assoc.
      split; [reflexivity|]. split; [exists t0; split; [exact Ha | left; reflexivity]|].
      split; [left; reflexivity|]. split; [exact Hb|].
      rewrite (Hshape [] eq_refl).
      split; [reflexivity|]. split; [exact Hcount|]. split; [discriminate|].
      split; [congruence|]. split; [|exact Htext].
      intros _ _. apply Hsome. discriminate.
Qed.

Lemma C8_progress_once_per_slide_witness :
  exists blob s t,
    generateVideo 10 Samples.browser Samples.deck = (Resolved blob, s, t) /\
    progress_of t = ["動画生成中... 1/2"; "動画生成中... 2/2"].
Proof.
  destruct (generateVideo 10 Samples.browser Samples.deck) as [[o s] t] eqn:Hrun.
  assert (Ho : exists blob, o = Resolved blob)
    by (vm_compute in Hrun; injection Hrun as <- _ _; eexists; reflexivity).
  destruct Ho as (blob & ->).
  exists blob, s, t. split; [reflexivity|].
  destruct (C8_progress_once_per_slide 10 Samples.browser Samples.deck _ s t Hrun)
    as (k & acq & loop & fin & _ & _ & _ & _ & _ & Hp & _ & Hall & _).
  rewrite (Hall blob eq_refl) in Hp. rewrite Hp. reflexivity.
Defined.

(** When the runtime is complete, every slide loads and the frames keep
    coming, a run with enough fuel resolves. *)
Lemma generateVideo_resolves (env : Env) (delta : Q) (fuel : nat) (slides : list Slide) :
  setup_ready env = true ->
  forallb (loads env) slides = true ->
  (0 < delta)%Q ->
  (forall now, delta <= frame_delay env now)%Q ->
  enough fuel delta env slides ->
  exists blob s t, generateVideo (S fuel) env slides = (Resolved blob, s, t).
Proof.
  intros Hready Hloads Hdelta Hframe Hfuel.
  destruct (generateVideo_cases (S fuel) env slides)
    as (t0 & _ & _ & [(Hnot & _) | (_ & _ & R & o1 & s1 & t1 & _ & Hloop & _ & _ & Hok)]);
    [congruence|].
  destruct (for_slides_resolves env delta fuel (List.length slides) slides
              Hdelta Hframe Hloads Hfuel 0%nat recording_state) as (s' & t' & Hres).
  rewrite Hres in Hloop. injection Hloop as <- <- <-.
  rewrite Hok. eexists _, _, _. reflexivity.
Qed.

(** C9: in a runtime where lines 9-57 succeed, generateVideo on the empty
    slide sequence resolves, whatever the fuel: the blob holds what the
    recorder encodes for a recording of half a second of the black frame,
    the trace after the acquisition is start, black frame, 500 ms timeout,
    stop and release, and [onProgress] is never invoked. *)
Theorem C9_empty_deck_resolves (fuel : nat) (env : Env) :
  setup_ready env = true ->
  exists R t0,
    window_MediaRecorder env = Some R /\
    forallb acquire_event t0 = true /\
    let mimeType := negotiated_mimeType env in
    let recording := [mkSegment Black (500 # 1000)] in
    generateVideo fuel env []
    = (Resolved (new_Blob (kept (encode R mimeType recording)) mimeType),
       mkState (0 + (500 # 1000)) Black inactive recording
         (kept (encode R mimeType recording)),
       t0 ++ [recorder_start; fillRect 0 0 1920 1080; setTimeout 500; recorder_stop;
              audioCtx_close; tracks_stop combinedStream; tracks_stop canvasStream]) /\
    progress_of (t0 ++ [recorder_start; fillRect 0 0 1920 1080; setTimeout 500;
                        recorder_stop; audioCtx_close; tracks_stop combinedStream;
                        tracks_stop canvasStream]) = [].
Proof.
  intros Hready.
  destruct (generateVideo_cases fuel env [])
    as (t0 & Ha & _ & [(Hnot & _) | (_ & _ & R & o1 & s1 & t1 & HR & Hloop & _ & _ & Hok)]);
    [congruence|].
  exists R, t0. split; [exact HR|]. split; [exact Ha|]. cbv zeta.
  cbn [for_slides List.length] in Hloop. injection Hloop as <- <- <-.
  split; [exact Hok|].
  rewrite progress_of_app. destruct (acquire_quiet t0 Ha) as (-> & _). reflexivity.
Qed.

Lemma C9_empty_deck_resolves_witness :
  exists blob s t,
    generateVideo 0 Samples.browser [] = (Resolved blob, s, t) /\
    recorded s = [mkSegment Black (500 # 1000)] /\ progress_of t = [].
Proof.
  destruct (C9_empty_deck_resolves 0 Samples.browser eq_refl)
    as (R & t0 & _ & _ & Hrun & Hp).
  eexists _, _, _. split; [exact Hrun|]. split; [reflexivity | exact Hp].
Defined.

(** A draw loop that ends, entered before its end time, leaves at the first
    frame at or after it: less than one frame late. *)
Lemma draw_overshoot (env : Env) (img : Image) (endTime tick : Q) :
  (forall now, frame_delay env now <= tick)%Q ->
  forall fuel s s' t,
    draw fuel env img endTime s = (Resolved tt, s', t) ->
    (currentTime s < endTime)%Q ->
    (endTime <= currentTime s' < endTime + tick)%Q /\ t <> [].
Proof.
  intros Htick. induction fuel as [|fuel IH]; intros s s' t H Hbefore.
  - inversion H.
  - rewrite draw_step in H.
    destruct (Qle_bool endTime (currentTime s)) eqn:Hle.
    + apply Qle_bool_iff in Hle. lra.
    + destruct (placement img) as [[[x y] w] h].
      set (s1 := advance (frame_delay env (currentTime s)) (show (Drawn img x y w h) s)) in *.
      destruct (draw fuel env img endTime s1) as [[o2 s2] t2] eqn:Hnext.
      injection H as -> <- <-. split; [|discriminate].
      destruct (Qlt_le_dec (currentTime s1) endTime) as [Hstill | Hdone].
      * apply (IH s1 s2 t2 Hnext Hstill).
      * destruct fuel as [|fuel']; [inversion Hnext|].
        rewrite draw_step in Hnext.
        replace (Qle_bool endTime (currentTime s1)) with true in Hnext
          by (symmetry; apply Qle_bool_iff; exact Hdone).
        injection Hnext as <- _. subst s1. cbn [advance show currentTime] in *.
        specialize (Htick (currentTime s)). lra.
Qed.







(** C2, at a failing input: the image of slide 2 of 3 fails to load.  The
    promise rejects after the audio context, the captured streams and the
    recorder were acquired and the recorder was started; no
    [audioCtx.close()] and no track [stop()] is ever called, the recorder is
    not stopped and stays in state 'recording'. *)
Theorem C2_aborted_run_releases_nothing :
  exists s t,
    generateVideo 10 Samples.browser Samples.deck_bad_image
    = (Rejected (ImageLoadError "bad"), s, t) /\
    In new_AudioContext t /\ In (captureStream 30) t /\ In new_MediaStream t /\
    In recorder_start t /\
    filter release_event t = [] /\
    ~ In recorder_stop t /\
    recorder_state s = recording.
Proof.
  eexists _, _. split; [vm_compute; reflexivity|].
  split; [cbn; tauto|]. split; [cbn; tauto|]. split; [cbn; tauto|]. split; [cbn; tauto|].
  split; [reflexivity|]. split; [|reflexivity].
  intros Hin. repeat (destruct Hin as [Hin | Hin]; [discriminate|]). exact Hin.
Qed.

End CompositorProofs.

(** * Further properties *)

(** ** The WAV wrapper and generateSpeech *)

Section WavExtras.
Import AudioUtils.

Lemma charCode_range (c : ascii) : 0 <= charCode c < 256.
Proof.
  unfold charCode. pose proof (nat_ascii_bounded c) as H. lia.
Qed.

Lemma byte_of_0_ToUint8 (c : ascii) : byte_of 0 (ToUint8 (charCode c)) = charCode c.
Proof.
  pose proof (charCode_range c) as H. unfold byte_of, ToUint8.
  change (256 ^ 0) with 1. change (2 ^ 8) with 256.
  rewrite Z.div_1_r, Z.mod_mod by lia. apply Z.mod_small. exact H.
Qed.

Lemma ToUint8_charCodes (s : string) : map ToUint8 (charCodes s) = charCodes s.
Proof.
  unfold charCodes. rewrite map_map. apply map_ext. intros c.
  unfold ToUint8. change (2 ^ 8) with 256. apply Z.mod_small, charCode_range.
Qed.

Lemma byte_of_range (k v : Z) : 0 <= byte_of k v < 256.
Proof. unfold byte_of. apply Z.mod_pos_bound. reflexivity. Qed.

Lemma writeString_from_fits (cs : list ascii) :
  forall view offset,
    (offset + List.length cs <= List.length view)%nat ->
    writeString_from view offset cs
    = Ok (firstn offset view ++ map charCode cs ++ skipn (offset + List.length cs) view).
Proof.
  induction cs as [|c cs IH]; intros view offset Hfit.
  - cbn [writeString_from map List.length app]. rewrite Nat.add_0_r, firstn_skipn.
    reflexivity.
  - cbn [writeString_from List.length] in *. unfold setUint8, write_bytes.
    cbn [List.length]. replace (offset + 1 <=? List.length view)%nat with true
      by (symmetry; apply Nat.leb_le; lia).
    cbn [bind]. rewrite byte_of_0_ToUint8. rewrite IH.
    + f_equal. cbn [map app].
      assert (Hl : List.length (firstn offset view) = offset)
        by (apply firstn_length_le; lia).
      rewrite firstn_app, Hl, firstn_firstn, Nat.min_r by lia.
      replace (S offset - offset)%nat with 1%nat by lia.
      cbn [firstn app]. rewrite <- app_assoc. cbn [app]. f_equal. f_equal. f_equal.
      rewrite skipn_app, Hl.
      rewrite (skipn_all2 (firstn offset view)) by lia.
      cbn [app].
      replace (S offset + List.length cs - offset)%nat with (S (List.length cs)) by lia.
      cbn [skipn]. rewrite skipn_skipn. f_equal. lia.
    + rewrite length_app, firstn_length_le by lia. cbn [List.length app].
      rewrite length_skipn. lia.
Qed.

Lemma writeString_from_overflows (cs : list ascii) :
  forall view offset,
    cs <> [] ->
    (List.length view < offset + List.length cs)%nat ->
    writeString_from view offset cs = Throw RangeError.
Proof.
  induction cs as [|c cs IH]; intros view offset Hne Hover; [congruence|].
  cbn [writeString_from List.length] in *. unfold setUint8, write_bytes.
  cbn [List.length].
  destruct (offset + 1 <=? List.length view)%nat eqn:Hle; [|reflexivity].
  apply Nat.leb_le in Hle. cbn [bind].
  destruct cs as [|c' cs]; [cbn [List.length] in Hover; lia|].
  apply IH; [discriminate|].
  rewrite length_app, firstn_length_le by lia. cbn [List.length app].
  rewrite length_skipn. cbn [List.length] in *. lia.
Qed.

Lemma length_list_ascii (s : string) :
  List.length (list_ascii_of_string s) = String.length s.
Proof.
  induction s as [|c s IH]; cbn [list_ascii_of_string List.length String.length];
    [reflexivity | now rewrite IH].
Qed.

(** writeString writes the character codes in place when they fit, and
    throws RangeError when they do not. *)
Theorem writeString_in_place (view : list Z) (offset : nat) (s : string) :
  ((offset + String.length s <= List.length view)%nat ->
   writeString view offset s
   = Ok (firstn offset view ++ charCodes s ++ skipn (offset + String.length s) view)) /\
  (s <> EmptyString -> (List.length view < offset + String.length s)%nat ->
   writeString view offset s = Throw RangeError) /\
  writeString view offset EmptyString = Ok view.
Proof.
  unfold writeString, charCodes. rewrite <- length_list_ascii.
  split; [apply writeString_from_fits|]. split; [|reflexivity].
  intros Hne. apply writeString_from_overflows.
  destruct s; [congruence | discriminate].
Qed.

Lemma writeString_in_place_witness :
  writeString [1; 2; 3; 4; 5] 1 "ab" = Ok [1; 97; 98; 4; 5] /\
  writeString [1; 2; 3; 4; 5] 4 "ab" = Throw RangeError.
Proof.
  destruct (writeString_in_place [1; 2; 3; 4; 5] 1 "ab") as (Hfit & _ & _).
  destruct (writeString_in_place [1; 2; 3; 4; 5] 4 "ab") as (_ & Hover & _).
  split.
  - rewrite Hfit; [reflexivity | cbn; lia].
  - apply Hover; [discriminate | cbn; lia].
Defined.

(** createWavHeader never throws: for every data length and sample rate it
    returns 44 bytes, each in 0..255, whose 32-bit fields hold the values
    modulo 2^32. *)
Theorem createWavHeader_total (dataLength sampleRate : Z) :
  exists header,
    createWavHeader dataLength sampleRate = Ok header /\
    List.length header = 44%nat /\
    Forall (fun b => 0 <= b < 256) header /\
    read_u32 header 4 = (36 + dataLength) mod 2 ^ 32 /\
    read_u32 header 24 = sampleRate mod 2 ^ 32 /\
    read_u32 header 28 = (sampleRate * 2) mod 2 ^ 32 /\
    read_u32 header 40 = dataLength mod 2 ^ 32 /\
    read_u32 header 16 = 16 /\ read_u16 header 20 = 1 /\ read_u16 header 22 = 1 /\
    read_u16 header 32 = 2 /\ read_u16 header 34 = 16.
Proof.
  exists (wav_header dataLength sampleRate).
  split; [apply createWavHeader_layout|]. split; [reflexivity|].
  split.
  { unfold wav_header.
    repeat (constructor; [first [apply byte_of_range | split; [discriminate | reflexivity]]|]).
    constructor. }
  destruct (wav_header_fields dataLength sampleRate [])
    as (_ & Hsize & _ & _ & H16 & Hpcm & Hmono & Hrate & Hbyte & Halign & Hbits & _ & Hlen).
  rewrite app_nil_r in *.
  repeat split; assumption.
Qed.

(** pcmToWav fails exactly when atob does, whatever the sample rate; its
    result is the header followed by the decoded bytes, unchanged. *)
Theorem pcmToWav_payload (atob : string -> option string) (base64Pcm : string)
    (sampleRate : Z) :
  match atob base64Pcm with
  | None => pcmToWav atob base64Pcm sampleRate = Throw InvalidCharacterError
  | Some binaryString =>
      exists header,
        createWavHeader (Z.of_nat (String.length binaryString)) sampleRate = Ok header /\
        pcmToWav atob base64Pcm sampleRate
        = Ok (mkBlob (header ++ charCodes binaryString) "audio/wav") /\
        skipn 44 (header ++ charCodes binaryString) = charCodes binaryString /\
        firstn 44 (header ++ charCodes binaryString) = header
  end.
Proof.
  destruct (atob base64Pcm) as [bin|] eqn:Hatob.
  - exists (wav_header (Z.of_nat (String.length bin)) sampleRate).
    split; [apply createWavHeader_layout|].
    rewrite (pcmToWav_bytes atob base64Pcm bin sampleRate Hatob), ToUint8_charCodes.
    split; [reflexivity|]. split; reflexivity.
  - unfold pcmToWav. rewrite Hatob. reflexivity.
Qed.
Lemma pcmToWav_in_range (atob : string -> option string)
    (base64Pcm binaryString : string) (sampleRate : Z) :
  atob base64Pcm = Some binaryString ->
  0 <= sampleRate < 2 ^ 31 ->
  Z.of_nat (String.length binaryString) <= 2 ^ 32 - 37 ->
  exists blob,
    pcmToWav atob base64Pcm sampleRate = Ok blob /\
    wav_blob_spec blob (Z.of_nat (String.length binaryString)) sampleRate /\
    read_u32 (blob_bytes blob) 24 = sampleRate.
Proof.
  intros Hatob Hsr Hn. set (n := Z.of_nat (String.length binaryString)) in *.
  exists (mkBlob (wav_header n sampleRate ++ map ToUint8 (charCodes binaryString)) "audio/wav").
  split; [apply pcmToWav_bytes, Hatob|].
  destruct (wav_header_fields n sampleRate (map ToUint8 (charCodes binaryString)))
    as (_ & Hsize & _ & _ & _ & Hpcm & Hmono & Hrate & Hbyte & Halign & Hbits & _ & Hlen).
  cbn [blob_bytes blob_type].
  assert (Hn0 : 0 <= n) by apply Nat2Z.is_nonneg.
  change (2 ^ 31) with 2147483648 in Hsr. change (2 ^ 32) with 4294967296 in Hn.
  rewrite ToUint32_small in Hsize, Hlen, Hrate, Hbyte
    by (change (2 ^ 32) with 4294967296; lia).
  split; [|exact Hrate].
  unfold wav_blob_spec. cbn [blob_bytes blob_type].
  split; [reflexivity|]. split.
  { unfold blob_size. cbn [blob_bytes].
    rewrite length_app, length_map, length_charCodes. fold n.
    change (List.length (wav_header n sampleRate)) with 44%nat. lia. }
  repeat split; assumption.
Qed.
End WavExtras.

Section SpeechExtras.
Import AudioUtils GeminiService.

(** generateSpeech throws "No audio data returned" when the response has no
    or empty audio data, without decoding anything; otherwise its result is
    that of pcmToWav at 24000 Hz: a WAV blob that declares 24000 samples and
    48000 bytes per second. *)
Theorem generateSpeech_result_spec (atob : string -> option string) (data : option string) :
  ((data = None \/ data = Some EmptyString) ->
   generateSpeech_result atob data = Throw (ErrorMsg "No audio data returned")) /\
  (forall base64Audio binaryString,
      data = Some base64Audio -> base64Audio <> EmptyString ->
      atob base64Audio = Some binaryString ->
      Z.of_nat (String.length binaryString) <= 2 ^ 32 - 37 ->
      exists blob,
        generateSpeech_result atob data = Ok blob /\
        wav_blob_spec blob (Z.of_nat (String.length binaryString)) 24000 /\
        read_u32 (blob_bytes blob) 24 = 24000 /\
        read_u32 (blob_bytes blob) 28 = 48000) /\
  (forall base64Audio,
      data = Some base64Audio -> base64Audio <> EmptyString ->
      atob base64Audio = None ->
      generateSpeech_result atob data = Throw InvalidCharacterError).
Proof.
  split; [|split].
  - intros [-> | ->]; reflexivity.
  - intros base64Audio bin -> Hne Hatob Hlen. unfold generateSpeech_result.
    destruct (String.eqb_spec base64Audio EmptyString) as [Heq | _]; [congruence|].
    destruct (pcmToWav_in_range atob base64Audio bin 24000 Hatob)
      as (blob & Hrun & Hspec & Hrate); [split; [discriminate | reflexivity] | exact Hlen |].
    exists blob. split; [exact Hrun|]. split; [exact Hspec|]. split; [exact Hrate|].
    destruct Hspec as (_ & _ & _ & _ & _ & _ & _ & Hbyte & _). exact Hbyte.
  - intros base64Audio -> Hne Hatob. unfold generateSpeech_result.
    destruct (String.eqb_spec base64Audio EmptyString) as [Heq | _]; [congruence|].
    unfold pcmToWav. rewrite Hatob. reflexivity.
Qed.
Lemma generateSpeech_result_spec_witness :
  generateSpeech_result (fun _ => Some "abcd") (Some EmptyString)
  = Throw (ErrorMsg "No audio data returned") /\
  exists blob,
    generateSpeech_result (fun _ => Some "abcd") (Some "YWJjZA==") = Ok blob /\
    read_u32 (blob_bytes blob) 28 = 48000.
Proof.
  split.
  - destruct (generateSpeech_result_spec (fun _ => Some "abcd") (Some EmptyString))
      as (Hnone & _).
    apply Hnone. right. reflexivity.
  - destruct (generateSpeech_result_spec (fun _ => Some "abcd") (Some "YWJjZA=="))
      as (_ & Hsome & _).
    destruct (Hsome "YWJjZA==" "abcd" eq_refl) as (blob & Hrun & _ & _ & Hbyte);
      [discriminate | reflexivity | discriminate |].
    exists blob. split; [exact Hrun | exact Hbyte].
Defined.
End SpeechExtras.

(** ** The compositor *)

Section PlacementExtras.

Import Doubles VideoService.
Local Open Scope Q_scope.

Lemma fl_zero (x : Q) : x == 0 -> fl x = Finite 0.
Proof.
  intros Hx. unfold fl, round_to_double.
  replace (Qeq_bool x 0) with true by (symmetry; apply Qeq_bool_iff; exact Hx).
  reflexivity.
Qed.

(** An operation whose exact value is a 32-bit integer gives that integer. *)
Lemma fl_int (x : Q) (z : Z) :
  x == inject_Z z -> (0 <= z < 2 ^ 32)%Z -> exists r, fl x = Finite r /\ r == inject_Z z.
Proof.
  intros Hx Hz.
  destruct (of_int_exact z Hz) as (r & Hr & Er).
  exists (round_to_double x).
  assert (round_to_double x == inject_Z z) as E.
  { rewrite (round_to_double_comp _ _ Hx). apply round_to_double_int. lia. }
  split; [ | exact E ].
  unfold fl. cbv zeta.
  destruct (Qle_bool (2 ^ 1024) (Qabs (round_to_double x))) eqn:Hc; [ | reflexivity ].
  exfalso. apply Qle_bool_iff in Hc. rewrite E in Hc.
  change (Qabs (inject_Z z)) with (inject_Z (Z.abs z)) in Hc.
  assert (inject_Z (Z.abs z) < 2 ^ 1024); [ | lra ].
  rewrite <- (Zpower_Qpower 2) by lia. rewrite <- Zlt_Qlt.
  apply Z.lt_trans with (2 ^ 32)%Z; [ lia | reflexivity ].
Qed.

(** The side [F] of the frame, for an image side that is 0: the offset is
    half the side. *)
Lemma offset_of_nothing (F : Z) :
  (0 <= 2 * F < 2 ^ 32)%Z ->
  exists x, div (sub (of_int (2 * F)) (Finite 0)) (of_int 2) = Finite x /\ x == inject_Z F.
Proof.
  intros HF.
  destruct (of_int_exact (2 * F)) as (p & Ep & Qp); [ lia | ].
  destruct (of_int_exact 2) as (two & E2 & Q2); [ lia | ].
  change (inject_Z 2) with 2 in Q2.
  rewrite Ep, E2. unfold sub.
  destruct (fl_int (p - 0) (2 * F)) as (v & Ev & Qv); [ rewrite Qp; ring | lia | ].
  rewrite Ev. unfold div.
  replace (Qeq_bool two 0) with false
    by (symmetry; destruct (Qeq_bool two 0) eqn:H; [ apply Qeq_bool_iff in H; lra | reflexivity ]).
  apply fl_int; [ | lia ].
  rewrite Qv, Q2, inject_Z_mult. change (inject_Z 2) with 2. field.
Qed.

(** An image with an empty side: the quotient of the frame side by 0 is
    infinite and [Math.min] takes the other quotient, so the image is drawn
    with size 0 along its empty side, at the middle of the frame (960 or
    540), and fills the frame along the other side up to rounding.  For the
    image of size 0 x 0 the scale is infinite and all four numbers are
    NaN. *)
Theorem placement_of_empty_image (src : string) :
  (forall h, (0 < h < 2 ^ 32)%Z ->
     exists scale x y drawH : Q,
       div (of_int 1920) (of_int 0) = PlusInfinity /\
       div (of_int 1080) (of_int h) = Finite scale /\
       placement (mkImage src 0 h) = (Finite x, Finite y, Finite 0, Finite drawH) /\
       x == 960 /\
       Qabs (drawH - 1080) <= 1 # 1099511627776 /\ Qabs y <= 1 # 1099511627776) /\
  (forall w, (0 < w < 2 ^ 32)%Z ->
     exists scale x y drawW : Q,
       div (of_int 1920) (of_int w) = Finite scale /\
       div (of_int 1080) (of_int 0) = PlusInfinity /\
       placement (mkImage src w 0) = (Finite x, Finite y, Finite drawW, Finite 0) /\
       y == 540 /\
       Qabs (drawW - 1920) <= 1 # 1099511627776 /\ Qabs x <= 1 # 1099511627776) /\
  placement (mkImage src 0 0) = (NaN, NaN, NaN, NaN).
Proof.
  assert (Hinf : forall F, (0 < F < 2 ^ 32)%Z -> div (of_int F) (of_int 0) = PlusInfinity).
  { intros F HF. destruct (of_int_exact F) as (p & Ep & Qp); [ lia | ].
    rewrite Ep. change (of_int 0) with (fl (inject_Z 0)). rewrite (fl_zero (inject_Z 0)) by reflexivity.
    unfold div. change (Qeq_bool 0 0) with true. cbv iota.
    assert (0 < p) as Hp.
    { rewrite Qp. change 0 with (inject_Z 0). rewrite <- Zlt_Qlt. lia. }
    apply Qgt_alt in Hp. rewrite Hp. reflexivity. }
  assert (Hside : forall F h, (F = 1920 \/ F = 1080)%Z -> (0 < h < 2 ^ 32)%Z ->
            exists scale d y : Q,
              div (of_int F) (of_int h) = Finite scale /\
              mul (of_int 0) (Finite scale) = Finite 0 /\
              mul (of_int h) (Finite scale) = Finite d /\
              div (sub (of_int F) (Finite d)) (of_int 2) = Finite y /\
              Qabs (d - inject_Z F) <= 1 # 1099511627776 /\ Qabs y <= 1 # 1099511627776).
  { intros F h HF Hh.
    destruct (of_int_exact F) as (p & Ep & Qp); [ lia | ].
    destruct (of_int_exact 2) as (two & E2 & Q2); [ lia | ].
    destruct (of_int_exact h) as (qh & Eh & Qh); [ lia | ].
    change (inject_Z 2) with 2 in Q2.
    assert (1 <= inject_Z h <= 4294967296) as HH.
    { change 1 with (inject_Z 1). change 4294967296 with (inject_Z (2 ^ 32)).
      rewrite <- !Zle_Qle. lia. }
    assert (0 < inject_Z F <= 1920) as HFq.
    { destruct HF as [-> | ->]; split; try reflexivity; discriminate. }
    destruct (quotient_near p qh (inject_Z F) (inject_Z h) Qp Qh HFq HH)
      as (b & Eb & Hb0 & Hb & _).
    rewrite Ep, Eh, E2, Eb.
    assert (0 < rounding_step <= 1 # 4) as Hstep by (split; [ reflexivity | discriminate ]).
    destruct (product_near qh (inject_Z h) b Qh) as (d & Ed & Hd0 & Hd); [ nra | ].
    destruct (offset_near p two (inject_Z F) d Qp Q2 HFq) as (y & Ey & Hy); [ lra | ].
    exists b, d, y. split; [ reflexivity | ].
    split.
    { change (of_int 0) with (fl (inject_Z 0)). rewrite (fl_zero (inject_Z 0)) by reflexivity.
      unfold mul. apply fl_zero. ring. }
    split; [ exact Ed | ]. split; [ exact Ey | ].
    unfold rounding_step in *.
    split; apply Qabs_Qle_condition; split; lra. }
  split; [ | split ].
  - intros h Hh.
    destruct (Hside 1080%Z h (or_intror eq_refl) Hh) as (b & d & y & Eb & E0 & Ed & Ey & Hd & Hy).
    destruct (offset_of_nothing 960) as (x & Ex & Qx); [ lia | ].
    exists b, x, y, d.
    split; [ apply Hinf; lia | ]. split; [ exact Eb | ].
    split; [ | split; [ exact Qx | split; assumption ] ].
    unfold placement. cbn [img_width img_height]. change WIDTH with 1920%Z. change HEIGHT with 1080%Z.
    rewrite (Hinf 1920%Z) by lia. rewrite Eb. cbn [Math_min].
    rewrite E0, Ed, Ey. change 1920%Z with (2 * 960)%Z. rewrite Ex. reflexivity.
  - intros w Hw.
    destruct (Hside 1920%Z w (or_introl eq_refl) Hw) as (a & d & x & Ea & E0 & Ed & Ex & Hd & Hx).
    destruct (offset_of_nothing 540) as (y & Ey & Qy); [ lia | ].
    exists a, x, y, d.
    split; [ exact Ea | ]. split; [ apply Hinf; lia | ].
    split; [ | split; [ exact Qy | split; assumption ] ].
    unfold placement. cbn [img_width img_height]. change WIDTH with 1920%Z. change HEIGHT with 1080%Z.
    rewrite (Hinf 1080%Z) by lia. rewrite Ea. cbn [Math_min].
    rewrite E0, Ed, Ex. change 1080%Z with (2 * 540)%Z. rewrite Ey. reflexivity.
  - vm_compute. reflexivity.
Qed.

Lemma placement_of_empty_image_witness :
  exists x y drawH : Q,
    placement (mkImage "a" 0 600) = (Finite x, Finite y, Finite 0, Finite drawH) /\ x == 960.
Proof.
  destruct (placement_of_empty_image "a") as (Hw & _).
  destruct (Hw 600%Z) as (scale & x & y & drawH & _ & _ & Hp & Hx & _);
    [split; reflexivity|].
  exists x, y, drawH. split; assumption.
Defined.

End PlacementExtras.

Section CompositorExtras.
Import VideoService Timeline.

Ltac slide_cases H :=
  rewrite for_slides_step in H; cbv zeta in H;
  match type of H with
  | context [audioBlob ?slide] =>
      destruct (audioBlob slide) as [?blob|] eqn:?Haudio;
      [ destruct (image_at _ _) as [?img|] eqn:?Himg;
        [ destruct (decodeAudioData _ _) as [?buffer|] eqn:?Hdec;
          [ match type of H with
            | context [draw ?f ?e ?i ?t ?s] =>
                destruct (draw f e i t s) as [[[[] | ?e |] ?s3] ?t3] eqn:?Hdraw;
                [ match type of H with
                  | context [for_slides ?a ?b ?c ?d ?r ?st] =>
                      destruct (for_slides a b c d r st) as [[?o1 ?s4] ?t4] eqn:?Hrest
                  end | | ]
            end | ] | ]
      | match type of H with
        | context [for_slides ?a ?b ?c ?d ?r ?st] =>
            destruct (for_slides a b c d r st) as [[?o1 ?s4] ?t4] eqn:?Hrest
        end ]
  end;
  inversion H; subst; clear H.

Ltac steps :=
  repeat (cbv beta;
          first [ rewrite run_emit | rewrite run_get | rewrite run_put
                | rewrite run_ret | rewrite run_throw | rewrite run_elapse
                | rewrite run_set_canvas | rewrite run_fill_black
                | rewrite run_bind ]).

(** *** Liveness *)

(** In a complete runtime where every slide loads and every frame takes at
    least [delta > 0] seconds, a run resolves as soon as the draw loop may
    take [fuel_for delta env slides] frames, and with any more. *)
Theorem generateVideo_settles (env : Env) (delta : Q) (slides : list Slide) (fuel : nat) :
  setup_ready env = true ->
  forallb (loads env) slides = true ->
  (0 < delta)%Q ->
  (forall now, delta <= frame_delay env now)%Q ->
  (fuel_for delta env slides <= fuel)%nat ->
  exists blob s t, generateVideo (S fuel) env slides = (Resolved blob, s, t).
Proof.
  intros Hready Hloads Hdelta Hframe Hfuel.
  apply (generateVideo_resolves env delta fuel slides Hready Hloads Hdelta Hframe).
  apply (enough_more (fuel_for delta env slides) fuel delta env slides Hdelta Hfuel).
  apply fuel_for_enough, Hdelta.
Qed.

Lemma generateVideo_settles_witness :
  exists blob s t,
    generateVideo 5 Samples.browser Samples.deck = (Resolved blob, s, t).
Proof.
  apply (generateVideo_settles Samples.browser (1 # 2) Samples.deck 4).
  - reflexivity.
  - reflexivity.
  - reflexivity.
  - intros now. discriminate.
  - vm_compute. lia.
Defined.

(** *** A stuck clock *)

Lemma draw_stuck (env : Env) (img : Image) (endTime : Q) :
  (forall now, frame_delay env now == 0)%Q ->
  forall fuel s,
    (currentTime s < endTime)%Q ->
    exists s' t, draw fuel env img endTime s = (Pending, s', t).
Proof.
  intros Hzero. induction fuel as [|fuel IH]; intros s Hbefore.
  - eexists _, _. reflexivity.
  - rewrite draw_step.
    destruct (Qle_bool endTime (currentTime s)) eqn:Hle.
    + apply Qle_bool_iff in Hle. lra.
    + destruct (placement img) as [[[x y] w] h].
      edestruct (IH (advance (frame_delay env (currentTime s)) (show (Drawn img x y w h) s)))
        as (s' & t & Hrun).
      * cbn [advance show currentTime]. rewrite Hzero. lra.
      * rewrite Hrun. eexists _, _. reflexivity.
Qed.

(** When the audio clock does not advance between frames, a run whose first
    slide has audio that loads never settles, whatever the fuel: nothing
    times the draw loop out. *)
Theorem generateVideo_hangs_on_stuck_clock (env : Env) (fuel : nat)
    (slide : Slide) (rest : list Slide) (blob : Blob) :
  setup_ready env = true ->
  (forall now, frame_delay env now == 0)%Q ->
  audioBlob slide = Some blob ->
  loads env slide = true ->
  exists s t, generateVideo fuel env (slide :: rest) = (Pending, s, t) /\
              ~ In recorder_stop t /\ recorder_state s = recording.
Proof.
  intros Hready Hzero Haudio Hloads.
  destruct (generateVideo_cases fuel env (slide :: rest))
    as (t0 & Ha & _ & [(Hnot & _) | (_ & _ & R & o1 & s1 & t1 & _ & Hloop & He & Hk & Hok)]);
    [congruence|].
  rewrite for_slides_step in Hloop. cbv zeta in Hloop.
  unfold loads in Hloads. rewrite Haudio in Hloop, Hloads.
  destruct (image_at env (imageUrl slide)) as [img|]; [|discriminate].
  destruct (decodeAudioData env blob) as [buffer|]; [|discriminate].
  match type of Hloop with
  | context [draw ?f ?e ?i ?end_ ?s] =>
      destruct (draw_stuck e i end_ Hzero f s) as (s' & t' & Hstuck)
  end.
  { assert (0 < buf_duration buffer)%Q by reflexivity. lra. }
  rewrite Hstuck in Hloop. injection Hloop as <- <- <-.
  rewrite Hok. eexists _, _. split; [reflexivity|]. split.
  - intros Hin. apply in_app_or in Hin. destruct Hin as [Hin | Hin].
    + revert Hin. apply (forallb_not_In _ _ _ Ha). reflexivity.
    + apply in_app_or in Hin. destruct Hin as [[Hin | [Hin | []]] | Hin];
        try discriminate.
      revert Hin. apply (forallb_not_In _ _ _ He). reflexivity.
  - destruct Hk as (Hrs & _). exact Hrs.
Qed.

Lemma generateVideo_hangs_on_stuck_clock_witness :
  exists s t,
    generateVideo 50 MoreSamples.browser_stuck [Samples.slide_of "b" (Some Samples.wav) 2]
    = (Pending, s, t) /\ recorder_state s = recording.
Proof.
  destruct (generateVideo_hangs_on_stuck_clock MoreSamples.browser_stuck 50
              (Samples.slide_of "b" (Some Samples.wav) 2) [] Samples.wav)
    as (s & t & Hrun & _ & Hrec).
  - reflexivity.
  - intros now. reflexivity.
  - reflexivity.
  - reflexivity.
  - exists s, t. split; [exact Hrun | exact Hrec].
Defined.

(** *** Where a run aborts *)

Lemma for_slides_rejects_at (env : Env) (fuel total : nat) (rest : list Slide) :
  forall i s e s' t,
    for_slides fuel env total i rest s = (Rejected e, s', t) ->
    exists k,
      first_failure env i rest = Some (k, e) /\
      (i <= k < i + List.length rest)%nat /\
      progress_of t = map (fun j => progress_message j total) (seq i (S k - i)) /\
      sources_of t = flat_map (decoded env) (firstn (k - i) rest).
Proof.
  induction rest as [|slide rest IH]; intros i s e s' t H.
  - inversion H.
  - slide_cases H.
    + apply draw_facts in Hdraw. destruct Hdraw as ((_ & P & Hsrc) & _).
      apply IH in Hrest. destruct Hrest as (k & Hf & Hk & Hp & Hs).
      exists k. cbn [first_failure]. rewrite Haudio, Himg, Hdec.
      split; [exact Hf|]. split; [cbn [List.length]; lia|].
      replace (S k - i)%nat with (S (S k - S i)) by lia.
      replace (k - i)%nat with (S (k - S i)) by lia.
      cbn [seq map firstn flat_map app progress_of sources_of].
      fold (progress_of (t3 ++ t4)). fold (sources_of (t3 ++ t4)).
      rewrite progress_of_app, sources_of_app, P, Hsrc, Hp, Hs.
      unfold decoded at 2. rewrite Haudio, Hdec. split; reflexivity.
    + apply draw_facts in Hdraw. destruct Hdraw as (_ & _ & _ & Hnever).
      elim (Hnever e eq_refl).
    + exists i. cbn [first_failure]. rewrite Haudio, Himg, Hdec.
      split; [reflexivity|]. split; [cbn [List.length]; lia|].
      replace (S i - i)%nat with 1%nat by lia. rewrite Nat.sub_diag.
      split; reflexivity.
    + exists i. cbn [first_failure]. rewrite Haudio, Himg.
      split; [reflexivity|]. split; [cbn [List.length]; lia|].
      replace (S i - i)%nat with 1%nat by lia. rewrite Nat.sub_diag.
      split; reflexivity.
    + apply IH in Hrest. destruct Hrest as (k & Hf & Hk & Hp & Hs).
      exists k. cbn [first_failure]. rewrite Haudio.
      split; [exact Hf|]. split; [cbn [List.length]; lia|].
      replace (S k - i)%nat with (S (S k - S i)) by lia.
      replace (k - i)%nat with (S (k - S i)) by lia.
      cbn [seq map firstn flat_map app progress_of sources_of].
      fold (progress_of t4). fold (sources_of t4).
      rewrite Hp, Hs. unfold decoded at 2. rewrite Haudio. split; reflexivity.
Qed.

(** A run in a complete runtime rejects exactly at the first slide with audio
    whose image fails to load or whose audio fails to decode, with that
    failure's error; progress was reported for the slides up to and
    including it, and the audio of the slides before it was played. *)
Theorem generateVideo_rejects_at_first_failure (fuel : nat) (env : Env)
    (slides : list Slide) (e : Error) (s : State) (t : list Event) :
  setup_ready env = true ->
  generateVideo fuel env slides = (Rejected e, s, t) ->
  exists k,
    first_failure env 0 slides = Some (k, e) /\
    (k < List.length slides)%nat /\
    progress_of t
    = map (fun j => progress_message j (List.length slides)) (seq 0 (S k)) /\
    sources_of t = flat_map (decoded env) (firstn k slides).
Proof.
  intros Hready Hrun.
  destruct (generateVideo_cases fuel env slides)
    as (t0 & Ha & _ & [(Hnot & _) | (_ & _ & R & o1 & s1 & t1 & _ & Hloop & He & Hk & Hok)]);
    [congruence|].
  rewrite Hok in Hrun.
  destruct o1 as [[] | e1 |]; try discriminate.
  match type of Hrun with
  | (?o', ?s', ?t') = _ =>
      assert (Ho : Rejected e = o') by congruence;
      assert (Ht : t = t') by congruence;
      clear Hrun; subst t
  end.
  injection Ho as ->.
  destruct (for_slides_rejects_at _ _ _ _ _ _ _ _ _ Hloop) as (k & Hf & Hkr & Hp & Hs).
  destruct (acquire_quiet t0 Ha) as (P0 & S0).
  exists k. split; [exact Hf|]. split; [lia|].
  rewrite Nat.sub_0_r in Hp, Hs.
  rewrite !progress_of_app, !sources_of_app, P0, S0, Hp, Hs. split; reflexivity.
Qed.

Lemma generateVideo_rejects_at_first_failure_witness :
  exists s t,
    generateVideo 10 Samples.browser Samples.deck_bad_image
    = (Rejected (ImageLoadError "bad"), s, t) /\
    List.length (progress_of t) = 2%nat /\ List.length (sources_of t) = 1%nat.
Proof.
  destruct (generateVideo 10 Samples.browser Samples.deck_bad_image) as [[o s] t] eqn:Hrun.
  assert (Ho : o = Rejected (ImageLoadError "bad"))
    by (vm_compute in Hrun; injection Hrun as <- _ _; reflexivity).
  subst o. exists s, t. split; [reflexivity|].
  destruct (generateVideo_rejects_at_first_failure 10 Samples.browser
              Samples.deck_bad_image _ s t eq_refl Hrun) as (k & Hf & _ & Hp & Hs).
  vm_compute in Hf. injection Hf as <-. rewrite Hp, Hs. split; reflexivity.
Defined.

(** *** Release *)

Lemma setup_acquires (env : Env) (s : State) :
  forall R mimeType s' t,
    setup env s = (Resolved (R, mimeType), s', t) ->
    In new_AudioContext t /\ In createMediaStreamDestination t /\
    In (captureStream 30) t /\ In new_MediaStream t.
Proof.
  intros R mimeType s' t. unfold setup. steps.
  destruct (canvas_2d env); cbn [negb]; [|discriminate].
  destruct (detect_mimeType_run env s) as (t0 & Hrun & _).
  unfold bind at 1. rewrite Hrun.
  destruct (window_AudioContext env) as [[susp res]|]; [|discriminate].
  cbn [starts_suspended resume_succeeds].
  destruct susp, res, (canvas_captureStream env), (window_MediaStream env),
    (window_MediaRecorder env) as [R'|];
    try destruct (accepts R' (negotiated_mimeType env)) eqn:Hacc;
    steps; cbn [negb]; try rewrite Hacc; cbn [negb];
    try discriminate;
    intros H; injection H as _ _ _ <-;
    repeat split; cbn [In app]; rewrite ?in_app_iff; cbn [In]; tauto.
Qed.

Lemma filter_none (p q : Event -> bool) (t : list Event) :
  forallb p t = true -> (forall e, p e = true -> q e = false) -> filter q t = [].
Proof.
  intros Hall Hpq. induction t as [|e t IH]; [reflexivity|].
  cbn [forallb] in Hall. apply andb_prop in Hall. destruct Hall as (He & Ht).
  cbn [filter]. rewrite (Hpq e He). apply IH, Ht.
Qed.

Lemma acquire_not_release (e : Event) : acquire_event e = true -> release_event e = false.
Proof. destruct e; try discriminate; reflexivity. Qed.

Lemma loop_not_release (e : Event) : loop_event e = true -> release_event e = false.
Proof. destruct e; try discriminate; reflexivity. Qed.

Lemma generateVideo_trace_prefix (fuel : nat) (env : Env) (slides : list Slide) :
  forall o s t,
    generateVideo fuel env slides = (o, s, t) ->
    exists o0 t0 rest, setup env initial_state = (o0, initial_state, t0) /\ t = t0 ++ rest.
Proof.
  intros o s t. unfold generateVideo, generateVideo_body. unfold bind at 1.
  destruct (setup_facts env initial_state) as (o0 & t0 & Hs & _).
  rewrite Hs. destruct o0 as [[R mimeType] | e |].
  - match goal with
    | |- context [let (_, _) := ?run in _] => destruct run as [[o1 s1] t1]
    end.
    intros H. injection H as _ _ <-. exists (Resolved (R, mimeType)), t0, t1.
    split; reflexivity.
  - intros H. injection H as _ _ <-. exists (Rejected e), t0, []. split;
      [reflexivity | now rewrite app_nil_r].
  - intros H. injection H as _ _ <-. exists Pending, t0, []. split;
      [reflexivity | now rewrite app_nil_r].
Qed.

(** The audio context is closed and the tracks are stopped in the runs that
    resolve, and in no other: a run that rejects or stays pending after the
    acquisition holds the audio context, the streams and a recorder that is
    still recording, and releases none of them. *)
Theorem release_only_when_resolved (fuel : nat) (env : Env) (slides : list Slide)
    (o : Outcome Blob) (s : State) (t : list Event) :
  generateVideo fuel env slides = (o, s, t) ->
  ((exists blob, o = Resolved blob) ->
   filter release_event t
   = [audioCtx_close; tracks_stop combinedStream; tracks_stop canvasStream] /\
   recorder_state s = inactive) /\
  ((forall blob, o <> Resolved blob) ->
   filter release_event t = [] /\
   (setup_ready env = true ->
    In new_AudioContext t /\ In (captureStream 30) t /\ In new_MediaStream t /\
    In recorder_start t /\ recorder_state s = recording)).
Proof.
  intros Hrun.
  destruct (generateVideo_trace_prefix fuel env slides o s t Hrun)
    as (o0 & tp & restp & Hsetup & Hprefix).
  destruct (generateVideo_cases fuel env slides)
    as (t0 & Ha & _ & [(Hnot & _ & e & Hfail)
                      | (Hready & _ & R & o1 & s1 & t1 & _ & Hloop & He & Hk & Hok)]).
  - rewrite Hfail in Hrun. injection Hrun as <- <- <-.
    split; [intros (blob & Hb); discriminate|].
    intros _. split; [apply (filter_none _ _ _ Ha acquire_not_release)|].
    congruence.
  - assert (Hpre : filter release_event (t0 ++ start_trace ++ t1) = []).
    { rewrite !filter_app, (filter_none _ _ _ Ha acquire_not_release),
        (filter_none _ _ _ He loop_not_release). reflexivity. }
    assert (Hacq : In new_AudioContext t /\ In (captureStream 30) t /\ In new_MediaStream t).
    { destruct o0 as [[R0 m0] | e0 |].
      - destruct (setup_acquires env initial_state R0 m0 _ _ Hsetup) as (H1 & _ & H3 & H4).
        rewrite Hprefix, !in_app_iff. tauto.
      - destruct (setup_facts env initial_state) as (o' & t' & Hs' & _ & _ & Ho').
        rewrite Hsetup in Hs'. injection Hs' as <- <-. destruct Ho'. congruence.
      - destruct (setup_facts env initial_state) as (o' & t' & Hs' & _ & _ & Ho').
        rewrite Hsetup in Hs'. injection Hs' as <- <-. destruct Ho'. }
    destruct Hk as (Hrs & _).
    rewrite Hok in Hrun.
    destruct o1 as [[] | e1 |];
      match type of Hrun with
      | (?o', ?s', ?t') = _ =>
          assert (Ho : o = o') by congruence;
          assert (Hs : s = s') by congruence;
          assert (Ht : t = t') by congruence;
          clear Hrun
      end.
    + split.
      * intros _. split; [|rewrite Hs; reflexivity].
        rewrite Ht, !filter_app, (filter_none _ _ _ Ha acquire_not_release),
          (filter_none _ _ _ He loop_not_release). reflexivity.
      * intros Hnot. elim (Hnot _ Ho).
    + split; [intros (blob & Hb); congruence|].
      intros _. split; [rewrite Ht; exact Hpre|]. intros _.
      destruct Hacq as (H1 & H2 & H3). repeat split; try assumption.
      * rewrite Ht, !in_app_iff. right. left. left. reflexivity.
      * rewrite Hs. exact Hrs.
    + split; [intros (blob & Hb); congruence|].
      intros _. split; [rewrite Ht; exact Hpre|]. intros _.
      destruct Hacq as (H1 & H2 & H3). repeat split; try assumption.
      * rewrite Ht, !in_app_iff. right. left. left. reflexivity.
      * rewrite Hs. exact Hrs.
Qed.

Lemma release_only_when_resolved_witness :
  exists e s t,
    generateVideo 10 Samples.browser Samples.deck_bad_image = (Rejected e, s, t) /\
    filter release_event t = [] /\ In new_AudioContext t /\ recorder_state s = recording.
Proof.
  destruct (generateVideo 10 Samples.browser Samples.deck_bad_image) as [[o s] t] eqn:Hrun.
  assert (Ho : o = Rejected (ImageLoadError "bad"))
    by (vm_compute in Hrun; injection Hrun as <- _ _; reflexivity).
  subst o.
  destruct (release_only_when_resolved 10 Samples.browser Samples.deck_bad_image _ s t Hrun)
    as (_ & Hleak).
  destruct Hleak as (Hnone & Hheld); [discriminate|].
  destruct (Hheld eq_refl) as (Hctx & _ & _ & _ & Hrec).
  exists (ImageLoadError "bad"), s, t. repeat split; assumption.
Defined.

(** *** The soundtrack *)








(** *** How long an image stays *)

(** A draw loop entered before its end time (the sum computed at line 100)
    runs until the first animation frame at which the audio clock has
    reached that end time: it leaves at or after the end time and less than
    one frame after it (frames taking at most [tick] seconds), and it has
    painted at least one frame, every one of its frames being the black
    clear, the image at its placement and the request for the next frame. *)
Theorem draw_leaves_at_end_time (env : Env) (img : Image) (endTime tick : Q)
    (fuel : nat) (s s' : State) (t : list Event) :
  (forall now, frame_delay env now <= tick)%Q ->
  (currentTime s < endTime)%Q ->
  draw fuel env img endTime s = (Resolved tt, s', t) ->
  (endTime <= currentTime s' < endTime + tick)%Q /\
  exists k, (1 <= k)%nat /\ t = frames img k.
Proof.
  intros Htick Hbefore Hrun.
  destruct (draw_overshoot env img _ tick Htick fuel s s' t Hrun Hbefore) as (Hb & _).
  split; [exact Hb|].
  destruct (draw_frames env img endTime fuel s _ s' t Hrun) as (k & Ht & Hk).
  exists k. split; [|exact Ht]. apply Hk.
  - destruct (Qle_bool endTime (currentTime s)) eqn:Hle; [|reflexivity].
    apply Qle_bool_iff in Hle. lra.
  - intros ->. inversion Hrun.
Qed.

Lemma draw_leaves_at_end_time_witness :
  exists s' t,
    draw 10 Samples.browser (mkImage "a" 800 600) (3 # 10) (advance (1 # 10) recording_state)
    = (Resolved tt, s', t) /\
    (currentTime s' == 6 # 10)%Q /\ t = frames (mkImage "a" 800 600) 1.
Proof.
  destruct (draw 10 Samples.browser (mkImage "a" 800 600) (3 # 10)
              (advance (1 # 10) recording_state)) as [[o s'] t] eqn:Hrun.
  assert (Ho : o = Resolved tt)
    by (vm_compute in Hrun; injection Hrun as <- _ _; reflexivity).
  subst o.
  destruct (draw_leaves_at_end_time Samples.browser (mkImage "a" 800 600) (3 # 10) (1 # 2)
              10 (advance (1 # 10) recording_state) s' t) as (_ & k & _ & _);
    [intros; discriminate | reflexivity | exact Hrun |].
  exists s', t. split; [reflexivity|].
  vm_compute in Hrun. injection Hrun as <- <-. split; reflexivity.
Defined.

(** *** The blob *)

Lemma concat_kept (events : list (option Blob)) :
  List.concat (map blob_bytes (kept events)) = delivered events.
Proof.
  induction events as [|data events IH]; [reflexivity|].
  cbn [kept delivered flat_map]. fold (kept events). fold (delivered events).
  destruct data as [d|]; [|exact IH].
  unfold blob_size. destruct (blob_bytes d) as [|b bytes] eqn:Hd.
  - cbn. exact IH.
  - cbn [List.length]. replace (0 <? Z.of_nat (S (List.length bytes))) with true
      by (symmetry; apply Z.ltb_lt; lia).
    cbn [app map List.concat]. rewrite Hd, IH. reflexivity.
Qed.

Lemma kept_nonempty (events : list (option Blob)) :
  Forall (fun c => 0 < blob_size c) (kept events).
Proof.
  induction events as [|data events IH]; [constructor|].
  cbn [kept flat_map]. fold (kept events).
  destruct data as [d|]; [|exact IH].
  destruct (0 <? blob_size d) eqn:Hsz; [|exact IH].
  cbn [app]. constructor; [apply Z.ltb_lt, Hsz | exact IH].
Qed.

(** The blob of a run that resolves holds, in order, all the bytes the
    recorder delivered for the recording, under the negotiated type: the
    chunks dropped by [ondataavailable] (no data, or size 0) carry no
    byte. *)
Theorem blob_holds_delivered_data (fuel : nat) (env : Env) (slides : list Slide)
    (blob : Blob) (s : State) (t : list Event) :
  generateVideo fuel env slides = (Resolved blob, s, t) ->
  exists R,
    window_MediaRecorder env = Some R /\
    blob_bytes blob = delivered (encode R (negotiated_mimeType env) (recorded s)) /\
    blob_type blob = negotiated_mimeType env /\
    chunks s = kept (encode R (negotiated_mimeType env) (recorded s)) /\
    Forall (fun c => 0 < blob_size c) (chunks s).
Proof.
  intros Hrun.
  destruct (generateVideo_cases fuel env slides)
    as (t0 & Ha & _ & [(_ & _ & e & Hfail)
                      | (_ & _ & R & o1 & s1 & t1 & HR & Hloop & He & Hk & Hok)]).
  - rewrite Hfail in Hrun. discriminate.
  - rewrite Hok in Hrun. destruct o1 as [[] | e1 |]; try discriminate.
    match type of Hrun with
    | (?o', ?s', ?t') = _ =>
        assert (Ho : Resolved blob = o') by congruence;
        assert (Hs : s = s') by congruence; clear Hrun
    end.
    injection Ho as ->. subst s.
    destruct Hk as (_ & Hch & _). cbn [recording_state chunks] in Hch.
    exists R. split; [exact HR|].
    assert (Hchunks : chunks (finished R (negotiated_mimeType env) s1)
                      = kept (encode R (negotiated_mimeType env)
                                (recorded (finished R (negotiated_mimeType env) s1)))).
    { unfold finished. cbn [chunks recorded advance]. rewrite Hch. reflexivity. }
    split; [|split; [reflexivity|split; [exact Hchunks|]]].
    + change (List.concat (map blob_bytes (chunks (finished R (negotiated_mimeType env) s1)))
              = delivered (encode R (negotiated_mimeType env)
                             (recorded (finished R (negotiated_mimeType env) s1)))).
      rewrite Hchunks. apply concat_kept.
    + rewrite Hchunks. apply kept_nonempty.
Qed.

Lemma blob_holds_delivered_data_witness :
  exists blob s t,
    generateVideo 10 Samples.browser Samples.deck = (Resolved blob, s, t) /\
    blob_bytes blob = delivered (encode Samples.recorder_h264 "video/webm; codecs=h264"
                                   (recorded s)).
Proof.
  destruct (generateVideo 10 Samples.browser Samples.deck) as [[o s] t] eqn:Hrun.
  assert (Ho : exists blob, o = Resolved blob)
    by (vm_compute in Hrun; injection Hrun as <- _ _; eexists; reflexivity).
  destruct Ho as (blob & ->). exists blob, s, t. split; [reflexivity|].
  destruct (blob_holds_delivered_data 10 Samples.browser Samples.deck blob s t Hrun)
    as (R & HR & Hbytes & _).
  injection HR as <-. exact Hbytes.
Defined.
End CompositorExtras.

(** ** The slide list of App.tsx *)

Section SlideList.
Import VideoService App.

(** *** Mapping with the index *)

Lemma length_mapi_from {A B : Type} (f : A -> nat -> B) (l : list A) :
  forall i, List.length (mapi_from f i l) = List.length l.
Proof. induction l as [|a l IH]; intros i; cbn; [reflexivity | now rewrite IH]. Qed.

Lemma nth_error_mapi_from {A B : Type} (f : A -> nat -> B) (l : list A) :
  forall i k, nth_error (mapi_from f i l) k
              = option_map (fun a => f a (i + k)%nat) (nth_error l k).
Proof.
  induction l as [|a l IH]; intros i k.
  - destruct k; reflexivity.
  - destruct k as [|k]; cbn [mapi_from nth_error option_map].
    + now rewrite Nat.add_0_r.
    + rewrite IH. now replace (S i + k)%nat with (i + S k)%nat by lia.
Qed.

Lemma mapi_from_app {A B : Type} (f : A -> nat -> B) (l1 l2 : list A) :
  forall i, mapi_from f i (l1 ++ l2)
            = mapi_from f i l1 ++ mapi_from f (i + List.length l1) l2.
Proof.
  induction l1 as [|a l1 IH]; intros i; cbn [mapi_from app List.length].
  - now rewrite Nat.add_0_r.
  - rewrite IH. now replace (S i + List.length l1)%nat with (i + S (List.length l1))%nat by lia.
Qed.

Lemma set_pageIndex_twice (i j : Z) (s : Slide) :
  set_pageIndex i (set_pageIndex j s) = set_pageIndex i s.
Proof. reflexivity. Qed.

Lemma set_pageIndex_same (s : Slide) : set_pageIndex (pageIndex s) s = s.
Proof. destruct s; reflexivity. Qed.

Lemma same_but_pageIndex_set (i : Z) (s : Slide) : same_but_pageIndex s (set_pageIndex i s).
Proof. reflexivity. Qed.

Lemma same_but_pageIndex_at (i : Z) (a b : Slide) :
  same_but_pageIndex a b -> set_pageIndex i a = set_pageIndex i b.
Proof.
  unfold same_but_pageIndex. intros H.
  rewrite <- (set_pageIndex_twice i 0 a), <- (set_pageIndex_twice i 0 b). now rewrite H.
Qed.

Lemma same_but_pageIndex_id (a b : Slide) : same_but_pageIndex a b -> id a = id b.
Proof. unfold same_but_pageIndex. intros H. apply (f_equal id) in H. exact H. Qed.

Lemma reindex_from_same (l l' : list Slide) :
  Forall2 same_but_pageIndex l l' ->
  forall i, mapi_from (fun s k => set_pageIndex (Z.of_nat k) s) i l
            = mapi_from (fun s k => set_pageIndex (Z.of_nat k) s) i l'.
Proof.
  induction 1 as [|a b l l' Hab _ IH]; intros i; [reflexivity|].
  cbn [mapi_from]. rewrite (same_but_pageIndex_at _ a b Hab), IH. reflexivity.
Qed.

Lemma reindex_from_related (l : list Slide) :
  forall i, Forall2 same_but_pageIndex l
              (mapi_from (fun s k => set_pageIndex (Z.of_nat k) s) i l).
Proof.
  induction l as [|a l IH]; intros i; cbn [mapi_from]; constructor.
  - apply same_but_pageIndex_set.
  - apply IH.
Qed.

Lemma reindex_indexed (l : list Slide) : indexed (reindexSlides l).
Proof.
  intros i s. unfold reindexSlides. rewrite nth_error_mapi_from.
  destruct (nth_error l i) as [a|]; [|discriminate].
  cbn [option_map]. intros H. injection H as <-. reflexivity.
Qed.

Lemma indexed_tail_fixed (l : list Slide) :
  forall i,
    (forall k s, nth_error l k = Some s -> pageIndex s = Z.of_nat (i + k)) ->
    mapi_from (fun s k => set_pageIndex (Z.of_nat k) s) i l = l.
Proof.
  induction l as [|a l IH]; intros i H; [reflexivity|].
  cbn [mapi_from]. f_equal.
  - rewrite <- (Nat.add_0_r i), <- (H 0%nat a eq_refl). apply set_pageIndex_same.
  - apply IH. intros k s Hk. rewrite (H (S k) s Hk). f_equal. lia.
Qed.

(** reindexSlides numbers the slides by position and changes nothing else;
    a list that is already numbered is left as it is. *)
Theorem reindexSlides_numbers_by_position (l : list Slide) :
  List.length (reindexSlides l) = List.length l /\
  indexed (reindexSlides l) /\
  Forall2 same_but_pageIndex l (reindexSlides l) /\
  (indexed l -> reindexSlides l = l) /\
  reindexSlides (reindexSlides l) = reindexSlides l.
Proof.
  split; [apply length_mapi_from|]. split; [apply reindex_indexed|].
  split; [apply reindex_from_related|]. split.
  - intros H. apply indexed_tail_fixed. exact H.
  - apply indexed_tail_fixed. apply reindex_indexed.
Qed.

Lemma reindexSlides_numbers_by_position_witness :
  reindexSlides MoreSamples.two_pending = MoreSamples.two_pending.
Proof.
  destruct (reindexSlides_numbers_by_position MoreSamples.two_pending)
    as (_ & _ & _ & Hfixed & _).
  apply Hfixed.
  intros [|[|[|k]]] s H; cbn in H; try discriminate; injection H as <-; reflexivity.
Defined.

(** *** Deleting *)

Lemma find_none_filter (id0 : string) (l : list Slide) :
  find (has_id id0) l = None -> filter (fun s => negb (has_id id0 s)) l = l.
Proof.
  induction l as [|a l IH]; [reflexivity|].
  cbn [find filter]. destruct (has_id id0 a); [discriminate|].
  intros H. cbn [negb]. now rewrite IH.
Qed.

(** Deleting removes every slide with the id and renumbers the rest, which
    keep their order.  It revokes the URLs of the first slide with the id:
    its image URL, followed by its audio URL when it has one that is not
    empty, and no other; when no slide has the id it revokes nothing and the
    list only gets renumbered. *)
Theorem handleDeleteSlide_removes (id0 : string) (prev : list Slide) :
  let kept_slides := filter (fun s => negb (has_id id0 s)) prev in
  let next := snd (handleDeleteSlide id0 prev) in
  let revoked := fst (handleDeleteSlide id0 prev) in
  indexed next /\
  Forall2 same_but_pageIndex kept_slides next /\
  (forall s, In s next -> id s <> id0) /\
  (List.length next <= List.length prev)%nat /\
  (find (has_id id0) prev = None ->
   handleDeleteSlide id0 prev = ([], reindexSlides prev)) /\
  (forall slide, find (has_id id0) prev = Some slide ->
     id slide = id0 /\ In slide prev /\
     (List.length next < List.length prev)%nat /\
     (audioUrl slide = None -> revoked = [imageUrl slide]) /\
     (audioUrl slide = Some EmptyString -> revoked = [imageUrl slide]) /\
     (forall url, audioUrl slide = Some url -> url <> EmptyString ->
                  revoked = [imageUrl slide; url])).
Proof.
  cbv zeta. unfold handleDeleteSlide. cbn [snd fst].
  set (kept_slides := filter (fun s => negb (has_id id0 s)) prev).
  assert (Hrel : Forall2 same_but_pageIndex kept_slides
                   (mapi_from (fun s i => set_pageIndex (Z.of_nat i) s) 0 kept_slides))
    by apply reindex_from_related.
  split; [apply (reindex_indexed kept_slides)|]. split; [exact Hrel|].
  split.
  { intros s Hin.
    destruct (In_nth_error _ _ Hin) as (k & Hk). rewrite nth_error_mapi_from in Hk.
    destruct (nth_error kept_slides k) as [a|] eqn:Ha; [|discriminate].
    cbn [option_map] in Hk. injection Hk as <-. cbn [set_pageIndex id].
    apply nth_error_In in Ha. apply filter_In in Ha. destruct Ha as (_ & Ha).
    unfold has_id in Ha. intros Heq. rewrite Heq, String.eqb_refl in Ha. discriminate. }
  split.
  { rewrite length_mapi_from. apply filter_length_le. }
  split.
  { intros Hnone. rewrite Hnone. unfold kept_slides. rewrite (find_none_filter _ _ Hnone).
    reflexivity. }
  intros slide Hsome. rewrite Hsome.
  destruct (find_some _ _ Hsome) as (Hin & Hid).
  split; [apply String.eqb_eq, Hid|]. split; [exact Hin|]. split.
  { rewrite length_mapi_from. unfold kept_slides.
    clear -Hin Hid. induction prev as [|a prev IH]; [destruct Hin|].
    cbn [filter List.length]. destruct Hin as [-> | Hin].
    - rewrite Hid. cbn [negb]. pose proof (filter_length_le (fun s => negb (has_id id0 s)) prev).
      lia.
    - specialize (IH Hin). destruct (negb (has_id id0 a)); cbn [List.length]; lia. }
  split; [intros ->; reflexivity|]. split; [intros ->; reflexivity|].
  intros url -> Hurl. apply String.eqb_neq in Hurl. rewrite Hurl. reflexivity.
Qed.

Lemma handleDeleteSlide_removes_witness :
  handleDeleteSlide "x" [Samples.slide_of "a" None 0]
  = ([], reindexSlides [Samples.slide_of "a" None 0]) /\
  fst (handleDeleteSlide "slide-b" MoreSamples.narrated_deck) = ["b"; "blob:b"] /\
  map id (snd (handleDeleteSlide "slide-b" MoreSamples.narrated_deck)) = ["slide-a"; "slide-c"].
Proof.
  split.
  - destruct (handleDeleteSlide_removes "x" [Samples.slide_of "a" None 0])
      as (_ & _ & _ & _ & Hnone & _).
    apply Hnone. reflexivity.
  - destruct (handleDeleteSlide_removes "slide-b" MoreSamples.narrated_deck)
      as (_ & _ & _ & _ & _ & Hfound).
    destruct (Hfound (mkSlide "slide-b" 1 Samples.wav "b" "two" (Some Samples.wav)
                        (Some "blob:b") 2 false ready) eq_refl)
      as (_ & _ & _ & _ & _ & Hurl).
    split; [apply Hurl; [reflexivity | discriminate] | reflexivity].
Defined.

(** *** Inserting *)

Lemma splice_insert_in_range {A : Type} (index : nat) (x : A) (l : list A) :
  (index <= List.length l)%nat ->
  splice_insert (Z.of_nat index) x l = firstn index l ++ x :: skipn index l.
Proof.
  intros Hle. unfold splice_insert.
  replace (Z.of_nat index <? 0) with false by (symmetry; apply Z.ltb_ge; lia).
  rewrite Z.min_l by lia. rewrite Nat2Z.id. reflexivity.
Qed.

(** Inserting at a position within the list puts the new slide there, keeps
    the slides before it in place and moves the later ones one further,
    and renumbers: the list grows by one and every pageIndex is the
    position, the new slide's included. *)
Theorem handleInsertSlide_at_position (index : nat) (newSlide : Slide) (prev : list Slide) :
  (index <= List.length prev)%nat ->
  let next := handleInsertSlide (Z.of_nat index) newSlide prev in
  List.length next = S (List.length prev) /\
  indexed next /\
  nth_error next index = Some (set_pageIndex (Z.of_nat index) newSlide) /\
  Forall2 same_but_pageIndex (firstn index prev ++ newSlide :: skipn index prev) next /\
  (forall k s, (k < index)%nat -> nth_error prev k = Some s ->
               nth_error next k = Some (set_pageIndex (Z.of_nat k) s)) /\
  (forall k s, (index <= k)%nat -> nth_error prev k = Some s ->
               nth_error next (S k) = Some (set_pageIndex (Z.of_nat (S k)) s)).
Proof.
  intros Hle. cbv zeta. unfold handleInsertSlide.
  rewrite (splice_insert_in_range index newSlide prev Hle).
  assert (Hlen : List.length (firstn index prev) = index) by (apply firstn_length_le, Hle).
  split.
  { unfold reindexSlides. rewrite length_mapi_from, length_app. cbn [List.length].
    rewrite Hlen, length_skipn. lia. }
  split; [apply reindex_indexed|]. split.
  { unfold reindexSlides. rewrite nth_error_mapi_from.
    rewrite nth_error_app2 by lia. rewrite Hlen, Nat.sub_diag. reflexivity. }
  split; [apply reindex_from_related|]. split.
  - intros k s Hk Hs. unfold reindexSlides. rewrite nth_error_mapi_from.
    rewrite nth_error_app1 by lia. rewrite nth_error_firstn.
    replace (k <? index)%nat with true by (symmetry; apply Nat.ltb_lt; lia).
    rewrite Hs. reflexivity.
  - intros k s Hk Hs. unfold reindexSlides. rewrite nth_error_mapi_from.
    rewrite nth_error_app2 by lia. rewrite Hlen.
    replace (S k - index)%nat with (S (k - index)) by lia.
    cbn [nth_error]. rewrite nth_error_skipn.
    replace (index + (k - index))%nat with k by lia. rewrite Hs. reflexivity.
Qed.

Lemma handleInsertSlide_at_position_witness :
  nth_error (handleInsertSlide 1 (inserted_slide "n" 1 Samples.wav "u") Samples.deck) 1
  = Some (inserted_slide "n" 1 Samples.wav "u").
Proof.
  destruct (handleInsertSlide_at_position 1 (inserted_slide "n" 1 Samples.wav "u")
              Samples.deck) as (_ & _ & Hnth & _).
  - cbn. lia.
  - exact Hnth.
Defined.

(** An insertion index beyond the end appends, and one before the start
    prepends; either way the new slide's pageIndex becomes its position, not
    the index asked for. *)
Theorem handleInsertSlide_clamps (index : Z) (newSlide : Slide) (prev : list Slide) :
  let next := handleInsertSlide index newSlide prev in
  List.length next = S (List.length prev) /\ indexed next /\
  (Z.of_nat (List.length prev) <= index ->
   nth_error next (List.length prev)
   = Some (set_pageIndex (Z.of_nat (List.length prev)) newSlide)) /\
  (index <= - Z.of_nat (List.length prev) ->
   nth_error next 0 = Some (set_pageIndex 0 newSlide)).
Proof.
  cbv zeta. unfold handleInsertSlide, splice_insert.
  set (start := Z.to_nat (if index <? 0
                          then Z.max (Z.of_nat (List.length prev) + index) 0
                          else Z.min index (Z.of_nat (List.length prev)))).
  assert (Hstart : (start <= List.length prev)%nat).
  { unfold start. destruct (index <? 0) eqn:Hneg.
    - apply Z.ltb_lt in Hneg. lia.
    - lia. }
  assert (Hlen : List.length (firstn start prev) = start) by (apply firstn_length_le, Hstart).
  split.
  { unfold reindexSlides. rewrite length_mapi_from, length_app. cbn [List.length].
    rewrite Hlen, length_skipn. lia. }
  split; [apply reindex_indexed|]. split.
  - intros Hbig. assert (Hs : start = List.length prev).
    { unfold start. replace (index <? 0) with false by (symmetry; apply Z.ltb_ge; lia). lia. }
    unfold reindexSlides. rewrite nth_error_mapi_from, nth_error_app2 by lia.
    rewrite Hlen, Hs, Nat.sub_diag. reflexivity.
  - intros Hsmall. assert (Hs : start = 0%nat).
    { unfold start. destruct (index <? 0) eqn:Hneg.
      - lia.
      - apply Z.ltb_ge in Hneg. lia. }
    unfold reindexSlides. rewrite nth_error_mapi_from, Hs. reflexivity.
Qed.

Lemma handleInsertSlide_clamps_witness :
  nth_error (handleInsertSlide 99 (inserted_slide "n" 99 Samples.wav "u") Samples.deck) 2
  = Some (inserted_slide "n" 2 Samples.wav "u").
Proof.
  destruct (handleInsertSlide_clamps 99 (inserted_slide "n" 99 Samples.wav "u") Samples.deck)
    as (_ & _ & Hend & _).
  apply Hend. cbn. lia.
Defined.

(** *** Moving *)

Lemma findIndex_split {A : Type} (p : A -> bool) (l : list A) :
  forall k, findIndex p l = Some k ->
    exists l1 x l2, l = l1 ++ x :: l2 /\ List.length l1 = k /\ p x = true /\
                    forallb (fun a => negb (p a)) l1 = true.
Proof.
  induction l as [|a l IH]; intros k H; [discriminate|].
  cbn [findIndex] in H. destruct (p a) eqn:Hp.
  - injection H as <-. exists [], a, l. repeat split; assumption.
  - destruct (findIndex p l) as [k'|]; [|discriminate].
    injection H as <-. destruct (IH k' eq_refl) as (l1 & x & l2 & -> & Hlen & Hx & Hl1).
    exists (a :: l1), x, l2. cbn [app List.length forallb]. rewrite Hp, Hl1, Hlen.
    repeat split; assumption.
Qed.

Lemma findIndex_first {A : Type} (p : A -> bool) (l1 : list A) (x : A) (l2 : list A) :
  forallb (fun a => negb (p a)) l1 = true -> p x = true ->
  findIndex p (l1 ++ x :: l2) = Some (List.length l1).
Proof.
  induction l1 as [|a l1 IH]; intros Hl1 Hx; cbn [app findIndex List.length].
  - now rewrite Hx.
  - cbn [forallb] in Hl1. apply andb_prop in Hl1. destruct Hl1 as (Ha & Hl1).
    apply negb_true_iff in Ha. rewrite Ha, (IH Hl1 Hx). reflexivity.
Qed.

Lemma set_nth_middle {A : Type} (l1 : list A) (a x : A) (r : list A) :
  set_nth (List.length l1) x (l1 ++ a :: r) = l1 ++ x :: r.
Proof. induction l1 as [|b l1 IH]; cbn; [reflexivity | now rewrite IH]. Qed.

Lemma nth_error_middle {A : Type} (l1 : list A) (a : A) (r : list A) :
  nth_error (l1 ++ a :: r) (List.length l1) = Some a.
Proof. rewrite nth_error_app2, Nat.sub_diag by lia. reflexivity. Qed.

Lemma swap_neighbours {A : Type} (l1 : list A) (a b : A) (l2 : list A) :
  swap (List.length l1) (S (List.length l1)) (l1 ++ a :: b :: l2) = l1 ++ b :: a :: l2 /\
  swap (S (List.length l1)) (List.length l1) (l1 ++ a :: b :: l2) = l1 ++ b :: a :: l2.
Proof.
  assert (Ha : nth_error (l1 ++ a :: b :: l2) (List.length l1) = Some a)
    by apply nth_error_middle.
  assert (Hb : nth_error (l1 ++ a :: b :: l2) (S (List.length l1)) = Some b).
  { replace (l1 ++ a :: b :: l2) with ((l1 ++ [a]) ++ b :: l2) by now rewrite <- app_assoc.
    replace (S (List.length l1)) with (List.length (l1 ++ [a]))
      by (rewrite length_app; cbn; lia).
    apply nth_error_middle. }
  assert (Hset : forall x y,
             set_nth (S (List.length l1)) y (l1 ++ x :: b :: l2) = l1 ++ x :: y :: l2).
  { intros x y.
    replace (l1 ++ x :: b :: l2) with ((l1 ++ [x]) ++ b :: l2) by now rewrite <- app_assoc.
    replace (S (List.length l1)) with (List.length (l1 ++ [x]))
      by (rewrite length_app; cbn; lia).
    rewrite set_nth_middle, <- app_assoc. reflexivity. }
  unfold swap. rewrite Ha, Hb. split.
  - rewrite set_nth_middle. apply Hset.
  - rewrite Hset. apply set_nth_middle.
Qed.

Lemma no_id_related (id0 : string) (l l' : list Slide) :
  Forall2 same_but_pageIndex l l' ->
  forallb (fun a => negb (has_id id0 a)) l = forallb (fun a => negb (has_id id0 a)) l'.
Proof.
  induction 1 as [|a b l l' Hab _ IH]; [reflexivity|].
  cbn [forallb]. unfold has_id at 1 3. rewrite (same_but_pageIndex_id a b Hab), IH.
  reflexivity.
Qed.

(** The shape of a move up: the slide and the one before it trade places. *)
Lemma handleMoveSlide_up_shape (id0 : string) (l1 : list Slide) (a b : Slide)
    (l2 : list Slide) :
  forallb (fun s => negb (has_id id0 s)) (l1 ++ [a]) = true -> has_id id0 b = true ->
  handleMoveSlide id0 up (l1 ++ a :: b :: l2) = reindexSlides (l1 ++ b :: a :: l2).
Proof.
  intros Hbefore Hb. unfold handleMoveSlide.
  replace (l1 ++ a :: b :: l2) with ((l1 ++ [a]) ++ b :: l2) by now rewrite <- app_assoc.
  rewrite (findIndex_first _ _ _ _ Hbefore Hb).
  rewrite length_app. cbn [List.length].
  replace (List.length l1 + 1 =? 0)%nat with false by (symmetry; apply Nat.eqb_neq; lia).
  replace (List.length l1 + 1 - 1)%nat with (List.length l1) by lia.
  replace (List.length l1 + 1)%nat with (S (List.length l1)) by lia.
  rewrite <- app_assoc. cbn [app].
  destruct (swap_neighbours l1 a b l2) as (_ & ->). reflexivity.
Qed.

(** The shape of a move down: the slide and the one after it trade places. *)
Lemma handleMoveSlide_down_shape (id0 : string) (l1 : list Slide) (b a : Slide)
    (l2 : list Slide) :
  forallb (fun s => negb (has_id id0 s)) l1 = true -> has_id id0 b = true ->
  handleMoveSlide id0 down (l1 ++ b :: a :: l2) = reindexSlides (l1 ++ a :: b :: l2).
Proof.
  intros Hbefore Hb. unfold handleMoveSlide.
  rewrite (findIndex_first _ _ _ _ Hbefore Hb).
  rewrite length_app. cbn [List.length].
  replace (List.length l1 =? List.length l1 + S (S (List.length l2)) - 1)%nat with false
    by (symmetry; apply Nat.eqb_neq; lia).
  replace (List.length l1 + 1)%nat with (S (List.length l1)) by lia.
  destruct (swap_neighbours l1 b a l2) as (-> & _). reflexivity.
Qed.

(** A move of an unknown id, of the first slide up or of the last slide down
    changes nothing; any other move keeps the number of slides and the ids,
    up to order, and keeps the numbering by position. *)
Theorem handleMoveSlide_keeps_slides (id0 : string) (direction : Direction)
    (prev : list Slide) :
  let next := handleMoveSlide id0 direction prev in
  List.length next = List.length prev /\
  Permutation (map id prev) (map id next) /\
  (indexed prev -> indexed next) /\
  (findIndex (has_id id0) prev = None -> next = prev) /\
  (findIndex (has_id id0) prev = Some 0%nat -> direction = up -> next = prev) /\
  (findIndex (has_id id0) prev = Some (List.length prev - 1)%nat -> direction = down ->
   next = prev).
Proof.
  cbv zeta.
  assert (Hnone : findIndex (has_id id0) prev = None ->
                  handleMoveSlide id0 direction prev = prev).
  { intros H. unfold handleMoveSlide. now rewrite H. }
  assert (Hfirst : findIndex (has_id id0) prev = Some 0%nat -> direction = up ->
                   handleMoveSlide id0 direction prev = prev).
  { intros H ->. unfold handleMoveSlide. now rewrite H. }
  assert (Hlast : findIndex (has_id id0) prev = Some (List.length prev - 1)%nat ->
                  direction = down -> handleMoveSlide id0 direction prev = prev).
  { intros H ->. unfold handleMoveSlide. now rewrite H, Nat.eqb_refl. }
  assert (Hmain : List.length (handleMoveSlide id0 direction prev) = List.length prev /\
                  Permutation (map id prev) (map id (handleMoveSlide id0 direction prev)) /\
                  (indexed prev -> indexed (handleMoveSlide id0 direction prev))).
  { destruct (findIndex (has_id id0) prev) as [index|] eqn:Hfind.
    2:{ rewrite (Hnone eq_refl). repeat split; [apply Permutation_refl | trivial]. }
    destruct (findIndex_split _ _ _ Hfind) as (l1 & b & l2 & Hprev & Hlen & Hb & Hl1).
    assert (Hids : forall l, map id (reindexSlides l) = map id l).
    { intros l. unfold reindexSlides. generalize 0%nat.
      induction l as [|x l IH]; intros i; cbn [mapi_from map]; [reflexivity|].
      now rewrite IH. }
    destruct direction.
    - destruct index as [|index].
      { rewrite (Hfirst eq_refl eq_refl).
        repeat split; [apply Permutation_refl | trivial]. }
      destruct l1 as [|a0 l1'] using rev_ind; [discriminate|].
      subst prev. rewrite <- app_assoc. cbn [app].
      rewrite (handleMoveSlide_up_shape id0 l1' a0 b l2 Hl1 Hb).
      split; [|split].
      + unfold reindexSlides. rewrite length_mapi_from, !length_app. cbn. lia.
      + rewrite Hids, !map_app. cbn [map]. apply Permutation_app_head. constructor.
      + intros _. apply reindex_indexed.
    - destruct l2 as [|a0 l2'].
      { assert (Hidx : index = (List.length prev - 1)%nat).
        { subst prev. rewrite length_app. cbn. lia. }
        rewrite (Hlast (f_equal Some Hidx) eq_refl).
        repeat split; [apply Permutation_refl | trivial]. }
      subst prev.
      rewrite (handleMoveSlide_down_shape id0 l1 b a0 l2' Hl1 Hb).
      split; [|split].
      + unfold reindexSlides. rewrite length_mapi_from, !length_app. cbn. lia.
      + rewrite Hids, !map_app. cbn [map]. apply Permutation_app_head. constructor.
      + intros _. apply reindex_indexed. }
  destruct Hmain as (H1 & H2 & H3).
  repeat split; assumption.
Qed.

Lemma handleMoveSlide_keeps_slides_witness :
  handleMoveSlide "nobody" up Samples.deck = Samples.deck.
Proof.
  destruct (handleMoveSlide_keeps_slides "nobody" up Samples.deck) as (_ & _ & _ & Hnone & _).
  apply Hnone. reflexivity.
Defined.

(** Moving a slide up and then down again gives the list back, renumbered
    (and unchanged when it was numbered by position). *)
Theorem handleMoveSlide_up_then_down (id0 : string) (prev : list Slide) (index : nat) :
  findIndex (has_id id0) prev = Some (S index) ->
  handleMoveSlide id0 down (handleMoveSlide id0 up prev) = reindexSlides prev /\
  (indexed prev -> handleMoveSlide id0 down (handleMoveSlide id0 up prev) = prev).
Proof.
  intros Hfind.
  assert (Hround : handleMoveSlide id0 down (handleMoveSlide id0 up prev)
                   = reindexSlides prev).
  { destruct (findIndex_split _ _ _ Hfind) as (l1 & b & l2 & Hprev & Hlen & Hb & Hl1).
    destruct l1 as [|a l1'] using rev_ind; [discriminate|].
    subst prev. rewrite <- app_assoc. cbn [app].
    rewrite (handleMoveSlide_up_shape id0 l1' a b l2 Hl1 Hb).
    assert (Hrel : Forall2 same_but_pageIndex (l1' ++ b :: a :: l2)
                     (reindexSlides (l1' ++ b :: a :: l2))) by apply reindex_from_related.
    apply Forall2_app_inv_l in Hrel.
    destruct Hrel as (m1 & mrest & Hm1 & Hmrest & Heq).
    inversion Hmrest as [|b0 b' r0 r1 Hbb Hr1 E1 E2]; subst.
    inversion Hr1 as [|a0 a' r2 m2 Haa Hm2 E3 E4]; subst.
    rewrite Heq.
    rewrite forallb_app in Hl1. apply andb_prop in Hl1. destruct Hl1 as (Hl1 & Ha).
    rewrite (handleMoveSlide_down_shape id0 m1 b' a' m2).
    - unfold reindexSlides. symmetry. apply reindex_from_same.
      apply Forall2_app; [exact Hm1|]. constructor; [exact Haa|]. constructor; assumption.
    - rewrite <- (no_id_related id0 l1' m1 Hm1). exact Hl1.
    - unfold has_id in *. rewrite <- (same_but_pageIndex_id b b' Hbb). exact Hb. }
  split; [exact Hround|].
  intros Hidx. rewrite Hround. apply indexed_tail_fixed. exact Hidx.
Qed.

Lemma handleMoveSlide_up_then_down_witness :
  handleMoveSlide "slide-b" down
    (handleMoveSlide "slide-b" up
       [mkSlide "slide-a" 0 Samples.wav "a" "one" None None 0 false pending;
        mkSlide "slide-b" 1 Samples.wav "b" "two" None None 0 false pending])
  = [mkSlide "slide-a" 0 Samples.wav "a" "one" None None 0 false pending;
     mkSlide "slide-b" 1 Samples.wav "b" "two" None None 0 false pending].
Proof.
  apply (handleMoveSlide_up_then_down "slide-b" _ 0).
  - reflexivity.
  - intros [|[|[|k]]] s H; cbn in H; try discriminate; injection H as <-; reflexivity.
Defined.

(** *** Ready slides have audio *)

Lemma Forall_mapi_from {A B : Type} (P : A -> Prop) (Q : B -> Prop) (f : A -> nat -> B)
    (l : list A) :
  (forall a i, P a -> Q (f a i)) ->
  Forall P l -> forall i, Forall Q (mapi_from f i l).
Proof.
  intros Hf. induction 1 as [|a l Ha _ IH]; intros i; cbn [mapi_from]; constructor.
  - apply Hf, Ha.
  - apply IH.
Qed.

Lemma Forall_set_nth {A : Type} (P : A -> Prop) (x : A) (l : list A) :
  P x -> Forall P l -> forall i, Forall P (set_nth i x l).
Proof.
  intros Hx. induction 1 as [|a l Ha Hl IH]; intros i; [destruct i; constructor|].
  destruct i as [|i]; cbn [set_nth]; constructor; auto.
Qed.

Lemma Forall_swap {A : Type} (P : A -> Prop) (i j : nat) (l : list A) :
  Forall P l -> Forall P (swap i j l).
Proof.
  intros Hl. unfold swap.
  destruct (nth_error l i) as [a|] eqn:Ha; [|exact Hl].
  destruct (nth_error l j) as [b|] eqn:Hb; [|exact Hl].
  rewrite Forall_forall in Hl.
  apply Forall_set_nth; [apply Hl, (nth_error_In _ _ Ha)|].
  apply Forall_set_nth; [apply Hl, (nth_error_In _ _ Hb)|].
  apply Forall_forall, Hl.
Qed.

Lemma Forall_reindex (P : Slide -> Prop) (l : list Slide) :
  (forall s i, P s -> P (set_pageIndex i s)) ->
  Forall P l -> Forall P (reindexSlides l).
Proof.
  intros Hp Hl. unfold reindexSlides.
  apply (Forall_mapi_from P P); [|exact Hl]. intros a i. apply Hp.
Qed.

Lemma Forall_map_if (P : Slide -> Prop) (c : Slide -> bool) (f : Slide -> Slide)
    (l : list Slide) :
  (forall s, P (f s)) -> Forall P l -> Forall P (map (fun s => if c s then f s else s) l).
Proof.
  intros Hf. induction 1 as [|a l Ha _ IH]; cbn [map]; constructor; [|exact IH].
  destruct (c a); [apply Hf | exact Ha].
Qed.

(** Every update of the slide list in App.tsx keeps the rule that a slide
    marked ready has its audio: the reset and the upload (lines 45, 67), the
    batch of scripts (88), the processing mark (121, 215, 229, 257), the
    arrival (128-141, 233-246) or the failure (144) of an audio, a script
    edit (158), deleting (162-170), moving (175-186), inserting (204-208), a
    regenerated script (219), the end of a failed regeneration (222, 249,
    280) and a regenerated script with its audio (263-277). *)
Theorem ready_has_audio_kept :
  ready_has_audio [] /\
  (forall generateId createObjectURL images,
      ready_has_audio (uploaded_slides generateId createObjectURL images)) /\
  forall prev,
    ready_has_audio prev ->
    (forall scripts, ready_has_audio (scripts_generated scripts prev)) /\
    (forall id0 newScript, ready_has_audio (handleUpdateScript id0 newScript prev)) /\
    (forall id0, ready_has_audio (mark_processing id0 prev)) /\
    (forall id0 blob url seconds, ready_has_audio (audio_ready id0 blob url seconds prev)) /\
    (forall id0, ready_has_audio (audio_failed id0 prev)) /\
    (forall id0, ready_has_audio (snd (handleDeleteSlide id0 prev))) /\
    (forall id0 direction, ready_has_audio (handleMoveSlide id0 direction prev)) /\
    (forall index newId blob url,
        ready_has_audio (handleInsertSlide index (inserted_slide newId index blob url) prev)) /\
    (forall id0 newScript, ready_has_audio (script_regenerated id0 newScript prev)) /\
    (forall id0, ready_has_audio (processing_stopped id0 prev)) /\
    (forall id0 newScript blob url seconds,
        ready_has_audio (both_regenerated id0 newScript blob url seconds prev)).
Proof.
  split; [constructor|]. split.
  { intros generateId createObjectURL images. unfold ready_has_audio, uploaded_slides.
    apply (Forall_mapi_from (fun _ => True)).
    - intros a i _. cbn. discriminate.
    - apply Forall_forall. trivial. }
  intros prev Hprev. unfold ready_has_audio in *.
  assert (Hset : forall s i, (status s = ready -> audioBlob s <> None) ->
                 status (set_pageIndex i s) = ready -> audioBlob (set_pageIndex i s) <> None)
    by (intros s i H; exact H).
  assert (Hsame : forall (f : Slide -> Slide) id0,
             (forall s, status (f s) = status s /\ audioBlob (f s) = audioBlob s) ->
             Forall (fun s => status s = ready -> audioBlob s <> None)
                    (map (fun s => if has_id id0 s then f s else s) prev)).
  { intros f id0 Hf.
    induction Hprev as [|a l Ha _ IH]; cbn [map]; constructor; [|exact IH].
    destruct (has_id id0 a); [|exact Ha].
    destruct (Hf a) as (-> & ->). exact Ha. }
  split.
  { intros scripts. unfold scripts_generated.
    apply (Forall_mapi_from (fun s => status s = ready -> audioBlob s <> None));
      [|exact Hprev].
    intros a i Ha. exact Ha. }
  split; [intros; apply Forall_map_if; [cbn; discriminate | exact Hprev]|].
  split; [intros id0; apply (Hsame _ id0); intros s; split; reflexivity|].
  split; [intros; apply Forall_map_if; [cbn; discriminate | exact Hprev]|].
  split; [intros; apply Forall_map_if; [cbn; discriminate | exact Hprev]|].
  split.
  { intros id0. unfold handleDeleteSlide. cbn [snd].
    apply (Forall_reindex _ _ Hset).
    apply Forall_forall. intros s Hs. apply filter_In in Hs. destruct Hs as (Hs & _).
    rewrite Forall_forall in Hprev. apply Hprev, Hs. }
  split.
  { intros id0 direction. unfold handleMoveSlide.
    destruct (findIndex (has_id id0) prev) as [index|]; [|exact Hprev].
    destruct direction.
    - destruct (index =? 0)%nat; [exact Hprev|].
      apply (Forall_reindex _ _ Hset), Forall_swap, Hprev.
    - destruct (index =? List.length prev - 1)%nat; [exact Hprev|].
      apply (Forall_reindex _ _ Hset), Forall_swap, Hprev. }
  split.
  { intros index newId blob url. unfold handleInsertSlide, splice_insert.
    apply (Forall_reindex _ _ Hset).
    match goal with
    | |- Forall _ (firstn ?n prev ++ _ :: skipn ?n prev) =>
        rewrite <- (firstn_skipn n prev) in Hprev; apply Forall_app in Hprev;
        destruct Hprev as (H1 & H2)
    end.
    apply Forall_app. split; [exact H1|]. constructor; [cbn; discriminate | exact H2]. }
  split; [intros; apply Forall_map_if; [cbn; discriminate | exact Hprev]|].
  split; [intros id0; apply (Hsame _ id0); intros s; split; reflexivity|].
  intros; apply Forall_map_if; [cbn; discriminate | exact Hprev].
Qed.

Lemma ready_has_audio_kept_witness :
  ready_has_audio (audio_ready "slide-a" Samples.wav "blob:a" 2 MoreSamples.two_pending) /\
  ready_has_audio (both_regenerated "slide-c" "again" Samples.wav "blob:c" 3
                     MoreSamples.narrated_deck) /\
  ready_has_audio (processing_stopped "slide-b" MoreSamples.narrated_deck).
Proof.
  destruct ready_has_audio_kept as (_ & _ & Hkept).
  split; [|split].
  - destruct (Hkept MoreSamples.two_pending) as (_ & _ & _ & Hready & _).
    + repeat constructor; discriminate.
    + apply Hready.
  - destruct (Hkept MoreSamples.narrated_deck)
      as (_ & _ & _ & _ & _ & _ & _ & _ & _ & _ & Hboth).
    + repeat constructor; discriminate.
    + apply Hboth.
  - destruct (Hkept MoreSamples.narrated_deck)
      as (_ & _ & _ & _ & _ & _ & _ & _ & _ & Hstop & _).
    + repeat constructor; discriminate.
    + apply Hstop.
Defined.

Lemma generateVideo_resolved_plays (fuel : nat) (env : Env) (slides : list Slide)
    (blob : Blob) (s : State) (t : list Event) :
  generateVideo fuel env slides = (Resolved blob, s, t) ->
  sources_of t = flat_map (decoded env) slides /\ forallb (loads env) slides = true.
Proof.
  intros Hrun.
  destruct (generateVideo_cases fuel env slides)
    as (t0 & Ha & _ & [(_ & _ & e & Hfail)
                      | (_ & _ & R & o1 & s1 & t1 & _ & Hloop & He & Hk & Hok)]).
  - rewrite Hfail in Hrun. discriminate.
  - rewrite Hok in Hrun. destruct o1 as [[] | e1 |]; try discriminate.
    match type of Hrun with
    | (?o', ?s', ?t') = _ => assert (Ht : t = t') by congruence; clear Hrun
    end.
    destruct (for_slides_sources _ _ _ _ _ _ _ _ Hloop) as (Hsrc & Hl).
    destruct (acquire_quiet t0 Ha) as (_ & S0).
    split; [|exact Hl].
    rewrite Ht, !sources_of_app, S0, Hsrc. cbn. apply app_nil_r.
Qed.

(** The handler calls the compositor only when every slide is marked ready.
    With the rule that ready slides have their audio, the compositor then
    skips no slide: a run that resolves has played one audio per slide and
    reported progress once per slide. *)
Theorem handleGenerateVideo_skips_no_slide (fuel : nat) (env : Env) (slides : list Slide) :
  ((exists slide, In slide slides /\ status slide <> ready) ->
   handleGenerateVideo fuel env slides = None) /\
  (Forall (fun slide => status slide = ready) slides ->
   handleGenerateVideo fuel env slides = Some (generateVideo fuel env slides)) /\
  (ready_has_audio slides ->
   forall blob s t,
     handleGenerateVideo fuel env slides = Some (Resolved blob, s, t) ->
     Forall (fun slide => audioBlob slide <> None) slides /\
     List.length (sources_of t) = List.length slides /\
     List.length (progress_of t) = List.length slides).
Proof.
  assert (Hgate : forall l,
            filter (fun sl => negb (status_eqb (status sl) ready)) l = [] <->
            Forall (fun sl => status sl = ready) l).
  { induction l as [|a l IH]; [split; [constructor | reflexivity]|].
    cbn [filter]. destruct (status a) eqn:Hst; cbn [status_eqb negb].
    - split; [discriminate|]. intros H. inversion H; congruence.
    - rewrite IH. split; [intros H; constructor; [exact Hst | exact H]|].
      intros H. inversion H; assumption.
    - split; [discriminate|]. intros H. inversion H; congruence. }
  unfold handleGenerateVideo. split; [|split].
  - intros (slide & Hin & Hst).
    destruct (filter _ slides) as [|a l] eqn:Hf; [|reflexivity].
    apply Hgate in Hf. rewrite Forall_forall in Hf. elim Hst. apply Hf, Hin.
  - intros Hall. apply Hgate in Hall. rewrite Hall. reflexivity.
  - intros Hinv blob s t.
    destruct (filter _ slides) as [|a l] eqn:Hf; [|discriminate].
    cbn [List.length Nat.ltb Nat.leb]. intros H. injection H as Hrun.
    apply Hgate in Hf.
    assert (Haudio : Forall (fun slide => audioBlob slide <> None) slides).
    { unfold ready_has_audio in Hinv. rewrite Forall_forall in *.
      intros sl Hin. apply (Hinv sl Hin), (Hf sl Hin). }
    split; [exact Haudio|]. split.
    + destruct (generateVideo_resolved_plays _ _ _ _ _ _ Hrun) as (-> & Hloads).
      clear Hrun Hf Hinv. induction slides as [|sl slides IH]; [reflexivity|].
      cbn [flat_map forallb List.length] in *. apply andb_prop in Hloads.
      destruct Hloads as (Hl & Hls). inversion Haudio as [|x y Hsl Hrest]; subst.
      rewrite length_app, (IH Hrest Hls).
      unfold loads in Hl. unfold decoded.
      destruct (audioBlob sl) as [b|]; [|congruence].
      destruct (image_at env (imageUrl sl)); [|discriminate].
      destruct (decodeAudioData env b); [reflexivity | discriminate].
    + destruct (progress_of_run fuel env slides _ _ _ Hrun)
        as (k & pre & loop & post & _ & _ & _ & _ & _ & Hp & Hall).
      rewrite Hp, length_map, length_seq. apply (Hall blob eq_refl).
Qed.

Lemma handleGenerateVideo_skips_no_slide_witness :
  handleGenerateVideo 10 Samples.browser
    [mkSlide "p" 0 Samples.wav "a" "text" None None 0 false pending] = None.
Proof.
  destruct (handleGenerateVideo_skips_no_slide 10 Samples.browser
              [mkSlide "p" 0 Samples.wav "a" "text" None None 0 false pending])
    as (Hgate & _).
  apply Hgate. eexists. split; [left; reflexivity|]. cbn. discriminate.
Defined.
End SlideList.
